(** * Marker Editor for Plex: marker breakdown, CRUD commands and bulk shift

  A shallow embedding of the marker bookkeeping of the repository:
  - [MarkerBreakdown] follows [Shared/MarkerBreakdown.js] and
    [Shared/MarkerType.js];
  - [CoreCommands] follows the server's add / edit / delete commands;
  - [BulkShift] follows the client's [BulkShiftRow.update] and
    [BulkShiftOverlay.#getIgnored];
  - [LegacyCache] and [LegacyQueries] follow the older server's
    [updateMarkerBreakdownCache] and [queryIds];
  - [SearchResults] follows [PlexUI.#searchMovies];
  - [ShiftTable] follows the customize table of the bulk shift overlay:
    [BulkShiftClasses.set], [#showCustomizeTable], the linked rows of
    [update], [#adjustNewTimes], [#tryApply] and
    [#warnAboutUnresolvedMarkers];
  - [Engine] holds the operations whose server code is not part of the
    sources at hand; they are modelled from the specification.

  JavaScript numbers are modelled by [Z]: every quantity below is an
  integer far smaller than 2^53, where double arithmetic is exact.  The
  bit operators, which work on 32-bit signed integers, have their
  wrap-around written out. *)

From Stdlib Require Import ZArith Lia Bool List Permutation Sorted FinFun.
From stdpp Require Import gmap strings list fin_maps.

Local Open Scope Z_scope.

(** ** JavaScript's 32-bit integer operators *)

Module JS.

(** [ToInt32]: reduce modulo 2^32 into the range [-2^31, 2^31). *)
Definition ToInt32 (x : Z) : Z := (x + 2 ^ 31) mod 2 ^ 32 - 2 ^ 31.

(** [a << b] *)
Definition shl (a b : Z) : Z := ToInt32 (Z.shiftl (ToInt32 a) (Z.land b 31)).

(** [a >> b], the sign-propagating shift *)
Definition sar (a b : Z) : Z := Z.shiftr (ToInt32 a) (Z.land b 31).

(** [a & b] *)
Definition band (a b : Z) : Z := Z.land (ToInt32 a) (ToInt32 b).

(** A number as a property value: an integer, or [NaN], which is what
    arithmetic on a missing property ([undefined]) produces. *)
Inductive num : Type :=
| Num (z : Z)
| NaN.

Definition add (a b : num) : num :=
  match a, b with
  | Num x, Num y => Num (x + y)
  | _, _ => NaN
  end.

(** The operand of [--o[k]] / [++o[k]]: a missing property reads as
    [undefined], and [undefined - 1] is [NaN]. *)
Definition ToNumber (v : option num) : num :=
  match v with
  | Some n => n
  | None => NaN
  end.

(** [a | b] *)
Definition bor (a b : Z) : Z := Z.lor (ToInt32 a) (ToInt32 b).

#[global] Instance num_eq_dec : EqDecision num.
Proof. solve_decision. Defined.

End JS.

(** ** Shared/MarkerType.js *)

Module MarkerType.

Definition Intro : string := "intro".
Definition Credits : string := "credits".
Definition Ad : string := "commercial".

Definition _supportedMarkerTypes : list string := [Intro; Credits; Ad].

Definition supportedMarkerType (markerType : string) : bool :=
  bool_decide (markerType ∈ _supportedMarkerTypes).

(** [MarkerEnum]: the marker types as OR-able values. *)
Definition EnumIntro : Z := 0x1.
Definition EnumCredits : Z := 0x2.
Definition EnumAd : Z := 0x4.
Definition EnumAll : Z := JS.bor (JS.bor 0x1 0x2) 0x4.

(** [MarkerEnum.typeMatch(markerType, markerEnum)] *)
Definition typeMatch (markerType : string) (markerEnum : Z) : bool :=
  if String.eqb markerType Intro then negb (JS.band markerEnum EnumIntro =? 0)
  else if String.eqb markerType Credits then negb (JS.band markerEnum EnumCredits =? 0)
  else if String.eqb markerType Ad then negb (JS.band markerEnum EnumAd =? 0)
  else false.

End MarkerType.

(** ** Shared/MarkerBreakdown.js *)

Module MarkerBreakdown.

Definition IntroMask : Z := 0x0000FFFF.
Definition CreditsShift : Z := 16.

(** [static deltaFromType(delta, markerType)]: the [switch] has a case
    for intro and one for credits; every other string takes the
    [default] branch, which logs an error and answers as for an intro. *)
Definition deltaFromType (delta : Z) (markerType : string) : Z :=
  if String.eqb markerType MarkerType.Intro then delta
  else if String.eqb markerType MarkerType.Credits then JS.shl delta CreditsShift
  else delta.

(** [static markerCountFromKey(key)] *)
Definition markerCountFromKey (key : Z) : Z :=
  JS.sar key CreditsShift + JS.band key IntroMask.

(** [static keyFromMarkerCount(intros, credits)] *)
Definition keyFromMarkerCount (intros credits : Z) : Z :=
  deltaFromType intros MarkerType.Intro + deltaFromType credits MarkerType.Credits.

(** [#ic(v)]: intro count from key *)
Definition ic (v : Z) : Z := JS.band v IntroMask.

(** [#cc(v)]: credits count from key *)
Definition cc (v : Z) : Z := JS.sar v CreditsShift.

(** The private [#counts] object: bucket key to number of items. *)
Abbreviation counts := (gmap Z JS.num).

(** [#counts = { 0 : 0 }] *)
Definition initial : counts := {[ 0 := JS.Num 0 ]}.

(** [totalItems()]: the sum of [Object.values(#counts)]. *)
Definition totalItems (c : counts) : JS.num :=
  map_fold (fun _ v acc => JS.add acc v) (JS.Num 0) c.

(** [totalIntros()] *)
Definition totalIntros (c : counts) : JS.num :=
  map_fold (fun k v acc =>
              JS.add acc (match v with
                          | JS.Num n => JS.Num (ic k * n)
                          | JS.NaN => JS.NaN
                          end)) (JS.Num 0) c.

(** [totalCredits()] *)
Definition totalCredits (c : counts) : JS.num :=
  map_fold (fun k v acc =>
              JS.add acc (match v with
                          | JS.Num n => JS.Num (cc k * n)
                          | JS.NaN => JS.NaN
                          end)) (JS.Num 0) c.

(** [o[k] ??= 0] *)
Definition nullishInit (k : Z) (c : counts) : counts :=
  match c !! k with
  | Some _ => c
  | None => <[k := JS.Num 0]> c
  end.

(** [--o[k]] *)
Definition decrement (k : Z) (c : counts) : counts :=
  <[k := JS.add (JS.ToNumber (c !! k)) (JS.Num (-1))]> c.

(** [++o[k]] *)
Definition increment (k : Z) (c : counts) : counts :=
  <[k := JS.add (JS.ToNumber (c !! k)) (JS.Num 1)]> c.

(** [delta(oldBucket, delta)] *)
Definition delta (oldBucket d : Z) (c : counts) : counts :=
  increment (oldBucket + d) (decrement oldBucket (nullishInit (oldBucket + d) c)).

(** [initBase()] *)
Definition initBase (c : counts) : counts := increment 0 c.

(** [totalMarkers()] *)
Definition totalMarkers (c : counts) : JS.num :=
  map_fold (fun k v acc =>
              JS.add acc (match v with
                          | JS.Num n => JS.Num ((cc k + ic k) * n)
                          | JS.NaN => JS.NaN
                          end)) (JS.Num 0) c.

(** [value === 0] *)
Definition isZero (v : JS.num) : bool :=
  match v with
  | JS.Num 0 => true
  | _ => false
  end.

(** [#minify()]: deletes the keys whose count is 0. *)
Definition minify (c : counts) : counts :=
  filter (fun kv => isZero kv.2 = false) c.

(** [data()]: minifies [#counts] and returns a copy of it. *)
Definition data (c : counts) : counts := minify c.

(** [buckets()]: the number of keys whose count is not 0. *)
Definition buckets (c : counts) : nat :=
  length (filter (fun kv => isZero kv.2 = false) (map_to_list c)).

(** [collapsed[typeKey] ??= 0; collapsed[typeKey] += value] *)
Definition addTo (typeKey : Z) (value : JS.num) (collapsed : counts) : counts :=
  <[typeKey := JS.add (JS.ToNumber (nullishInit typeKey collapsed !! typeKey)) value]>
    (nullishInit typeKey collapsed).

(** [#buckets(keyFunc)]: the counts regrouped by [keyFunc(key)], the keys
    with count 0 skipped. *)
Definition bucketsBy (keyFunc : Z -> Z) (c : counts) : counts :=
  map_fold (fun key value collapsed =>
              if isZero value then collapsed
              else addTo (keyFunc key) value collapsed) ∅ c.

(** [introBuckets()] *)
Definition introBuckets (c : counts) : counts := bucketsBy ic c.

(** [creditsBuckets()] *)
Definition creditsBuckets (c : counts) : counts := bucketsBy cc c.

(** [collapsedBuckets()]: the counts regrouped by the number of markers,
    and [#counts] after the call, minified when a count of 0 was seen. *)
Definition collapsedBuckets (c : counts) : counts * counts :=
  (bucketsBy (fun key => ic key + cc key) c,
   if map_fold (fun _ value seen => seen || isZero value) false c
   then minify c else c).

(** The shape shared by the totals: a sum over the entries of a term
    [g(key, count)]; and the term of the marker totals, the count times
    a number [f(key)] read from the key. *)
Definition weightedTotal (g : Z -> JS.num -> JS.num) (c : counts) : JS.num :=
  map_fold (fun k v acc => JS.add acc (g k v)) (JS.Num 0) c.

Definition weight (f : Z -> Z) (k : Z) (v : JS.num) : JS.num :=
  match v with
  | JS.Num n => JS.Num (f k * n)
  | JS.NaN => JS.NaN
  end.

(** The term of the item counts: [cond(key) ? count : 0]. *)
Definition countIf (cond : Z -> bool) (k : Z) (v : JS.num) : JS.num :=
  if cond k then v else JS.Num 0.

(** [itemsWithMarkers()]: [kv[0] > 0 ? kv[1] : 0] *)
Definition itemsWithMarkers (c : counts) : JS.num :=
  weightedTotal (countIf (fun key => key >? 0)) c.

(** [itemsWithIntros()] *)
Definition itemsWithIntros (c : counts) : JS.num :=
  weightedTotal (countIf (fun key => ic key >? 0)) c.

(** [itemsWithCredits()] *)
Definition itemsWithCredits (c : counts) : JS.num :=
  weightedTotal (countIf (fun key => cc key >? 0)) c.

End MarkerBreakdown.

(** ** The library database: marker rows of the [taggings] table *)

Module PlexDb.

(** A marker row as the commands read it: [id], [episode_id] (the parent
    item), [index], [start], [end], the marker type and the final flag. *)
Record MarkerRow : Type := mkRow {
  id : Z;
  episode_id : Z;
  index : Z;
  start : Z;
  end_ : Z;
  marker_type : string;
  final : bool
}.

Definition setInterval (m : MarkerRow) (startMs endMs : Z) : MarkerRow :=
  mkRow (id m) (episode_id m) (index m) startMs endMs (marker_type m) (final m).

Definition setIndex (m : MarkerRow) (newIndex : Z) : MarkerRow :=
  mkRow (id m) (episode_id m) newIndex (start m) (end_ m) (marker_type m) (final m).

(** [Array.prototype.sort] with a comparator [(a, b) => key(a) - key(b)]:
    ascending and stable.  Insertion from the right keeps equal keys in
    their original order. *)
Fixpoint insert_by {A : Type} (key : A -> Z) (x : A) (l : list A) : list A :=
  match l with
  | [] => [x]
  | y :: l' => if key x <=? key y then x :: l else y :: insert_by key x l'
  end.

Definition sort_by {A : Type} (key : A -> Z) (l : list A) : list A :=
  fold_right (insert_by key) [] l.

(** The order of a list sorted by a key. *)
Definition le_key {A : Type} (key : A -> Z) (a b : A) : Prop := key a <= key b.

(** Modelled from the spec: the query manager's primitives (the server's
    [PlexQueryManager] is missing from the sources).  [GetMarker]: the row
    with the given id, if any. *)
Definition getSingleMarker (taggings : list MarkerRow) (markerId : Z) : option MarkerRow :=
  List.find (fun m => id m =? markerId) taggings.

(** Modelled from the spec: [ListMarkers(parentId)], the markers of one
    parent (missing [PlexQueryManager.getEpisodeMarkers]), sorted by
    [start]. *)
Definition getEpisodeMarkers (taggings : list MarkerRow) (episodeId : Z) : list MarkerRow :=
  sort_by start (List.filter (fun m => episode_id m =? episodeId) taggings).

(** Modelled from the spec: [UpdateMarker] as the edit command calls it
    (missing [PlexQueryManager.editMarker]): new index, start and end for
    the row with the given id. *)
Definition editMarkerRow (taggings : list MarkerRow) (markerId newIndex startMs endMs : Z)
  : list MarkerRow :=
  List.map (fun m => if id m =? markerId
                     then setIndex (setInterval m startMs endMs) newIndex
                     else m) taggings.

(** Modelled from the spec: [UpdateMarkerIndex(id, index)] (missing
    [PlexQueryManager.updateMarkerIndex]). *)
Definition updateMarkerIndex (taggings : list MarkerRow) (markerId newIndex : Z)
  : list MarkerRow :=
  List.map (fun m => if id m =? markerId then setIndex m newIndex else m) taggings.

(** Modelled from the spec: [DeleteMarker(id)] (missing
    [PlexQueryManager.deleteMarker]). *)
Definition deleteMarkerRow (taggings : list MarkerRow) (markerId : Z) : list MarkerRow :=
  List.filter (fun m => negb (id m =? markerId)) taggings.

End PlexDb.

(** ** Server: core add / edit / delete commands *)

Module CoreCommands.

Import PlexDb.

(** The [ServerError]s of the commands, one constructor per [throw]; all
    carry HTTP code 400.  [TypeError] is the runtime error of writing a
    property of [undefined] ([allMarkers[oldIndex]] out of range). *)
Inductive ServerError : Type :=
| StartNotLessThanEnd (startMs endMs : Z)
| NegativeStart (startMs : Z)
| MarkerNotFound
| Overlap (startMs endMs existingStart existingEnd : Z)
| CouldNotFindMarker
| QueryManagerError (code : Z)
| TypeError.

(** Calls made to the marker cache and to the legacy breakdown, in order. *)
Inductive CacheCall : Type :=
| LegacyUpdate (marker : MarkerRow) (oldMarkerCount delta : Z)
| AddMarkerToCache (marker : MarkerRow)
| RemoveMarkerFromCache (markerId : Z).

(** Entries recorded by the backup manager, in order. *)
Inductive Action : Type :=
| RecordAdd (marker : MarkerRow)
| RecordEdit (marker : MarkerRow) (oldStart oldEnd : Z)
| RecordDelete (marker : MarkerRow).

(** What a command can change: the rows of the library database, the
    cache (as the calls it received) and the action log. *)
Record State : Type := mkState {
  taggings : list MarkerRow;
  cacheCalls : list CacheCall;
  actions : list Action
}.

(** A command ends with an error or a value, and leaves a state. *)
Definition Outcome (A : Type) : Type := (ServerError + A) * State.

(** [#checkMarkerBounds(startMs, endMs)] *)
Definition checkMarkerBounds (startMs endMs : Z) : ServerError + unit :=
  if startMs >=? endMs then inl (StartNotLessThanEnd startMs endMs)
  else if startMs <? 0 then inl (NegativeStart startMs)
  else inr tt.


(** The error thrown by [editMarker] for an overlap. *)
Definition isOverlap {A : Type} (r : ServerError + A) : bool :=
  match r with
  | inl (Overlap _ _ _ _) => true
  | _ => false
  end.

(** The test of the loop of [editMarker]:
    [marker.end >= startMs && marker.start <= endMs && marker.id != markerId]. *)
Definition overlapsOther (markerId startMs endMs : Z) (marker : MarkerRow) : bool :=
  (end_ marker >=? startMs) && (start marker <=? endMs) && negb (id marker =? markerId).

(** The [for] loop of [editMarker] over the sorted markers: throws at the
    first marker that overlaps the new bounds and is not the edited one,
    records the edited marker's position, and tags each marker with its
    [newIndex]. *)
Fixpoint checkOverlap (markerId startMs endMs : Z) (index newIndex : Z)
    (allMarkers : list MarkerRow) : ServerError + (Z * list (MarkerRow * Z)) :=
  match allMarkers with
  | [] => inr (newIndex, [])
  | marker :: rest =>
      if overlapsOther markerId startMs endMs marker
      then inl (Overlap startMs endMs (start marker) (end_ marker))
      else
        match checkOverlap markerId startMs endMs (index + 1)
                (if id marker =? markerId then index else newIndex) rest with
        | inl e => inl e
        | inr (n, tagged) => inr (n, (marker, index) :: tagged)
        end
  end.

(** [allMarkers[oldIndex].start = startMs; allMarkers[oldIndex].end = endMs]:
    a position outside the array reads [undefined], and the assignment
    throws. *)
Definition assignBounds (allMarkers : list MarkerRow) (oldIndex startMs endMs : Z)
  : option (list MarkerRow) :=
  if oldIndex <? 0 then None
  else match allMarkers !! Z.to_nat oldIndex with
       | Some m => Some (<[Z.to_nat oldIndex := setInterval m startMs endMs]> allMarkers)
       | None => None
       end.

(** The second loop of [editMarker]: one [updateMarkerIndex] per marker
    whose index changed. *)
Definition adjustIndexes (tagged : list (MarkerRow * Z)) (rows : list MarkerRow)
  : list MarkerRow :=
  fold_left (fun db mk => if index (fst mk) =? snd mk then db
                          else updateMarkerIndex db (id (fst mk)) (snd mk))
            tagged rows.

(** [async editMarker(markerId, startMs, endMs, userCreated)] *)
Definition editMarker (st : State) (markerId startMs endMs userCreated : Z)
  : Outcome MarkerRow :=
  match checkMarkerBounds startMs endMs with
  | inl e => (inl e, st)
  | inr _ =>
    match getSingleMarker (taggings st) markerId with
    | None => (inl MarkerNotFound, st)
    | Some currentMarker =>
      let oldIndex := index currentMarker in
      let allMarkers := getEpisodeMarkers (taggings st) (episode_id currentMarker) in
      match assignBounds allMarkers oldIndex startMs endMs with
      | None => (inl TypeError, st)
      | Some edited =>
        match checkOverlap markerId startMs endMs 0 0 (sort_by start edited) with
        | inl e => (inl e, st)
        | inr (newIndex, tagged) =>
          let rows := editMarkerRow (taggings st) markerId newIndex startMs endMs in
          let newMarker := setInterval currentMarker startMs endMs in
          (inr newMarker,
           mkState (adjustIndexes tagged rows)
                   (cacheCalls st)
                   (actions st ++ [RecordEdit newMarker (start currentMarker)
                                              (end_ currentMarker)]))
        end
      end
    end
  end.

(** The first loop of [deleteMarker]: the index of the marker to delete,
    0 when it is not among the parent's markers. *)
Definition findDeleteIndex (markerId : Z) (allMarkers : list MarkerRow) : Z :=
  fold_left (fun deleteIndex marker =>
               if id marker =? markerId then index marker else deleteIndex)
            allMarkers 0.

(** The re-indexing loop of [deleteMarker]. *)
Definition closeGap (deleteIndex : Z) (allMarkers rows : list MarkerRow) : list MarkerRow :=
  fold_left (fun db marker =>
               if index marker >? deleteIndex
               then updateMarkerIndex db (id marker) (index marker - 1)
               else db)
            allMarkers rows.

(** The effect of the re-indexing loop on a single row: each marker of the
    parent with an index after the deleted one sets the index of the row
    with its id. *)
Definition closeGapRow (deleteIndex : Z) (allMarkers : list MarkerRow) (row : MarkerRow)
  : MarkerRow :=
  fold_left (fun cur marker =>
               if index marker >? deleteIndex
               then (if id cur =? id marker then setIndex cur (index marker - 1) else cur)
               else cur)
            allMarkers row.

(** The index of a sibling after a delete: one less when it was after the
    deleted index. *)
Definition indexAfterDelete (deleteIndex i : Z) : Z :=
  if i >? deleteIndex then i - 1 else i.

(** [async deleteMarker(markerId)] *)
Definition deleteMarker (st : State) (markerId : Z) : Outcome MarkerRow :=
  match getSingleMarker (taggings st) markerId with
  | None => (inl CouldNotFindMarker, st)
  | Some markerToDelete =>
    let allMarkers := getEpisodeMarkers (taggings st) (episode_id markerToDelete) in
    let deleteIndex := findDeleteIndex markerId allMarkers in
    let rows := deleteMarkerRow (taggings st) markerId in
    let rows' := if deleteIndex <? Z.of_nat (length allMarkers) - 1
                 then closeGap deleteIndex allMarkers rows
                 else rows in
    (inr markerToDelete,
     mkState rows'
             (cacheCalls st ++ [RemoveMarkerFromCache markerId;
                                LegacyUpdate markerToDelete
                                             (Z.of_nat (length allMarkers)) (-1)])
             (actions st ++ [RecordDelete markerToDelete]))
  end.

(** The position of the first marker with the given id in a list. *)
Fixpoint positionOf (markerId : Z) (l : list MarkerRow) : Z :=
  match l with
  | [] => 0
  | marker :: rest => if id marker =? markerId then 0 else 1 + positionOf markerId rest
  end.

(** The markers of the loop of [editMarker] with the [newIndex] each one
    gets: its position, counted from [index]. *)
Fixpoint tagFrom (index : Z) (allMarkers : list MarkerRow) : list (MarkerRow * Z) :=
  match allMarkers with
  | [] => []
  | marker :: rest => (marker, index) :: tagFrom (index + 1) rest
  end.

(** The effect of the second loop of [editMarker] on a single row: each
    marker whose index changed sets the index of the row with its id. *)
Definition adjustRow (tagged : list (MarkerRow * Z)) (row : MarkerRow) : MarkerRow :=
  fold_left (fun cur mk =>
               if index (fst mk) =? snd mk then cur
               else if id cur =? id (fst mk) then setIndex cur (snd mk) else cur)
            tagged row.

(** The marker of the edit with its new bounds, every other marker as it
    is. *)
Definition withBounds (markerId startMs endMs : Z) (marker : MarkerRow) : MarkerRow :=
  if id marker =? markerId then setInterval marker startMs endMs else marker.

Section AddMarker.

(** [QueryManager.addMarker] is not part of the sources at hand: it is a
    parameter here.  It either rejects the request or answers with the new
    rows of the database, all markers of the parent and the new marker. *)
Variable QueryManager_addMarker :
  list MarkerRow -> Z -> Z -> Z -> Z + (list MarkerRow * list MarkerRow * MarkerRow).


End AddMarker.

End CoreCommands.

(** ** Client: the bulk shift table *)

Module BulkShift.

(** The fields of [SerializedMarkerData] and [SerializedEpisodeData] that
    the shift table reads. *)
Record SerializedMarkerData : Type := mkMarker {
  id : Z;
  parentId : Z;
  start : Z;
  end_ : Z
}.

Record SerializedEpisodeData : Type := mkEpisode {
  metadataId : Z;
  duration : Z
}.

(** [x || 0] on a number: [NaN] (an unparsable time input) becomes 0. *)
Definition orZero (x : JS.num) : Z :=
  match x with
  | JS.Num z => z
  | JS.NaN => 0
  end.

(** What [update()] leaves in a row: the two flags and the clamped times
    shown in the "New Start" and "New End" cells. *)
Record RowStatus : Type := mkStatus {
  isError : bool;
  isWarn : bool;
  newStart : Z;
  newEnd : Z
}.

(** A row of the table: its marker, the episode of the marker, whether the
    row is checked ([enabled]) and the status of the last [update()]. *)
Record BulkShiftRow : Type := mkShiftRow {
  marker : SerializedMarkerData;
  episode : SerializedEpisodeData;
  enabled : bool;
  status : RowStatus
}.

(** [BulkShiftRow.update()]: the classification and the new times.  The
    styling of the cells is left out. *)
Definition update (enabled : bool) (marker : SerializedMarkerData)
    (episode : SerializedEpisodeData) (shiftStartValue shiftEndValue : JS.num) : RowStatus :=
  let startShift := orZero shiftStartValue in
  let endShift := orZero shiftEndValue in
  let start := start marker + startShift in
  let end' := end_ marker + endShift in
  let maxDuration := duration episode in
  let newStart := Z.max 0 (Z.min start maxDuration) in
  let newEnd := Z.max 0 (Z.min end' maxDuration) in
  if enabled then
    if (end' <? 0) || (start >? maxDuration) || (end' <=? start)
    then mkStatus true false newStart newEnd
    else mkStatus false ((start <? 0) || (end' >? maxDuration)) newStart newEnd
  else mkStatus false false newStart newEnd.

(** [row.update()] on a row of the table. *)
Definition updateRow (shiftStartValue shiftEndValue : JS.num) (row : BulkShiftRow)
  : BulkShiftRow :=
  mkShiftRow (marker row) (episode row) (enabled row)
             (update (enabled row) (marker row) (episode row)
                     shiftStartValue shiftEndValue).

Record IgnoreInfo : Type := mkIgnoreInfo {
  ignored : list Z;
  hasCutoff : bool;
  hasError : bool
}.

(** [BulkShiftOverlay.#getIgnored()] with the table showing.  The ids of
    the unchecked rows come from [BulkActionTable.getIgnored()], which is
    not part of the sources at hand and is passed in; the ids of the rows
    in error are pushed after them, then the markers without a row. *)
Definition getIgnored (tableIgnored : list Z) (rows : list BulkShiftRow)
    (markersWithoutRows : list Z) : IgnoreInfo :=
  let errors := List.filter (fun row => isError (status row)) rows in
  mkIgnoreInfo
    (tableIgnored ++ List.map (fun row => id (marker row)) errors ++ markersWithoutRows)
    (existsb (fun row => isWarn (status row)) rows)
    (existsb (fun row => isError (status row)) rows).

End BulkShift.

(** ** Server, older version: the per-section marker breakdown cache *)

Module LegacyCache.

Import MarkerBreakdown.

(** What [updateMarkerBreakdownCache] does to the buckets of one section:
    a missing bucket for [oldMarkerCount] is first set to 1, then
    [buckets[oldMarkerCount] -= 1]; a missing bucket for the new count is
    set to 0, then [buckets[newMarkerCount] += 1]. *)
Definition updateBuckets (oldMarkerCount delta : Z) (buckets : counts) : counts :=
  let buckets :=
    match buckets !! oldMarkerCount with
    | Some _ => buckets
    | None => <[oldMarkerCount := JS.Num 1]> buckets
    end in
  let buckets := decrement oldMarkerCount buckets in
  let newMarkerCount := oldMarkerCount + delta in
  let buckets :=
    match buckets !! newMarkerCount with
    | Some _ => buckets
    | None => <[newMarkerCount := JS.Num 0]> buckets
    end in
  increment newMarkerCount buckets.

(** [updateMarkerBreakdownCache(marker, oldMarkerCount, delta)], with
    [markerBreakdownCache] passed through and [section] the [sectionId]
    of the marker. *)
Definition updateMarkerBreakdownCache (markerBreakdownCache : gmap Z counts)
    (section oldMarkerCount delta : Z) : gmap Z counts :=
  match markerBreakdownCache !! section with
  | None => markerBreakdownCache
  | Some buckets =>
      <[section := updateBuckets oldMarkerCount delta buckets]> markerBreakdownCache
  end.

End LegacyCache.

(** ** Server, older version: the markers of the requested ids *)

Module LegacyQueries.

Import PlexDb.

(** [keys.forEach(key => { markers[key] = []; })] *)
Definition emptyLists (keys : list Z) : gmap Z (list MarkerRow) :=
  fold_left (fun markers key => <[key := []]> markers) keys ∅.

(** [markers[row.episode_id].push(new MarkerData(row))]; without a list
    for the episode of the row the [push] throws ([None]). *)
Definition pushRow (markers : option (gmap Z (list MarkerRow))) (row : MarkerRow)
  : option (gmap Z (list MarkerRow)) :=
  match markers with
  | None => None
  | Some markers =>
      match markers !! episode_id row with
      | None => None
      | Some list => Some (<[episode_id row := list ++ [row]]> markers)
      end
  end.

(** [queryIds(keys, res)], given the rows that
    [QueryManager.getMarkersForEpisodes] hands to the callback: the
    object sent with [jsonSuccess]. *)
Definition queryIds (keys : list Z) (rows : list MarkerRow)
  : option (gmap Z (list MarkerRow)) :=
  fold_left pushRow rows (Some (emptyLists keys)).

End LegacyQueries.

(** ** Client: the result rows of a movie search *)

Module SearchResults.

Section Search.

(** The search results, and [FilterSettings.shouldFilter] applied to the
    marker breakdown of a result; the filter settings are not part of the
    sources at hand. *)
Context {Movie : Type}.
Variable shouldFilter : Movie -> bool.

Record LoopState : Type := mkLoop {
  filteredResults : list Movie;
  nonFiltered : Z;
  nextFilterIndex : Z
}.

(** The [for (const movie of searchResults)] loop of [#searchMovies],
    with its [break] when [nonFiltered === rowsLimit]. *)
Fixpoint searchLoop (rowsLimit : Z) (searchResults : list Movie) (st : LoopState)
  : LoopState :=
  match searchResults with
  | [] => st
  | movie :: rest =>
      let nextFilterIndex := nextFilterIndex st + 1 in
      let st :=
        if negb (shouldFilter movie)
        then mkLoop (filteredResults st ++ [movie]) (nonFiltered st + 1) nextFilterIndex
        else mkLoop (filteredResults st) (nonFiltered st) nextFilterIndex in
      if nonFiltered st =? rowsLimit then st else searchLoop rowsLimit rest st
  end.

(** The [loadTheRest] handler: the rows it appends. *)
Definition loadTheRest (searchResults : list Movie) (nextFilterIndex : Z) : list Movie :=
  List.filter (fun movie => negb (shouldFilter movie))
              (drop (Z.to_nat nextFilterIndex) searchResults).

(** What [#searchMovies] puts on the page: the rows of the first pass,
    whether the "no results because of the filter" row is shown, and, when
    the "load more" row is shown, the rows a click on it appends. *)
Record SearchView : Type := mkView {
  rows : list Movie;
  noResultsBecauseOfFilter : bool;
  loadMore : option (list Movie)
}.

Definition rowsLimit : Z := 250.

(** [#searchMovies()]; [None] is the early return with "No results
    found." for an empty result list. *)
Definition searchMovies (searchResults : list Movie) : option SearchView :=
  match searchResults with
  | [] => None
  | _ =>
      let st := searchLoop rowsLimit searchResults (mkLoop [] 0 0) in
      Some (mkView
              (filteredResults st)
              (nonFiltered st =? 0)
              (if Z.of_nat (length searchResults) >? nextFilterIndex st
               then Some (loadTheRest searchResults (nextFilterIndex st))
               else None))
  end.

(** [#searchShows()] has no limit: a row for every result that is not
    filtered. *)
Definition searchShows (searchResults : list Movie) : option (list Movie * bool) :=
  match searchResults with
  | [] => None
  | _ =>
      let filteredResults :=
        List.filter (fun show => negb (shouldFilter show)) searchResults in
      Some (filteredResults, (length filteredResults =? 0)%nat)
  end.

End Search.

End SearchResults.

(** ** Client: the customize table of the bulk shift overlay *)

Module ShiftTable.

(** The [classList] of a table cell: the class names on it, each once. *)
Definition classList : Type := list string.

Definition classContains (node : classList) (name : string) : bool :=
  existsb (String.eqb name) node.

Definition classAdd (node : classList) (name : string) : classList :=
  if classContains node name then node else node ++ [name].

Definition classRemove (node : classList) (name : string) : classList :=
  List.filter (fun token => negb (String.eqb token name)) node.

Module BulkShiftClasses.

Definition classNames : list string :=
  ["bulkActionOn"; "bulkActionOff"; "bulkActionSemi"].

(** [BulkShiftClasses.Type] *)
Definition Reset : Z := -1.
Definition On : Z := 0.
Definition Error : Z := 1.
Definition Warn : Z := 2.

(** [names[idx]] as a class token; out of range it is [undefined], which
    [classList.contains] reads as the token "undefined". *)
Definition nameAt (idx : Z) : string :=
  if idx <? 0 then "undefined"
  else default "undefined" (classNames !! Z.to_nat idx).

(** [for (let i = 0; i < names.length; ++i)
       i == idx ? node.classList.add(names[i]) : node.classList.remove(names[i])] *)
Fixpoint setLoop (idx i : Z) (names : list string) (node : classList) : classList :=
  match names with
  | [] => node
  | name :: rest =>
      setLoop idx (i + 1) rest
              (if i =? idx then classAdd node name else classRemove node name)
  end.

(** [BulkShiftClasses.set(node, idx, active)] *)
Definition set (node : classList) (idx : Z) (active : bool) : classList :=
  let node := if active then classRemove node "bulkActionInactive"
              else classAdd node "bulkActionInactive" in
  if idx =? -1
  then classRemove (classRemove (classRemove node "bulkActionOn") "bulkActionOff")
                   "bulkActionSemi"
  else if classContains node (nameAt idx) then node
  else setLoop idx 0 classNames node.

End BulkShiftClasses.

(** A marker of [shiftResult.allMarkers], with its type. *)
Record ShiftMarker : Type := mkShiftMarker {
  markerData : BulkShift.SerializedMarkerData;
  markerType : string
}.

(** The arguments of [new BulkShiftRow(this, marker, eInfo, multiple)]. *)
Record NewRow : Type := mkNewRow {
  rowMarker : ShiftMarker;
  rowEpisode : BulkShift.SerializedEpisodeData;
  rowLinked : bool
}.

(** What [#showCustomizeTable] builds: the rows of the table and
    [#markersWithoutRows]. *)
Record TableBuild : Type := mkBuild {
  newRows : list NewRow;
  withoutRows : list Z
}.

(** [markerTypeSelected == 'both' || marker.markerType == markerTypeSelected] *)
Definition isSelected (markerTypeSelected : string) (marker : ShiftMarker) : bool :=
  String.eqb markerTypeSelected "both" || String.eqb (markerType marker) markerTypeSelected.

(** A selected marker is pushed on [checkGroup], another one has its id
    pushed on [#markersWithoutRows]. *)
Definition consider (markerTypeSelected : string) (marker : ShiftMarker)
    (checkGroup : list ShiftMarker) (without : list Z) : list ShiftMarker * list Z :=
  if isSelected markerTypeSelected marker
  then (checkGroup ++ [marker], without)
  else (checkGroup, without ++ [BulkShift.id (markerData marker)]).

(** The rows of one [checkGroup].  A row reads its episode in [build()]
    and [update()]: with [eInfo] undefined a non-empty group throws
    ([None]). *)
Definition addRows (eInfo : option BulkShift.SerializedEpisodeData)
    (checkGroup : list ShiftMarker) (rows : list NewRow) (without : list Z)
  : option TableBuild :=
  match checkGroup with
  | [] => Some (mkBuild rows without)
  | _ =>
      match eInfo with
      | None => None
      | Some e =>
          let multiple := (1 <? length checkGroup)%nat in
          Some (mkBuild (rows ++ List.map (fun marker => mkNewRow marker e multiple)
                                          checkGroup)
                        without)
      end
  end.

(** The loops of [#showCustomizeTable] over [sortedMarkers]; the sorting
    ([BulkActionCommon.sortMarkerList]) is not part of the sources at
    hand, the sorted list is the argument.  The inner [fix] is the
    [while] that collects the following markers of the same episode;
    reading [eInfo.metadataId] of an undefined [eInfo] throws ([None]). *)
Fixpoint tableLoop (markerTypeSelected : string)
    (episodeData : gmap Z BulkShift.SerializedEpisodeData)
    (sortedMarkers : list ShiftMarker) (built : TableBuild) {struct sortedMarkers}
  : option TableBuild :=
  match sortedMarkers with
  | [] => Some built
  | marker :: rest =>
      let eInfo := episodeData !! BulkShift.parentId (markerData marker) in
      (fix while (rest : list ShiftMarker) (checkGroup : list ShiftMarker)
           (without : list Z) {struct rest} : option TableBuild :=
         match rest with
         | [] => addRows eInfo checkGroup (newRows built) without
         | next :: rest' =>
             match eInfo with
             | None => None
             | Some e =>
                 if BulkShift.parentId (markerData next) =? BulkShift.metadataId e
                 then while rest'
                            (fst (consider markerTypeSelected next checkGroup without))
                            (snd (consider markerTypeSelected next checkGroup without))
                 else
                   match addRows eInfo checkGroup (newRows built) without with
                   | None => None
                   | Some built' =>
                       tableLoop markerTypeSelected episodeData rest built'
                   end
             end
         end)
        rest
        (fst (consider markerTypeSelected marker [] (withoutRows built)))
        (snd (consider markerTypeSelected marker [] (withoutRows built)))
  end.

(** The [while] of [tableLoop], on its own. *)
Fixpoint whileLinked (markerTypeSelected : string)
    (episodeData : gmap Z BulkShift.SerializedEpisodeData)
    (eInfo : option BulkShift.SerializedEpisodeData) (rows : list NewRow)
    (rest : list ShiftMarker) (checkGroup : list ShiftMarker) (without : list Z)
  : option TableBuild :=
  match rest with
  | [] => addRows eInfo checkGroup rows without
  | next :: rest' =>
      match eInfo with
      | None => None
      | Some e =>
          if BulkShift.parentId (markerData next) =? BulkShift.metadataId e
          then whileLinked markerTypeSelected episodeData eInfo rows rest'
                 (fst (consider markerTypeSelected next checkGroup without))
                 (snd (consider markerTypeSelected next checkGroup without))
          else
            match addRows eInfo checkGroup rows without with
            | None => None
            | Some built' => tableLoop markerTypeSelected episodeData rest built'
            end
      end
  end.

(** [#showCustomizeTable(shiftResult)]: [#markersWithoutRows.length = 0],
    then the loops. *)
Definition showCustomizeTable (markerTypeSelected : string)
    (episodeData : gmap Z BulkShift.SerializedEpisodeData)
    (sortedMarkers : list ShiftMarker) : option TableBuild :=
  tableLoop markerTypeSelected episodeData sortedMarkers (mkBuild [] []).

(** A row of the table as [update()] sees it: the marker, the episode,
    the checkbox and the flags of [BulkShift.BulkShiftRow]; whether the
    row is linked; and the classes of [row.children[1]], the episode
    cell. *)
Record TableRow : Type := mkTableRow {
  shiftRow : BulkShift.BulkShiftRow;
  linked : bool;
  episodeCell : classList
}.

Definition episodeId (row : TableRow) : Z :=
  BulkShift.parentId (BulkShift.marker (shiftRow row)).

Definition markerId (row : TableRow) : Z :=
  BulkShift.id (BulkShift.marker (shiftRow row)).

Definition enabled (row : TableRow) : bool := BulkShift.enabled (shiftRow row).

Definition isCutoff (row : TableRow) : bool :=
  BulkShift.isWarn (BulkShift.status (shiftRow row)).

Definition isError (row : TableRow) : bool :=
  BulkShift.isError (BulkShift.status (shiftRow row)).

(** [isUnresolved()] *)
Definition isUnresolved (row : TableRow) : bool :=
  classContains (episodeCell row) "bulkActionSemi".

(** [BulkShiftClasses.set(row.children[1], idx, true)] *)
Definition setEpisodeCell (idx : Z) (row : TableRow) : TableRow :=
  mkTableRow (shiftRow row) (linked row)
             (BulkShiftClasses.set (episodeCell row) idx true).

(** [BulkShiftRow.update()] of the row at position [this] of the table:
    the flags and times of [BulkShift.update], then the class of the
    episode cell, of this row or, for a linked row, of all rows of the
    episode.  The row returns before that when it is in error.  The
    styling of the time cells is left out. *)
Definition update (shiftStartValue shiftEndValue : JS.num) (this : nat)
    (rows : list TableRow) : list TableRow :=
  match rows !! this with
  | None => rows
  | Some row =>
      let row := mkTableRow (BulkShift.updateRow shiftStartValue shiftEndValue
                                                 (shiftRow row))
                            (linked row) (episodeCell row) in
      let rows := <[this := row]> rows in
      if isError row then rows
      else if negb (linked row)
      then <[this := setEpisodeCell (if enabled row then BulkShiftClasses.On
                                     else BulkShiftClasses.Error) row]> rows
      else
        let anyChecked :=
          enabled row ||
          existsb (fun other => (episodeId other =? episodeId row) && enabled other)
                  rows in
        List.map (fun linkedRow =>
                    if episodeId linkedRow =? episodeId row
                    then setEpisodeCell
                           (if anyChecked
                            then (if enabled linkedRow then BulkShiftClasses.On
                                  else BulkShiftClasses.Error)
                            else BulkShiftClasses.Warn)
                           linkedRow
                    else linkedRow)
                 rows
  end.

(** [#adjustNewTimes()]: [rows().forEach(row => row.update())] *)
Definition adjustNewTimes (shiftStartValue shiftEndValue : JS.num)
    (rows : list TableRow) : list TableRow :=
  fold_left (fun rows this => update shiftStartValue shiftEndValue this rows)
            (List.seq 0 (length rows)) rows.

(** The state of the overlay that [#tryApply] reads. *)
Record Overlay : Type := mkOverlay {
  mediaItem : Z;
  startShiftMs : JS.num;
  endShiftMs : JS.num;
  separateShift : bool;
  table : option (list TableRow);
  markersWithoutRows : list Z
}.

Definition shiftStartValue (o : Overlay) : JS.num := startShiftMs o.

Definition shiftEndValue (o : Overlay) : JS.num :=
  if separateShift o then endShiftMs o else startShiftMs o.

Record IgnoreInfo : Type := mkIgnoreInfo {
  ignored : list Z;
  tableVisible : bool;
  hasUnresolved : bool;
  hasCutoff : bool;
  hasError : bool
}.

Definition isNaN (x : JS.num) : bool :=
  match x with
  | JS.NaN => true
  | JS.Num _ => false
  end.

(** [!x] on a number *)
Definition isFalsy (x : JS.num) : bool :=
  match x with
  | JS.NaN => true
  | JS.Num z => z =? 0
  end.

(** What [#tryApply] does next. *)
Inductive Applied : Type :=
| InvalidOffset
| WarnAboutUnresolvedMarkers (ignoreInfo : IgnoreInfo)
| ShowMessage (messageType : string) (addForceButton : bool)
| ServerShift (metadataId : Z) (startShift endShift : JS.num) (force : bool)
              (ignored : list Z).

Section Overlay.

(** [BulkActionTable.getIgnored()], the ids of the unchecked rows; the
    table class is not part of the sources at hand. *)
Variable tableIgnored : list TableRow -> list Z.

(** [#getIgnored()] *)
Definition getIgnored (o : Overlay) : IgnoreInfo :=
  match table o with
  | None => mkIgnoreInfo [] false false false false
  | Some rows =>
      let info := BulkShift.getIgnored (tableIgnored rows) (List.map shiftRow rows)
                                       (markersWithoutRows o) in
      mkIgnoreInfo (BulkShift.ignored info) true (existsb isUnresolved rows)
                   (BulkShift.hasCutoff info) (BulkShift.hasError info)
  end.

(** [#tryApply()] up to the call of the server. *)
Definition tryApply (o : Overlay) : Applied :=
  let startShift := shiftStartValue o in
  let endShift := shiftEndValue o in
  if isNaN startShift || isNaN endShift || (isFalsy startShift && isFalsy endShift)
  then InvalidOffset
  else
    let ignoreInfo := getIgnored o in
    if hasUnresolved ignoreInfo then WarnAboutUnresolvedMarkers ignoreInfo
    else if hasCutoff ignoreInfo
    then ShowMessage (if hasError ignoreInfo then "cutoff" else "cutoffPlus") true
    else if hasError ignoreInfo then ShowMessage "error" true
    else ServerShift (mediaItem o) startShift endShift false (ignored ignoreInfo).

End Overlay.

(** What [#warnAboutUnresolvedMarkers] does: a message, or the red flash
    of the apply button. *)
Inductive Warned : Type :=
| WarnMessage (messageType : string) (addForceButton : bool)
| FlashButton.

(** [#getMessageType()] gives [false] without a message node, and the
    [resolveMessage] attribute otherwise: [None] stands for [false] and
    for a missing attribute.  As a condition the value is true for a
    string that is not empty. *)
Definition isTruthy (existingMessage : option string) : bool :=
  match existingMessage with
  | Some messageType => negb (String.eqb messageType "")
  | None => false
  end.

(** [existingMessage == messageType] *)
Definition messageIs (existingMessage : option string) (messageType : string) : bool :=
  match existingMessage with
  | Some existing => String.eqb existing messageType
  | None => false
  end.

(** [#warnAboutUnresolvedMarkers(ignoreInfo)], given the type of the
    message that is showing. *)
Definition warnAboutUnresolvedMarkers (existingMessage : option string)
    (ignoreInfo : IgnoreInfo) : Warned :=
  if isTruthy existingMessage && negb (messageIs existingMessage "unresolvedPlus")
     && (hasCutoff ignoreInfo || hasCutoff ignoreInfo)
  then WarnMessage "unresolvedPlus" true
  else if isTruthy existingMessage && negb (messageIs existingMessage "unresolvedAgain")
  then WarnMessage "unresolvedAgain" true
  else if messageIs existingMessage "unresolvedAgain"
          || messageIs existingMessage "unresolvedPlus"
  then FlashButton
  else WarnMessage "unresolved" false.

(** The type of the message that is showing afterwards: [#showMessage]
    puts [messageType] in the [resolveMessage] attribute. *)
Definition messageAfter (existingMessage : option string) (warned : Warned)
  : option string :=
  match warned with
  | WarnMessage messageType _ => Some messageType
  | FlashButton => existingMessage
  end.

End ShiftTable.

(** ** The mutation engine, from the specification

    The server code of the bulk shift and of the typed edit is not part of
    the sources at hand.  The definitions of this module follow the
    specification's sections 3, 4.A, 4.D and 4.E. *)

Module Engine.

Import PlexDb.

(** Modelled from the spec: the types of media items (the item types of
    [PlexTypes] are missing from the sources). *)
Inductive ItemType : Type :=
| Show | Season | Episode | Movie | Artist | Album | Track.

(** Modelled from the spec: a media item (the library's items are missing
    from the sources) with its type, its parent and its duration. *)
Record Item : Type := mkItem {
  item_id : Z;
  item_type : ItemType;
  item_parent : option Z;
  duration : Z
}.

(** Modelled from the spec: the error kinds of section 7. *)
Inductive ErrorKind : Type :=
| BadRequest | BadTarget | NotFound | Overlap | Conflict | Overflow
| FeatureDisabled | Unavailable | Internal.

(** Modelled from the spec: the entries of the action log that the engine
    appends. *)
Inductive LogEntry : Type :=
| LogEdit (marker : MarkerRow) (oldStart oldEnd : Z).

(** Modelled from the spec: a [cache.delta] call of the mutation
    protocol. *)
Record CacheDelta : Type := mkDelta {
  delta_parent : Z;
  oldIntros : Z;
  oldCredits : Z;
  newIntros : Z;
  newCredits : Z
}.

(** Modelled from the spec: the service value, i.e. the library database
    (items and marker rows), the action log and the cache calls. *)
Record Service : Type := mkService {
  items : list Item;
  markers : list MarkerRow;
  log : list LogEntry;
  cache : list CacheDelta
}.

(** Modelled from the spec: an operation produces a result or an error
    kind, and leaves a service value. *)
Definition EngineOutcome (A : Type) : Type := (ErrorKind + A) * Service.

(** Modelled from the spec: [GetItem(id)]. *)
Definition GetItem (its : list Item) (itemId : Z) : option Item :=
  List.find (fun it => item_id it =? itemId) its.

(** Modelled from the spec: whether an item lies in the subtree of a root
    (the item itself, or an item whose parent does).  The walk up the
    parent chain is bounded by the number of items. *)
Fixpoint inSubtree (its : list Item) (fuel : nat) (rootId itemId : Z) : bool :=
  (itemId =? rootId) ||
  match fuel with
  | O => false
  | S fuel' =>
      match GetItem its itemId with
      | Some it =>
          match item_parent it with
          | Some p => inSubtree its fuel' rootId p
          | None => false
          end
      | None => false
      end
  end.

(** Modelled from the spec: [ListMarkersForSubtree(rootId)]. *)
Definition ListMarkersForSubtree (svc : Service) (rootId : Z) : list MarkerRow :=
  List.filter (fun m => inSubtree (items svc) (length (items svc)) rootId (episode_id m))
              (markers svc).

(** Modelled from the spec: [duration(parent)], read through [GetItem];
    an unknown parent has no playable time. *)
Definition durationOf (its : list Item) (parent : Z) : Z :=
  match GetItem its parent with
  | Some it => duration it
  | None => 0
  end.

(** Modelled from the spec: the classification of a candidate marker of a
    shift, from its post-shift bounds and the duration of its parent. *)
Inductive ShiftClass : Type := Error | Cutoff | Clean.

Definition classify (start' end' dur : Z) : ShiftClass :=
  if (end' <=? 0) || (start' >=? dur) || (end' <=? start') then Error
  else if (start' <? 0) || (end' >? dur) then Cutoff
  else Clean.

(** Modelled from the spec: whether a class is Error. *)
Definition isErrorClass (c : ShiftClass) : bool :=
  match c with
  | Error => true
  | _ => false
  end.

(** Modelled from the spec: the class of a marker under the deltas of a
    shift, with [start' = start + dStart] and [end' = end + dEnd]. *)
Definition classifyMarker (its : list Item) (dStart dEnd : Z) (m : MarkerRow) : ShiftClass :=
  classify (start m + dStart) (end_ m + dEnd) (durationOf its (episode_id m)).

(** Modelled from the spec: the clamp of a shifted marker,
    [max(0, start'), min(duration, end')]. *)
Definition shiftMarker (its : list Item) (dStart dEnd : Z) (m : MarkerRow) : MarkerRow :=
  setInterval m (Z.max 0 (start m + dStart))
                (Z.min (durationOf its (episode_id m)) (end_ m + dEnd)).

(** Modelled from the spec: the rank of a marker, i.e. the position of
    the marker with the given id in a list. *)
Fixpoint rankOf (markerId : Z) (l : list MarkerRow) : Z :=
  match l with
  | [] => 0
  | m :: l' => if id m =? markerId then 0 else 1 + rankOf markerId l'
  end.

(** Modelled from the spec: the index of a marker is its rank among the
    markers of its parent sorted by [start]. *)
Definition reindex (rows : list MarkerRow) : list MarkerRow :=
  List.map (fun m => setIndex m (rankOf (id m) (getEpisodeMarkers rows (episode_id m)))) rows.

(** Modelled from the spec: the result of a shift,
    [{applied, conflict, overflow, allMarkers}]. *)
Record ShiftResult : Type := mkShiftResult {
  applied : bool;
  conflict : bool;
  overflow : bool;
  allMarkers : list MarkerRow
}.

(** Modelled from the spec: whether the id of a marker is in [ignoreIds]. *)
Definition isIgnored (ignoreIds : list Z) (m : MarkerRow) : bool :=
  existsb (fun i => i =? id m) ignoreIds.

(** Modelled from the spec: the markers that a shift retains (steps 1
    and 2), those enumerated under the root whose id is not ignored. *)
Definition retained (svc : Service) (rootId : Z) (ignoreIds : list Z) : list MarkerRow :=
  List.filter (fun m => negb (isIgnored ignoreIds m)) (ListMarkersForSubtree svc rootId).

(** Modelled from the spec: the number of markers of a parent in a list
    (step 3 groups the retained markers by parent). *)
Definition countOfParent (parent : Z) (l : list MarkerRow) : nat :=
  length (List.filter (fun m => episode_id m =? parent) l).

(** Modelled from the spec: a parent with more than one retained marker
    is a linked conflict. *)
Definition linkedConflict (l : list MarkerRow) : bool :=
  existsb (fun m => (1 <? countOfParent (episode_id m) l)%nat) l.

(** Modelled from the spec: [Shift(rootId, dStart, dEnd, force, ignoreIds)],
    steps 1 to 10 of section 4.E (the server's shift is missing from the
    sources).  The pair of deltas (0, 0) is invalid. *)
Definition Shift (svc : Service) (rootId dStart dEnd : Z) (force : bool)
    (ignoreIds : list Z) : EngineOutcome ShiftResult :=
  if (dStart =? 0) && (dEnd =? 0) then (inl BadRequest, svc)
  else
    let enumerated := ListMarkersForSubtree svc rootId in
    let kept := retained svc rootId ignoreIds in
    let anyError :=
      existsb (fun m => isErrorClass (classifyMarker (items svc) dStart dEnd m)) kept in
    if linkedConflict kept && negb force
    then (inr (mkShiftResult false true anyError enumerated), svc)
    else if anyError && negb force
    then (inr (mkShiftResult false false true enumerated), svc)
    else
      let toShift :=
        List.filter (fun m => negb (isErrorClass (classifyMarker (items svc) dStart dEnd m)))
                    kept in
      let moved :=
        List.map (fun m => if existsb (fun s => id s =? id m) toShift
                           then shiftMarker (items svc) dStart dEnd m
                           else m) (markers svc) in
      let rows := reindex moved in
      let shifted := List.filter (fun m => existsb (fun s => id s =? id m) toShift) rows in
      (inr (mkShiftResult true false false shifted),
       mkService (items svc) rows
                 (log svc ++ List.map (fun m => LogEdit (shiftMarker (items svc) dStart dEnd m)
                                                        (start m) (end_ m)) toShift)
                 (cache svc)).

(** Modelled from the spec: two markers intersect unless one ends at or
    before the start of the other (touching endpoints are allowed). *)
Definition intersects (a b : MarkerRow) : bool :=
  negb ((end_ a <=? start b) || (end_ b <=? start a)).

(** Modelled from the spec: whether any two distinct markers of a list
    intersect. *)
Fixpoint anyTwoIntersect (l : list MarkerRow) : bool :=
  match l with
  | [] => false
  | m :: l' => existsb (intersects m) l' || anyTwoIntersect l'
  end.

(** Modelled from the spec: the number of markers of a type, for the
    buckets of a [cache.delta] call. *)
Definition countOfType (type : string) (l : list MarkerRow) : Z :=
  Z.of_nat (length (List.filter (fun m => String.eqb (marker_type m) type) l)).

(** Modelled from the spec: [UpdateMarker(id, start, end, index, type, final)]. *)
Definition UpdateMarker (rows : list MarkerRow) (markerId startMs endMs newIndex : Z)
    (type : string) (final : bool) : list MarkerRow :=
  List.map (fun m => if id m =? markerId
                     then mkRow (id m) (episode_id m) newIndex startMs endMs type final
                     else m) rows.

(** Modelled from the spec: [Edit(markerId, start, end, type, final)],
    steps 1 to 9 of section 4.D (the typed edit of the server is missing
    from the sources).  A type outside the three marker types is a bad
    request. *)
Definition Edit (svc : Service) (markerId startMs endMs : Z) (type : string)
    (final : bool) : EngineOutcome MarkerRow :=
  if negb (MarkerType.supportedMarkerType type) then (inl BadRequest, svc)
  else
    match getSingleMarker (markers svc) markerId with
    | None => (inl NotFound, svc)
    | Some existing =>
      let final' := final && String.eqb type MarkerType.Credits in
      match GetItem (items svc) (episode_id existing) with
      | None => (inl NotFound, svc)
      | Some parent =>
        if negb ((0 <=? startMs) && (startMs <? endMs) && (endMs <=? duration parent))
        then (inl BadRequest, svc)
        else
          let siblings := getEpisodeMarkers (markers svc) (episode_id existing) in
          let replaced :=
            List.map (fun m => if id m =? markerId
                               then mkRow (id m) (episode_id m) (index m)
                                          startMs endMs type final'
                               else m) siblings in
          let sorted := sort_by start replaced in
          if anyTwoIntersect sorted then (inl Overlap, svc)
          else
            let newIndex := rankOf markerId sorted in
            let rows := UpdateMarker (markers svc) markerId startMs endMs newIndex
                                     type final' in
            let rows' :=
              fold_left (fun db m => if (id m =? markerId) || (index m =? rankOf (id m) sorted)
                                     then db
                                     else updateMarkerIndex db (id m) (rankOf (id m) sorted))
                        sorted rows in
            let updated := mkRow markerId (episode_id existing) newIndex
                                 startMs endMs type final' in
            let deltas :=
              if String.eqb (marker_type existing) type then []
              else [mkDelta (episode_id existing)
                            (countOfType MarkerType.Intro siblings)
                            (countOfType MarkerType.Credits siblings)
                            (countOfType MarkerType.Intro replaced)
                            (countOfType MarkerType.Credits replaced)] in
            (inr updated,
             mkService (items svc) rows'
                       (log svc ++ [LogEdit updated (start existing) (end_ existing)])
                       (cache svc ++ deltas))
      end
    end.


(** Modelled from the spec: the error kinds of section 7 as the number
    that the code of a [QueryManagerError] holds, counted in the order of
    the section, and the kind of each error of the commands.  The errors
    of the bounds check are bad requests ("[start >= end], negative
    times"). *)
Definition kindCode (k : ErrorKind) : Z :=
  match k with
  | BadRequest => 1
  | BadTarget => 2
  | NotFound => 3
  | Overlap => 4
  | Conflict => 5
  | Overflow => 6
  | FeatureDisabled => 7
  | Unavailable => 8
  | Internal => 9
  end.

Definition kindOfCode (code : Z) : ErrorKind :=
  match code with
  | 1 => BadRequest
  | 2 => BadTarget
  | 3 => NotFound
  | 4 => Overlap
  | 5 => Conflict
  | 6 => Overflow
  | 7 => FeatureDisabled
  | 8 => Unavailable
  | _ => Internal
  end.




End Engine.

(** ** The default data of the tests and the scenarios of the spec *)

Module Scenario.

Import PlexDb.

(** [Show1.Season1.Episode2.Marker1]: an intro from 15 to 45 seconds. *)
Definition Marker1 : MarkerRow := mkRow 1 4 0 15000 45000 "intro" false.

(** The second marker of the edit scenario, from 60 to 90 seconds. *)
Definition Marker2 : MarkerRow := mkRow 2 4 1 60000 90000 "intro" false.

(** [Show3.Season1.Episode2]: an intro and two credits markers. *)
Definition Show3Markers : list MarkerRow :=
  [mkRow 3 14 0 15000 45000 "intro" false;
   mkRow 4 14 1 300000 345000 "credits" false;
   mkRow 5 14 2 360000 370000 "credits" true].

(** A parent with the two markers of the edit scenario. *)
Definition twoMarkers : CoreCommands.State :=
  CoreCommands.mkState [Marker1; Marker2] [] [].

(** The three markers of [Show3.Season1.Episode2]. *)
Definition threeMarkers : CoreCommands.State :=
  CoreCommands.mkState Show3Markers [] [].

(** The items of [Show1] and [Show3] that own the markers above; every
    episode lasts ten minutes. *)
Definition testItems : list Engine.Item :=
  [Engine.mkItem 1 Engine.Show None 0;
   Engine.mkItem 2 Engine.Season (Some 1) 0;
   Engine.mkItem 4 Engine.Episode (Some 2) 600000;
   Engine.mkItem 11 Engine.Show None 0;
   Engine.mkItem 12 Engine.Season (Some 11) 0;
   Engine.mkItem 14 Engine.Episode (Some 12) 600000].

Definition testService : Engine.Service :=
  Engine.mkService testItems (Marker1 :: Show3Markers) [] [].

End Scenario.

(** * Properties *)

(** ** The packed bucket key and the breakdown counts *)

Module BreakdownFacts.

Import MarkerBreakdown.

Lemma ToInt32_small x : - 2 ^ 31 <= x < 2 ^ 31 -> JS.ToInt32 x = x.
Proof.
  intros Hx. unfold JS.ToInt32.
  rewrite Z.mod_small by lia. lia.
Qed.

Lemma add_comm a b : JS.add a b = JS.add b a.
Proof. destruct a, b; simpl; f_equal; lia. Qed.

Lemma add_assoc a b c : JS.add (JS.add a b) c = JS.add a (JS.add b c).
Proof. destruct a, b, c; simpl; f_equal; lia. Qed.

Lemma add_zero_r a : JS.add a (JS.Num 0) = a.
Proof. destruct a; simpl; f_equal; lia. Qed.

(** The credits delta is a plain multiplication as long as the shifted
    value stays below 2^31. *)
Lemma shl_credits credits :
  0 <= credits < 2 ^ 15 -> JS.shl credits CreditsShift = credits * 2 ^ 16.
Proof.
  intros Hc. unfold JS.shl, CreditsShift.
  change (Z.land 16 31) with 16.
  rewrite (ToInt32_small credits) by lia.
  rewrite Z.shiftl_mul_pow2 by lia.
  apply ToInt32_small. lia.
Qed.

Lemma band_IntroMask key :
  0 <= key < 2 ^ 31 -> JS.band key IntroMask = key mod 2 ^ 16.
Proof.
  intros Hk. unfold JS.band, IntroMask.
  rewrite (ToInt32_small key) by lia.
  rewrite (ToInt32_small 65535) by lia.
  change 65535 with (Z.ones 16).
  apply Z.land_ones. lia.
Qed.

Lemma sar_CreditsShift key :
  0 <= key < 2 ^ 31 -> JS.sar key CreditsShift = key / 2 ^ 16.
Proof.
  intros Hk. unfold JS.sar, CreditsShift.
  change (Z.land 16 31) with 16.
  rewrite (ToInt32_small key) by lia.
  apply Z.shiftr_div_pow2. lia.
Qed.

(** C8 (as amended): for intros below 2^16 and credits below 2^15, the
    packed key is [credits * 2^16 + intros], [#ic] and [#cc] recover the
    two counts, and [markerCountFromKey] is their sum. *)
Theorem packed_key_roundtrip (intros credits : Z) :
  0 <= intros < 2 ^ 16 ->
  0 <= credits < 2 ^ 15 ->
  keyFromMarkerCount intros credits = credits * 2 ^ 16 + intros /\
  ic (keyFromMarkerCount intros credits) = intros /\
  cc (keyFromMarkerCount intros credits) = credits /\
  markerCountFromKey (keyFromMarkerCount intros credits) = intros + credits.
Proof.
  intros Hi Hc.
  assert (Hkey : keyFromMarkerCount intros credits = credits * 2 ^ 16 + intros).
  { unfold keyFromMarkerCount, deltaFromType. simpl.
    rewrite shl_credits by lia. lia. }
  assert (Hrange : 0 <= credits * 2 ^ 16 + intros < 2 ^ 31) by lia.
  assert (Hic : ic (credits * 2 ^ 16 + intros) = intros).
  { unfold ic. rewrite band_IntroMask by lia.
    rewrite Z.add_comm, Z.mod_add by lia. apply Z.mod_small. lia. }
  assert (Hcc : cc (credits * 2 ^ 16 + intros) = credits).
  { unfold cc. rewrite sar_CreditsShift by lia.
    rewrite Z.add_comm, Z.div_add by lia.
    rewrite Z.div_small by lia. lia. }
  rewrite Hkey. repeat split; auto.
  unfold markerCountFromKey. fold (cc (credits * 2 ^ 16 + intros)).
  fold (ic (credits * 2 ^ 16 + intros)). lia.
Qed.

Lemma packed_key_roundtrip_witness :
  (0 <= 2 < 2 ^ 16) /\ (0 <= 3 < 2 ^ 15) /\
  keyFromMarkerCount 2 3 = 3 * 2 ^ 16 + 2 /\
  ic (keyFromMarkerCount 2 3) = 2 /\
  cc (keyFromMarkerCount 2 3) = 3 /\
  markerCountFromKey (keyFromMarkerCount 2 3) = 2 + 3.
Proof.
  split; [lia | split; [lia | apply (packed_key_roundtrip 2 3); lia]].
Defined.

(** C8 (as stated) fails at 2^15 credits: the 32-bit shift wraps into the
    sign bit, the key is negative, and neither the credits count nor the
    marker count is recovered. *)
Lemma packed_key_wraps_at_32768_credits :
  (0 <= 0 < 2 ^ 16) /\ (0 <= 32768 < 2 ^ 16) /\
  keyFromMarkerCount 0 32768 = - 2 ^ 31 /\
  keyFromMarkerCount 0 32768 <> 32768 * 2 ^ 16 + 0 /\
  cc (keyFromMarkerCount 0 32768) = - 32768 /\
  markerCountFromKey (keyFromMarkerCount 0 32768) <> 0 + 32768.
Proof.
  repeat split; try lia; vm_compute; congruence.
Qed.

(** C9: a delta of type 'commercial', which is a supported marker type,
    takes the [default] branch and is the delta of an intro; applied to
    the breakdown of one item without markers it adds an intro. *)
Theorem commercial_delta_counts_as_intro :
  MarkerType.supportedMarkerType MarkerType.Ad = true /\
  deltaFromType 1 MarkerType.Ad = deltaFromType 1 MarkerType.Intro /\
  ic (keyFromMarkerCount 0 0 + deltaFromType 1 MarkerType.Ad) = 1 /\
  totalIntros (initBase initial) = JS.Num 0 /\
  totalIntros (delta (keyFromMarkerCount 0 0) (deltaFromType 1 MarkerType.Ad)
                     (initBase initial)) = JS.Num 1.
Proof.
  repeat split; vm_compute; reflexivity.
Qed.

(** Folding the values of the counts does not depend on the order. *)
Lemma totalItems_insert (c : gmap Z JS.num) k v :
  c !! k = None -> totalItems (<[k := v]> c) = JS.add (totalItems c) v.
Proof.
  intros Hk. unfold totalItems.
  rewrite map_fold_insert_L; auto.
  intros. rewrite !add_assoc. f_equal. apply add_comm.
Qed.

Lemma totalItems_delete (c : gmap Z JS.num) k v :
  c !! k = Some v -> totalItems c = JS.add (totalItems (delete k c)) v.
Proof.
  intros Hk.
  rewrite <- (insert_delete_id c k v Hk) at 1.
  apply totalItems_insert. apply lookup_delete_eq.
Qed.

Lemma totalItems_replace (c : gmap Z JS.num) k v w :
  c !! k = Some v ->
  totalItems (<[k := w]> c) = JS.add (totalItems (delete k c)) w.
Proof.
  intros Hk. rewrite <- insert_delete_eq.
  apply totalItems_insert. apply lookup_delete_eq.
Qed.

Lemma totalItems_nullishInit (c : gmap Z JS.num) k :
  totalItems (nullishInit k c) = totalItems c.
Proof.
  unfold nullishInit. destruct (c !! k) eqn:Hk; auto.
  rewrite totalItems_insert by auto. apply add_zero_r.
Qed.

Lemma nullishInit_lookup_other (c : gmap Z JS.num) k j :
  j <> k -> nullishInit k c !! j = c !! j.
Proof.
  intros Hj. unfold nullishInit. destruct (c !! k); auto.
  apply lookup_insert_ne. congruence.
Qed.

Lemma nullishInit_lookup (c : gmap Z JS.num) k :
  nullishInit k c !! k = Some (default (JS.Num 0) (c !! k)).
Proof.
  unfold nullishInit. destruct (c !! k) eqn:Hk; simpl; auto.
  apply lookup_insert_eq.
Qed.

Lemma dec_then_inc v : JS.add (JS.add v (JS.Num (-1))) (JS.Num 1) = v.
Proof. destruct v; simpl; f_equal; lia. Qed.

(** C10: when the counts have an entry for [oldBucket], [delta] keeps
    [totalItems()]; for a non-zero delta one item leaves [oldBucket], one
    enters [oldBucket + delta], and no other bucket changes. *)
Theorem delta_preserves_totalItems (c : gmap Z JS.num) (oldBucket d : Z) (v : JS.num) :
  c !! oldBucket = Some v ->
  totalItems (delta oldBucket d c) = totalItems c /\
  (d <> 0 ->
   delta oldBucket d c !! oldBucket = Some (JS.add v (JS.Num (-1))) /\
   delta oldBucket d c !! (oldBucket + d) =
     Some (JS.add (default (JS.Num 0) (c !! (oldBucket + d))) (JS.Num 1)) /\
   forall k, k <> oldBucket -> k <> oldBucket + d -> delta oldBucket d c !! k = c !! k).
Proof.
  intros Hold. unfold delta, increment, decrement.
  destruct (Z.eq_dec d 0) as [-> | Hd].
  - split; [| congruence].
    replace (oldBucket + 0) with oldBucket by lia.
    unfold nullishInit. rewrite Hold. simpl. rewrite Hold.
    rewrite lookup_insert_eq, insert_insert_eq. simpl.
    rewrite dec_then_inc. f_equal. apply insert_id. exact Hold.
  - set (k := oldBucket + d).
    assert (Hk : k <> oldBucket) by (unfold k; lia).
    set (c1 := nullishInit k c).
    assert (H1old : c1 !! oldBucket = Some v).
    { unfold c1. rewrite nullishInit_lookup_other by congruence. exact Hold. }
    assert (H1k : c1 !! k = Some (default (JS.Num 0) (c !! k))).
    { apply nullishInit_lookup. }
    rewrite H1old. simpl.
    set (c2 := <[oldBucket := JS.add v (JS.Num (-1))]> c1).
    assert (H2k : c2 !! k = Some (default (JS.Num 0) (c !! k))).
    { unfold c2. rewrite lookup_insert_ne by congruence. exact H1k. }
    rewrite H2k. simpl.
    split; [| split; [| split]].
    + rewrite (totalItems_replace c2 k _ _ H2k).
      rewrite <- (totalItems_nullishInit c k). fold c1.
      rewrite (totalItems_delete c1 oldBucket v H1old).
      assert (H2 : totalItems c2 =
                   JS.add (totalItems (delete oldBucket c1)) (JS.add v (JS.Num (-1)))).
      { unfold c2. apply (totalItems_replace c1 oldBucket v). exact H1old. }
      rewrite (totalItems_delete c2 k _ H2k) in H2.
      destruct (totalItems (delete k c2)), (totalItems (delete oldBucket c1)),
        (default (JS.Num 0) (c !! k)), v; simpl in *; try congruence.
      inversion H2. f_equal. lia.
    + rewrite lookup_insert_ne by congruence. unfold c2. apply lookup_insert_eq.
    + apply lookup_insert_eq.
    + intros j Hj1 Hj2. rewrite lookup_insert_ne by congruence.
      unfold c2. rewrite lookup_insert_ne by congruence.
      unfold c1. apply nullishInit_lookup_other. exact Hj2.
Qed.

Lemma delta_preserves_totalItems_witness :
  initBase initial !! 0 = Some (JS.Num 1) /\
  totalItems (delta 0 1 (initBase initial)) = totalItems (initBase initial).
Proof.
  split; [reflexivity |].
  apply (delta_preserves_totalItems (initBase initial) 0 1 (JS.Num 1)).
  reflexivity.
Defined.

End BreakdownFacts.

(** ** The bounds check of the commands *)

Module BoundsFacts.

Import CoreCommands.

Lemma checkMarkerBounds_ok (startMs endMs : Z) :
  checkMarkerBounds startMs endMs = inr tt <-> 0 <= startMs < endMs.
Proof.
  unfold checkMarkerBounds.
  destruct (startMs >=? endMs) eqn:H1; [split; [discriminate | lia] |].
  destruct (startMs <? 0) eqn:H2; [split; [discriminate | lia] |].
  split; [lia | reflexivity].
Qed.


End BoundsFacts.

(** ** The classification of the shift table *)

Module BulkShiftFacts.

Import BulkShift.

(** What [update()] tests on a checked row: the row is in error exactly
    when the shifted end is negative, the shifted start is beyond the
    duration, or the shifted interval is empty or flipped. *)
Lemma update_isError (m : SerializedMarkerData) (e : SerializedEpisodeData)
    (shiftStart shiftEnd : JS.num) :
  isError (update true m e shiftStart shiftEnd) = true <->
  end_ m + orZero shiftEnd < 0 \/
  start m + orZero shiftStart > duration e \/
  end_ m + orZero shiftEnd <= start m + orZero shiftStart.
Proof.
  unfold update.
  destruct (_ || _ || _) eqn:Hc; simpl.
  - split; [intros _ | auto].
    apply orb_prop in Hc as [Hc | Hc]; [apply orb_prop in Hc as [Hc | Hc] |]; lia.
  - split; [discriminate |].
    apply orb_false_elim in Hc as [Hc H3].
    apply orb_false_elim in Hc as [H1 H2]. lia.
Qed.

(** An unchecked row is never flagged. *)
Lemma update_disabled (m : SerializedMarkerData) (e : SerializedEpisodeData)
    (shiftStart shiftEnd : JS.num) :
  isError (update false m e shiftStart shiftEnd) = false /\
  isWarn (update false m e shiftStart shiftEnd) = false.
Proof. split; reflexivity. Qed.

(** Every row in error after [update()] has its marker in the ignored
    list that goes to the server with the shift. *)
Lemma getIgnored_has_errors (tableIgnored : list Z) (rows : list BulkShiftRow)
    (markersWithoutRows : list Z) (row : BulkShiftRow) :
  In row rows ->
  isError (status row) = true ->
  In (id (marker row)) (ignored (getIgnored tableIgnored rows markersWithoutRows)).
Proof.
  intros Hin Herr. unfold getIgnored. simpl.
  apply in_or_app. right. apply in_or_app. left.
  apply in_map_iff. exists row. split; [reflexivity |].
  apply filter_In. auto.
Qed.

(** C2: a marker from 15000 to 45000 on an episode of 600000 ms, shifted
    by -45000, ends at 0.  [update()] tests [end < 0] and leaves the row
    a cutoff with the new times 0 and 0, not an error; shifted by +585000
    it starts at the duration and is a cutoff as well.  Neither row is
    put on the ignored list. *)
Theorem update_boundary_not_error :
  45000 + (-45000) <= 0 /\
  update true (mkMarker 1 4 15000 45000) (mkEpisode 4 600000)
         (JS.Num (-45000)) (JS.Num (-45000)) = mkStatus false true 0 0 /\
  15000 + 585000 >= 600000 /\
  update true (mkMarker 1 4 15000 45000) (mkEpisode 4 600000)
         (JS.Num 585000) (JS.Num 585000) = mkStatus false true 600000 600000 /\
  ignored (getIgnored []
             [updateRow (JS.Num (-45000)) (JS.Num (-45000))
                        (mkShiftRow (mkMarker 1 4 15000 45000) (mkEpisode 4 600000)
                                    true (mkStatus false false 0 0))] [])
  = [].
Proof.
  repeat split; try lia; reflexivity.
Qed.



End BulkShiftFacts.

(** ** The add command *)

Module AddFacts.

Import PlexDb CoreCommands BoundsFacts.


(** The bounds check of the command has no duration to compare with:
    it lets [end = 600001] through, as it does [end = 600000]; the
    duration is checked by the query manager. *)
Lemma checkMarkerBounds_ignores_duration :
  600000 + 1 > 600000 /\
  checkMarkerBounds 0 (600000 + 1) = inr tt /\
  checkMarkerBounds 0 600000 = inr tt.
Proof.
  repeat split; lia || reflexivity.
Qed.

End AddFacts.

(** ** Sorting by a key *)

Module SortFacts.

Import PlexDb.

Section SortBy.

Context {A : Type} (key : A -> Z).

Lemma insert_by_Permutation (x : A) (l : list A) :
  Permutation (insert_by key x l) (x :: l).
Proof.
  induction l as [| y l IH]; simpl; [reflexivity |].
  destruct (key x <=? key y); [reflexivity |].
  rewrite IH. apply perm_swap.
Qed.

Lemma sort_by_Permutation (l : list A) : Permutation (sort_by key l) l.
Proof.
  induction l as [| x l IH]; simpl; [reflexivity |].
  rewrite insert_by_Permutation. apply perm_skip. exact IH.
Qed.

Lemma sort_by_In (l : list A) (x : A) : In x (sort_by key l) <-> In x l.
Proof.
  split; apply Permutation_in; [| symmetry]; apply sort_by_Permutation.
Qed.

Lemma sort_by_length (l : list A) : length (sort_by key l) = length l.
Proof. apply Permutation_length, sort_by_Permutation. Qed.

Lemma insert_by_sorted (x : A) (l : list A) :
  StronglySorted (le_key key) l -> StronglySorted (le_key key) (insert_by key x l).
Proof.
  induction 1 as [| y l Hs IH Hall]; simpl.
  - repeat constructor.
  - destruct (key x <=? key y) eqn:Hxy.
    + constructor; [constructor; assumption |].
      constructor; [unfold le_key; lia |].
      eapply Forall_impl; [exact Hall |].
      unfold le_key. intros; lia.
    + constructor; [exact IH |].
      rewrite List.Forall_forall. intros z Hz.
      apply (Permutation_in _ (insert_by_Permutation x l)) in Hz.
      destruct Hz as [<- | Hz]; [unfold le_key; lia |].
      rewrite List.Forall_forall in Hall. auto.
Qed.

Lemma sort_by_sorted (l : list A) : StronglySorted (le_key key) (sort_by key l).
Proof.
  induction l as [| x l IH]; simpl; [constructor |].
  apply insert_by_sorted, IH.
Qed.

(** An element that is not after any element of the list goes first. *)
Lemma insert_by_first (x : A) (l : list A) :
  Forall ((le_key key) x) l -> insert_by key x l = x :: l.
Proof.
  intros Hall. destruct l as [| y l]; simpl; [reflexivity |].
  inversion Hall as [| ? ? Hxy _]; subst. unfold le_key in Hxy.
  destruct (key x <=? key y) eqn:E; [reflexivity | lia].
Qed.

(** Filtering commutes with the stable insertion into a sorted list. *)
Lemma filter_insert_by (p : A -> bool) (x : A) (l : list A) :
  StronglySorted (le_key key) l ->
  List.filter p (insert_by key x l) =
  if p x then insert_by key x (List.filter p l) else List.filter p l.
Proof.
  induction 1 as [| y l Hs IH Hall]; simpl.
  - destruct (p x); reflexivity.
  - destruct (key x <=? key y) eqn:Hxy.
    + simpl. destruct (p x) eqn:Hpx; [| reflexivity].
      symmetry. apply insert_by_first.
      assert (Hyl : Forall ((le_key key) x) (y :: l)).
      { constructor; [unfold le_key; lia |].
        eapply Forall_impl; [exact Hall |]. unfold le_key. intros; lia. }
      rewrite List.Forall_forall in *. intros z Hz.
      apply Hyl.
      change (In z (List.filter p (y :: l))) in Hz.
      apply filter_In in Hz. tauto.
    + simpl. rewrite IH.
      destruct (p y) eqn:Hpy, (p x) eqn:Hpx; simpl; try reflexivity.
      rewrite Hxy. reflexivity.
Qed.

Lemma filter_sort_by (p : A -> bool) (l : list A) :
  List.filter p (sort_by key l) = sort_by key (List.filter p l).
Proof.
  induction l as [| x l IH]; simpl; [reflexivity |].
  rewrite filter_insert_by by apply sort_by_sorted.
  rewrite IH. destruct (p x); reflexivity.
Qed.

(** Mapping with a function that keeps the keys commutes with sorting. *)
Lemma insert_by_map (f : A -> A) (x : A) (l : list A) :
  (forall a, key (f a) = key a) ->
  insert_by key (f x) (List.map f l) = List.map f (insert_by key x l).
Proof.
  intros Hf. induction l as [| y l IH]; simpl; [reflexivity |].
  rewrite !Hf. destruct (key x <=? key y); simpl; [reflexivity |].
  rewrite IH. reflexivity.
Qed.

Lemma sort_by_map (f : A -> A) (l : list A) :
  (forall a, key (f a) = key a) ->
  sort_by key (List.map f l) = List.map f (sort_by key l).
Proof.
  intros Hf. induction l as [| x l IH]; simpl; [reflexivity |].
  rewrite IH. apply insert_by_map, Hf.
Qed.

End SortBy.

(** The rows of the parent of a marker are the rows of the table with
    that parent. *)
Lemma getEpisodeMarkers_In (taggings : list MarkerRow) (episodeId : Z) (m : MarkerRow) :
  In m (getEpisodeMarkers taggings episodeId) <->
  In m taggings /\ episode_id m = episodeId.
Proof.
  unfold getEpisodeMarkers. rewrite sort_by_In, filter_In.
  rewrite Z.eqb_eq. reflexivity.
Qed.

Lemma getSingleMarker_Some (taggings : list MarkerRow) (markerId : Z) (m : MarkerRow) :
  getSingleMarker taggings markerId = Some m -> In m taggings /\ id m = markerId.
Proof.
  unfold getSingleMarker. intros H. apply find_some in H.
  rewrite Z.eqb_eq in H. exact H.
Qed.

End SortFacts.

(** ** The overlap check of the edit command *)

Module EditFacts.

Import PlexDb CoreCommands SortFacts.

(** The loop throws exactly when some marker passes the overlap test. *)
Lemma checkOverlap_isOverlap (markerId startMs endMs : Z) (l : list MarkerRow) :
  forall i n,
    isOverlap (checkOverlap markerId startMs endMs i n l) =
    existsb (overlapsOther markerId startMs endMs) l.
Proof.
  induction l as [| x l IH]; intros i n; simpl; [reflexivity |].
  destruct (overlapsOther markerId startMs endMs x); simpl; [reflexivity |].
  rewrite <- (IH (i + 1) (if id x =? markerId then i else n)).
  destruct (checkOverlap _ _ _ _ _ l) as [e | [n' tagged]]; reflexivity.
Qed.

(** The loop throws nothing but the overlap error. *)
Lemma checkOverlap_error (markerId startMs endMs : Z) (l : list MarkerRow) :
  forall i n e,
    checkOverlap markerId startMs endMs i n l = inl e ->
    isOverlap (inl e : ServerError + MarkerRow) = true.
Proof.
  induction l as [| x l IH]; intros i n e; simpl; [discriminate |].
  destruct (overlapsOther markerId startMs endMs x).
  - intros [= <-]. reflexivity.
  - destruct (checkOverlap _ _ _ _ _ l) as [e' | [n' tagged]] eqn:Hrec;
      [| discriminate].
    intros [= <-]. eapply IH. exact Hrec.
Qed.

(** Replacing the row at one position by a row with the same id keeps
    the rows with any other id. *)
Lemma In_insert_other (l : list MarkerRow) (k : nat) (m y x : MarkerRow) :
  l !! k = Some m ->
  id x <> id m -> id x <> id y ->
  In x (<[k := y]> l) <-> In x l.
Proof.
  revert k. induction l as [| a l IH]; intros k Hk Hm Hy; [discriminate |].
  destruct k as [| k]; simpl in *.
  - injection Hk as ->. split; intros [H | H]; auto; subst; congruence.
  - rewrite (IH k Hk Hm Hy). reflexivity.
Qed.

Lemma overlapsOther_true (markerId startMs endMs : Z) (x : MarkerRow) :
  overlapsOther markerId startMs endMs x = true <->
  id x <> markerId /\ end_ x >= startMs /\ start x <= endMs.
Proof.
  unfold overlapsOther. rewrite !andb_true_iff, negb_true_iff, Z.eqb_neq.
  lia.
Qed.

(** An edit that ends with an error leaves the state as it was. *)
Lemma editMarker_error_state (st : State) (markerId startMs endMs userCreated : Z)
    (e : ServerError) :
  fst (editMarker st markerId startMs endMs userCreated) = inl e ->
  snd (editMarker st markerId startMs endMs userCreated) = st.
Proof.
  unfold editMarker.
  destruct (checkMarkerBounds startMs endMs); [reflexivity |].
  destruct (getSingleMarker (taggings st) markerId) as [m |]; [| reflexivity].
  destruct (assignBounds _ _ _ _) as [edited |]; [| reflexivity].
  destruct (checkOverlap _ _ _ _ _ _) as [e' | [n tagged]]; [reflexivity |].
  simpl. discriminate.
Qed.

(** C1 (as amended): for the edit of an existing marker [m] with valid
    bounds, on a parent whose listing has [m] at the position of its
    index, the command fails with the overlap error if and only if some
    other marker of the parent satisfies [end >= startMs] and
    [start <= endMs] (closed intervals: touching ones included); and
    whenever it fails so, rows, cache calls and action log are unchanged. *)
Theorem editMarker_overlap (st : State) (markerId startMs endMs userCreated : Z)
    (m : MarkerRow) :
  getSingleMarker (taggings st) markerId = Some m ->
  0 <= startMs < endMs ->
  0 <= index m ->
  getEpisodeMarkers (taggings st) (episode_id m) !! Z.to_nat (index m) = Some m ->
  (isOverlap (fst (editMarker st markerId startMs endMs userCreated)) = true <->
   exists s, In s (taggings st) /\ episode_id s = episode_id m /\ id s <> markerId /\
             end_ s >= startMs /\ start s <= endMs) /\
  (isOverlap (fst (editMarker st markerId startMs endMs userCreated)) = true ->
   snd (editMarker st markerId startMs endMs userCreated) = st).
Proof.
  intros Hget Hbounds Hidx Hpos.
  split.
  - destruct (getSingleMarker_Some _ _ _ Hget) as [_ Hid].
    unfold editMarker.
    assert (Hb : checkMarkerBounds startMs endMs = inr tt)
      by (apply BoundsFacts.checkMarkerBounds_ok; exact Hbounds).
    rewrite Hb, Hget. unfold assignBounds.
    destruct (index m <? 0) eqn:Hneg; [lia |].
    rewrite Hpos.
    set (edited := <[Z.to_nat (index m) := setInterval m startMs endMs]>
                     (getEpisodeMarkers (taggings st) (episode_id m))).
    cbv zeta.
    pose proof (checkOverlap_isOverlap markerId startMs endMs
                  (sort_by start edited) 0 0) as Hco.
    match goal with
    | |- ?lhs = true <-> _ =>
        assert (Hfst : lhs = existsb (overlapsOther markerId startMs endMs)
                                     (sort_by start edited))
    end.
    { destruct (checkOverlap markerId startMs endMs 0 0 (sort_by start edited))
        as [e | [n tagged]]; simpl in *; exact Hco. }
    rewrite Hfst.
    rewrite existsb_exists.
    split.
    + intros (x & Hx & Hov).
      apply overlapsOther_true in Hov as (Hne & H1 & H2).
      apply sort_by_In in Hx. unfold edited in Hx.
      apply (In_insert_other _ _ m) in Hx; [| exact Hpos | congruence | simpl; congruence].
      apply getEpisodeMarkers_In in Hx as [HxT Hep].
      exists x. auto.
    + intros (s & HsT & Hep & Hne & H1 & H2).
      exists s. split; [| apply overlapsOther_true; auto].
      apply sort_by_In. unfold edited.
      apply (In_insert_other _ _ m); [exact Hpos | congruence | simpl; congruence |].
      apply getEpisodeMarkers_In. auto.
  - intros Hov.
    destruct (fst (editMarker st markerId startMs endMs userCreated)) as [e |] eqn:Hres;
      [| discriminate].
    eapply editMarker_error_state. exact Hres.
Qed.

Lemma editMarker_overlap_witness :
  getSingleMarker (taggings Scenario.twoMarkers) 1 = Some Scenario.Marker1 /\
  isOverlap (fst (editMarker Scenario.twoMarkers 1 30000 70000 0)) = true /\
  snd (editMarker Scenario.twoMarkers 1 30000 70000 0) = Scenario.twoMarkers.
Proof.
  split; [reflexivity |].
  destruct (editMarker_overlap Scenario.twoMarkers 1 30000 70000 0 Scenario.Marker1)
    as [Hiff Hsame]; [reflexivity | lia | simpl; lia | reflexivity |].
  assert (Hov : isOverlap (fst (editMarker Scenario.twoMarkers 1 30000 70000 0)) = true).
  { apply Hiff. exists Scenario.Marker2. simpl. repeat split; auto; lia. }
  split; [exact Hov | exact (Hsame Hov)].
Defined.

(** C1 (as stated) fails for touching intervals: with markers
    [15000, 45000] and [60000, 90000], moving the first to [20000, 60000]
    only touches the second, and the command throws the overlap error. *)
Lemma editMarker_rejects_touching :
  end_ (setInterval Scenario.Marker1 20000 60000) <= start Scenario.Marker2 /\
  editMarker Scenario.twoMarkers 1 20000 60000 0 =
    (inl (Overlap 20000 60000 60000 90000), Scenario.twoMarkers).
Proof.
  split; [simpl; lia | reflexivity].
Qed.

End EditFacts.

(** ** Re-indexing after a delete *)

Module DeleteFacts.

Import PlexDb CoreCommands SortFacts.

Section Lists.

Context {A B : Type}.

Lemma NoDup_map_eq (f : A -> B) (l : list A) (x y : A) :
  List.NoDup (List.map f l) -> In x l -> In y l -> f x = f y -> x = y.
Proof.
  induction l as [| a l IH]; simpl; [tauto |].
  intros Hnd Hx Hy Hf. apply List.NoDup_cons_iff in Hnd as [Hnotin Hnd].
  destruct Hx as [-> | Hx], Hy as [-> | Hy]; auto.
  - exfalso. apply Hnotin. rewrite Hf. apply in_map. exact Hy.
  - exfalso. apply Hnotin. rewrite <- Hf. apply in_map. exact Hx.
Qed.

Lemma NoDup_map_filter (f : A -> B) (p : A -> bool) (l : list A) :
  List.NoDup (List.map f l) -> List.NoDup (List.map f (List.filter p l)).
Proof.
  induction l as [| a l IH]; simpl; [auto |].
  intros Hnd. apply List.NoDup_cons_iff in Hnd as [Hnotin Hnd].
  destruct (p a); simpl; [| auto].
  apply List.NoDup_cons_iff. split; [| auto].
  intros Hin. apply Hnotin.
  apply in_map_iff in Hin as (x & Hx & Hin).
  apply in_map_iff. exists x. apply filter_In in Hin. tauto.
Qed.

Lemma filter_map_comm (f : A -> A) (p : A -> bool) (l : list A) :
  (forall x, p (f x) = p x) ->
  List.filter p (List.map f l) = List.map f (List.filter p l).
Proof.
  intros Hp. induction l as [| a l IH]; simpl; [reflexivity |].
  rewrite Hp, IH. destruct (p a); reflexivity.
Qed.

Lemma filter_filter_comm (p q : A -> bool) (l : list A) :
  List.filter p (List.filter q l) = List.filter q (List.filter p l).
Proof.
  induction l as [| a l IH]; simpl; [reflexivity |].
  destruct (p a) eqn:Hp, (q a) eqn:Hq; simpl; rewrite ?Hp, ?Hq, IH; reflexivity.
Qed.

Lemma find_None_all (p : A -> bool) (l : list A) :
  (forall x, In x l -> p x = false) -> List.find p l = None.
Proof.
  intros Hall. destruct (List.find p l) as [x |] eqn:Hf; [| reflexivity].
  apply find_some in Hf as [Hin Hp]. rewrite (Hall x Hin) in Hp. discriminate.
Qed.

End Lists.

(** Removing [j] from [a, a+1, ...] and closing the gap. *)
Lemma seq_after_gap (j : nat) (len a : nat) :
  (j < a)%nat ->
  List.map (indexAfterDelete (Z.of_nat j))
           (List.filter (fun i => negb (i =? Z.of_nat j))
                        (List.map Z.of_nat (seq a len)))
  = List.map Z.of_nat (seq (a - 1) len).
Proof.
  revert a. induction len as [| len IH]; intros a Ha; simpl; [reflexivity |].
  destruct (Z.of_nat a =? Z.of_nat j) eqn:E; [lia |]. simpl.
  rewrite (IH (S a)) by lia.
  unfold indexAfterDelete at 1.
  destruct (Z.of_nat a >? Z.of_nat j) eqn:E2; [| lia].
  replace (S a - 1)%nat with (S (a - 1)) by lia.
  f_equal. lia.
Qed.

Lemma seq_remove (j : nat) (len a : nat) :
  (a <= j < a + S len)%nat ->
  List.map (indexAfterDelete (Z.of_nat j))
           (List.filter (fun i => negb (i =? Z.of_nat j))
                        (List.map Z.of_nat (seq a (S len))))
  = List.map Z.of_nat (seq a len).
Proof.
  revert a. induction len as [| len IH]; intros a Ha.
  - simpl. destruct (Z.of_nat a =? Z.of_nat j) eqn:E; [reflexivity | lia].
  - change (seq a (S (S len))) with (a :: seq (S a) (S len)).
    cbn [List.map List.filter].
    destruct (Z.of_nat a =? Z.of_nat j) eqn:E; cbn [negb].
    + assert (a = j) by lia. subst a.
      rewrite (seq_after_gap j (S len) (S j)) by lia.
      replace (S j - 1)%nat with j by lia. reflexivity.
    + cbn [List.map]. rewrite (IH (S a)) by lia.
      unfold indexAfterDelete at 1.
      destruct (Z.of_nat a >? Z.of_nat j) eqn:E2; [lia |].
      reflexivity.
Qed.

(** The first loop finds the index of the marker to delete. *)
Lemma findDeleteIndex_spec (markerId k : Z) (l : list MarkerRow) :
  (forall x, In x l -> id x = markerId -> index x = k) ->
  (exists x, In x l /\ id x = markerId) ->
  findDeleteIndex markerId l = k.
Proof.
  unfold findDeleteIndex. intros Hall Hex.
  assert (Hgen : forall acc,
             acc = k \/ (exists x, In x l /\ id x = markerId) ->
             fold_left (fun deleteIndex marker =>
                          if id marker =? markerId then index marker else deleteIndex)
                       l acc = k).
  { clear Hex. induction l as [| a l IH]; intros acc Hacc; simpl.
    - destruct Hacc as [-> | (x & [] & _)]. reflexivity.
    - apply IH; [intros; apply Hall; simpl; auto |].
      destruct (id a =? markerId) eqn:Ha.
      + left. apply Hall; [left; reflexivity | lia].
      + destruct Hacc as [-> | (x & [-> | Hx] & Hid)]; [auto | lia | eauto]. }
  apply Hgen. right. exact Hex.
Qed.

Lemma setIndex_setIndex (s : MarkerRow) (i j : Z) :
  setIndex (setIndex s i) j = setIndex s j.
Proof. reflexivity. Qed.

Lemma setIndex_same (s : MarkerRow) : setIndex s (index s) = s.
Proof. destruct s; reflexivity. Qed.

(** The loop is a map over the rows. *)
Lemma closeGap_map (k : Z) (l rows : list MarkerRow) :
  closeGap k l rows = List.map (closeGapRow k l) rows.
Proof.
  unfold closeGap, closeGapRow. revert rows.
  induction l as [| x l IH]; intros rows; simpl.
  - symmetry. apply map_id.
  - rewrite IH. destruct (index x >? k); [| reflexivity].
    unfold updateMarkerIndex. rewrite map_map. reflexivity.
Qed.

(** A row only ever has its index changed. *)
Lemma closeGapRow_setIndex (k : Z) (l : list MarkerRow) (s : MarkerRow) :
  closeGapRow k l s = setIndex s (index (closeGapRow k l s)).
Proof.
  unfold closeGapRow. revert s.
  induction l as [| x l IH]; intros s; simpl.
  - symmetry. apply setIndex_same.
  - destruct (index x >? k); [| apply IH].
    destruct (id s =? id x); [| apply IH].
    rewrite IH at 1. rewrite setIndex_setIndex.
    f_equal.
Qed.

Lemma closeGapRow_notin (k : Z) (l : list MarkerRow) (s : MarkerRow) :
  (forall x, In x l -> index x > k -> id x <> id s) ->
  closeGapRow k l s = s.
Proof.
  unfold closeGapRow.
  induction l as [| x l IH]; intros Hall; simpl; [reflexivity |].
  destruct (index x >? k) eqn:Hk.
  - destruct (id s =? id x) eqn:Hid.
    + exfalso. apply (Hall x); [left; reflexivity | lia | lia].
    + apply IH. intros; apply Hall; simpl; auto.
  - apply IH. intros; apply Hall; simpl; auto.
Qed.

Lemma closeGapRow_in (k : Z) (l : list MarkerRow) (s : MarkerRow) :
  List.NoDup (List.map id l) -> In s l ->
  closeGapRow k l s = setIndex s (indexAfterDelete k (index s)).
Proof.
  unfold indexAfterDelete.
  induction l as [| x l IH]; intros Hnd Hin; [destruct Hin |].
  simpl in Hnd. apply List.NoDup_cons_iff in Hnd as [Hnotin Hnd].
  change (closeGapRow k (x :: l) s)
    with (closeGapRow k l (if index x >? k
                           then (if id s =? id x then setIndex s (index x - 1) else s)
                           else s)).
  destruct Hin as [-> | Hin].
  - rewrite Z.eqb_refl.
    destruct (index s >? k).
    + apply closeGapRow_notin. intros y Hy _ Heq. apply Hnotin.
      simpl in Heq. rewrite <- Heq. apply in_map. exact Hy.
    + rewrite setIndex_same. apply closeGapRow_notin.
      intros y Hy _ Heq. apply Hnotin. rewrite <- Heq. apply in_map. exact Hy.
  - assert (Hne : id s <> id x).
    { intros Heq. apply Hnotin. rewrite <- Heq. apply in_map. exact Hin. }
    apply Z.eqb_neq in Hne. rewrite Hne.
    destruct (index x >? k); apply IH; assumption.
Qed.

Lemma find_map_unique (f : MarkerRow -> MarkerRow) (rows : list MarkerRow)
    (s : MarkerRow) :
  (forall x, id (f x) = id x) ->
  List.NoDup (List.map id rows) -> In s rows ->
  getSingleMarker (List.map f rows) (id s) = Some (f s).
Proof.
  intros Hf. unfold getSingleMarker.
  induction rows as [| x rows IH]; intros Hnd Hin; [destruct Hin |].
  simpl in Hnd. apply List.NoDup_cons_iff in Hnd as [Hnotin Hnd].
  simpl. rewrite Hf.
  destruct Hin as [-> | Hin].
  - rewrite Z.eqb_refl. reflexivity.
  - destruct (id x =? id s) eqn:E; [| apply IH; assumption].
    exfalso. apply Hnotin. apply Z.eqb_eq in E. rewrite E.
    apply in_map. exact Hin.
Qed.

(** Mapping the kept rows and reading their index, from the indices
    alone. *)
Lemma map_index_filter (f : MarkerRow -> MarkerRow) (d : Z -> Z) (q : Z -> bool)
    (l : list MarkerRow) :
  (forall x, In x l -> index (f x) = d (index x)) ->
  List.map index (List.map f (List.filter (fun x => q (index x)) l)) =
  List.map d (List.filter q (List.map index l)).
Proof.
  induction l as [| a l IH]; intros Hf; simpl; [reflexivity |].
  destruct (q (index a)); simpl.
  - rewrite Hf by (left; reflexivity). f_equal. apply IH.
    intros; apply Hf; simpl; auto.
  - apply IH. intros; apply Hf; simpl; auto.
Qed.

Lemma closeGapRow_id (k : Z) (l : list MarkerRow) (s : MarkerRow) :
  id (closeGapRow k l s) = id s.
Proof. rewrite closeGapRow_setIndex. reflexivity. Qed.

Lemma closeGapRow_episode_id (k : Z) (l : list MarkerRow) (s : MarkerRow) :
  episode_id (closeGapRow k l s) = episode_id s.
Proof. rewrite closeGapRow_setIndex. reflexivity. Qed.

Lemma closeGapRow_start (k : Z) (l : list MarkerRow) (s : MarkerRow) :
  start (closeGapRow k l s) = start s.
Proof. rewrite closeGapRow_setIndex. reflexivity. Qed.

Lemma NoDup_indices (n : nat) : List.NoDup (List.map Z.of_nat (List.seq 0 n)).
Proof.
  apply Injective_map_NoDup; [| apply List.seq_NoDup].
  intros a b Hab. lia.
Qed.

Section Delete.

Variables (st : State) (markerId : Z) (m : MarkerRow) (n : nat).

Hypothesis Hnd : List.NoDup (List.map id (taggings st)).
Hypothesis Hget : getSingleMarker (taggings st) markerId = Some m.
Hypothesis Hidx :
  List.map index (getEpisodeMarkers (taggings st) (episode_id m)) =
  List.map Z.of_nat (List.seq 0 (S n)).

Let all := getEpisodeMarkers (taggings st) (episode_id m).
Let rows := deleteMarkerRow (taggings st) markerId.

Lemma deleted_in_table : In m (taggings st) /\ id m = markerId.
Proof. apply getSingleMarker_Some. exact Hget. Qed.

Lemma deleted_in_parent : In m all.
Proof.
  apply getEpisodeMarkers_In. split; [apply deleted_in_table | reflexivity].
Qed.

Lemma same_id_is_deleted (x : MarkerRow) :
  In x (taggings st) -> id x = markerId -> x = m.
Proof.
  intros Hx Hid. destruct deleted_in_table as [Hm Hmid].
  apply (NoDup_map_eq id (taggings st)); auto. congruence.
Qed.

Lemma parent_ids_NoDup : List.NoDup (List.map id all).
Proof.
  unfold all, getEpisodeMarkers.
  eapply Permutation.Permutation_NoDup.
  - apply Permutation_map. symmetry. apply sort_by_Permutation.
  - apply NoDup_map_filter. exact Hnd.
Qed.

Lemma parent_length : length all = S n.
Proof.
  unfold all. rewrite <- (List.length_map index), Hidx.
  rewrite List.length_map. apply List.length_seq.
Qed.

Lemma parent_index_range (x : MarkerRow) :
  In x all -> exists j, index x = Z.of_nat j /\ (j < S n)%nat.
Proof.
  intros Hx. apply (in_map index) in Hx. fold all in Hidx.
  rewrite Hidx in Hx. apply in_map_iff in Hx as (j & Hj & Hin).
  apply in_seq in Hin. exists j. split; [auto | lia].
Qed.

Lemma same_index_is_deleted (x : MarkerRow) :
  In x all -> index x = index m -> x = m.
Proof.
  intros Hx Hi. apply (NoDup_map_eq index all); auto.
  - fold all in Hidx. rewrite Hidx. apply NoDup_indices.
  - apply deleted_in_parent.
Qed.

Lemma deleteIndex_found : findDeleteIndex markerId all = index m.
Proof.
  apply findDeleteIndex_spec.
  - intros x Hx Hid. apply getEpisodeMarkers_In in Hx as [Hx _].
    rewrite (same_id_is_deleted x Hx Hid). reflexivity.
  - exists m. split; [apply deleted_in_parent | apply deleted_in_table].
Qed.

(** The rows after the delete: the kept rows, each through the loop. *)
Lemma deleteMarker_rows :
  taggings (snd (deleteMarker st markerId)) =
  List.map (closeGapRow (index m) all) rows.
Proof.
  unfold deleteMarker. rewrite Hget. cbv zeta. fold all. fold rows.
  rewrite deleteIndex_found. simpl.
  destruct (index m <? Z.of_nat (length all) - 1) eqn:Hlast.
  - apply closeGap_map.
  - rewrite <- (map_id rows) at 1. apply map_ext. intros s.
    symmetry. apply closeGapRow_notin.
    intros x Hx Hgt _. rewrite parent_length in Hlast.
    apply Z.ltb_ge in Hlast.
    destruct (parent_index_range x Hx) as (j & Hj & Hlt). lia.
Qed.

Lemma rows_NoDup : List.NoDup (List.map id rows).
Proof. apply NoDup_map_filter. exact Hnd. Qed.

Lemma sibling_kept (s : MarkerRow) :
  In s (taggings st) -> id s <> markerId -> In s rows.
Proof.
  intros Hs Hne. apply filter_In. split; [exact Hs |].
  apply negb_true_iff, Z.eqb_neq. exact Hne.
Qed.

Lemma parent_after_delete :
  getEpisodeMarkers (List.map (closeGapRow (index m) all) rows) (episode_id m) =
  List.map (closeGapRow (index m) all)
           (List.filter (fun x => negb (index x =? index m)) all).
Proof.
  unfold getEpisodeMarkers at 1.
  rewrite filter_map_comm by (intros x; rewrite closeGapRow_episode_id; reflexivity).
  rewrite sort_by_map by apply closeGapRow_start.
  f_equal. unfold rows, deleteMarkerRow.
  rewrite filter_filter_comm, <- filter_sort_by.
  fold (getEpisodeMarkers (taggings st) (episode_id m)). fold all.
  apply filter_ext_in. intros x Hx. f_equal.
  destruct (id x =? markerId) eqn:E1, (index x =? index m) eqn:E2; auto.
  - apply Z.eqb_eq in E1. apply Z.eqb_neq in E2.
    apply getEpisodeMarkers_In in Hx as [Hx _].
    rewrite (same_id_is_deleted x Hx E1) in E2. congruence.
  - apply Z.eqb_neq in E1. apply Z.eqb_eq in E2.
    rewrite (same_index_is_deleted x Hx E2) in E1.
    destruct deleted_in_table. congruence.
Qed.

(** C6: deleting an existing marker [m] of a table with unique ids, whose
    parent has [n] other markers and the indices [0..n] in the order of
    [start], returns [m] as it was; the row of [m] is gone; every sibling
    with a greater index has it decremented by one, every sibling with a
    smaller index and every row of another parent is unchanged; and the
    parent's indices, in the order of [start], are [0..n-1]. *)
Theorem deleteMarker_reindexes :
  fst (deleteMarker st markerId) = inr m /\
  getSingleMarker (taggings (snd (deleteMarker st markerId))) markerId = None /\
  (forall s, In s (taggings st) -> episode_id s = episode_id m -> id s <> markerId ->
     (index s > index m ->
      getSingleMarker (taggings (snd (deleteMarker st markerId))) (id s)
      = Some (setIndex s (index s - 1))) /\
     (index s < index m ->
      getSingleMarker (taggings (snd (deleteMarker st markerId))) (id s) = Some s)) /\
  (forall s, In s (taggings st) -> episode_id s <> episode_id m ->
     getSingleMarker (taggings (snd (deleteMarker st markerId))) (id s) = Some s) /\
  List.map index
    (getEpisodeMarkers (taggings (snd (deleteMarker st markerId))) (episode_id m)) =
  List.map Z.of_nat (List.seq 0 n).
Proof.
  rewrite deleteMarker_rows.
  split; [| split; [| split; [| split]]].
  - unfold deleteMarker. rewrite Hget. reflexivity.
  - apply find_None_all. intros x Hx.
    apply in_map_iff in Hx as (y & <- & Hy).
    rewrite closeGapRow_id. apply filter_In in Hy as [_ Hy].
    apply negb_true_iff in Hy. exact Hy.
  - intros s Hs Hep Hne.
    assert (Hlook : getSingleMarker (List.map (closeGapRow (index m) all) rows) (id s)
                    = Some (setIndex s (indexAfterDelete (index m) (index s)))).
    { rewrite (find_map_unique (closeGapRow (index m) all) rows s);
        [| apply closeGapRow_id | apply rows_NoDup | apply sibling_kept; assumption].
      f_equal. apply closeGapRow_in; [apply parent_ids_NoDup |].
      apply getEpisodeMarkers_In. auto. }
    rewrite Hlook. unfold indexAfterDelete.
    split; intros Hcmp.
    + destruct (index s >? index m) eqn:E; [reflexivity | lia].
    + destruct (index s >? index m) eqn:E; [lia |].
      rewrite setIndex_same. reflexivity.
  - intros s Hs Hep.
    assert (Hne : id s <> markerId).
    { intros Hid. rewrite (same_id_is_deleted s Hs Hid) in Hep. congruence. }
    rewrite (find_map_unique (closeGapRow (index m) all) rows s);
      [| apply closeGapRow_id | apply rows_NoDup | apply sibling_kept; assumption].
    f_equal. apply closeGapRow_notin.
    intros x Hx _ Hid. apply getEpisodeMarkers_In in Hx as [Hx Hxep].
    assert (x = s) by (apply (NoDup_map_eq id (taggings st)); auto).
    congruence.
  - rewrite parent_after_delete.
    rewrite (map_index_filter (closeGapRow (index m) all)
                              (indexAfterDelete (index m))
                              (fun i => negb (i =? index m)) all).
    + fold all in Hidx. rewrite Hidx.
      destruct (parent_index_range m deleted_in_parent) as (j & Hj & Hlt).
      rewrite Hj. apply seq_remove. lia.
    + intros x Hx. rewrite closeGapRow_in; [reflexivity | apply parent_ids_NoDup | exact Hx].
Qed.

End Delete.

Lemma deleteMarker_reindexes_witness :
  List.NoDup (List.map id (taggings Scenario.threeMarkers)) /\
  fst (deleteMarker Scenario.threeMarkers 4) =
    inr (mkRow 4 14 1 300000 345000 "credits" false) /\
  List.map index (getEpisodeMarkers (taggings (snd (deleteMarker Scenario.threeMarkers 4))) 14)
  = [0; 1].
Proof.
  assert (Hnd : List.NoDup (List.map id (taggings Scenario.threeMarkers))).
  { simpl. repeat constructor; simpl; intuition lia. }
  split; [exact Hnd |].
  destruct (deleteMarker_reindexes Scenario.threeMarkers 4
              (mkRow 4 14 1 300000 345000 "credits" false) 2 Hnd
              eq_refl eq_refl) as (Hret & _ & _ & _ & Hindices).
  split; [exact Hret | exact Hindices].
Defined.

End DeleteFacts.

(** ** The engine of the specification: linked conflicts and the final flag *)

Module EngineFacts.

Import PlexDb Engine SortFacts.

(** A parent with more than one retained marker makes a linked conflict. *)
Lemma linkedConflict_of_parent (parent : Z) (l : list MarkerRow) :
  (1 < countOfParent parent l)%nat -> linkedConflict l = true.
Proof.
  intros Hcount. unfold linkedConflict. apply existsb_exists.
  unfold countOfParent in Hcount.
  destruct (List.filter (fun m => episode_id m =? parent) l) as [| x rest] eqn:Hf;
    [simpl in Hcount; lia |].
  assert (Hx : In x (List.filter (fun m => episode_id m =? parent) l))
    by (rewrite Hf; left; reflexivity).
  apply filter_In in Hx as [Hx Hep]. apply Z.eqb_eq in Hep.
  exists x. split; [exact Hx |].
  apply Nat.ltb_lt. unfold countOfParent. rewrite Hep, Hf. exact Hcount.
Qed.

(** C5: a shift with valid deltas and [force = false], over a subtree in
    which some parent has more than one retained (enumerated and not
    ignored) marker, answers [applied = false] and [conflict = true] with
    all the enumerated markers, and leaves the service, hence every marker
    row with its start, end and index, as it was. *)
Theorem Shift_linked_conflict (svc : Service) (rootId dStart dEnd : Z)
    (ignoreIds : list Z) (parent : Z) :
  (dStart, dEnd) <> (0, 0) ->
  (1 < countOfParent parent (retained svc rootId ignoreIds))%nat ->
  exists result,
    fst (Shift svc rootId dStart dEnd false ignoreIds) = inr result /\
    applied result = false /\
    conflict result = true /\
    allMarkers result = ListMarkersForSubtree svc rootId /\
    snd (Shift svc rootId dStart dEnd false ignoreIds) = svc /\
    markers (snd (Shift svc rootId dStart dEnd false ignoreIds)) = markers svc.
Proof.
  intros Hdelta Hcount. unfold Shift.
  assert (Hzero : (dStart =? 0) && (dEnd =? 0) = false).
  { apply andb_false_iff.
    destruct (Z.eqb_spec dStart 0) as [-> |]; [| auto].
    destruct (Z.eqb_spec dEnd 0) as [-> |]; [| auto].
    congruence. }
  rewrite Hzero, (linkedConflict_of_parent parent _ Hcount). simpl.
  eexists. repeat split.
Qed.

Lemma Shift_linked_conflict_witness :
  (3000, 3000) <> (0, 0) /\
  (1 < countOfParent 14 (retained Scenario.testService 14 []))%nat /\
  exists result,
    fst (Shift Scenario.testService 14 3000 3000 false []) = inr result /\
    applied result = false /\
    conflict result = true /\
    allMarkers result = Scenario.Show3Markers /\
    snd (Shift Scenario.testService 14 3000 3000 false []) = Scenario.testService.
Proof.
  assert (Hd : (3000, 3000) <> (0, 0)) by congruence.
  assert (Hc : (1 < countOfParent 14 (retained Scenario.testService 14 []))%nat)
    by (vm_compute; lia).
  split; [exact Hd | split; [exact Hc |]].
  destruct (Shift_linked_conflict Scenario.testService 14 3000 3000 [] 14 Hd Hc)
    as (result & Hres & Happ & Hconf & Hall & Hsame & _).
  exists result. repeat split; assumption.
Defined.

(** Updating the index of another row does not change what the lookup of
    a marker id finds. *)
Lemma getSingleMarker_updateMarkerIndex (rows : list MarkerRow) (other j markerId : Z) :
  other <> markerId ->
  getSingleMarker (updateMarkerIndex rows other j) markerId =
  getSingleMarker rows markerId.
Proof.
  intros Hne. unfold getSingleMarker, updateMarkerIndex.
  induction rows as [| x rows IH]; simpl; [reflexivity |].
  destruct (id x =? other) eqn:Ho; simpl.
  - destruct (id x =? markerId) eqn:Hm; [lia | exact IH].
  - destruct (id x =? markerId); [reflexivity | exact IH].
Qed.

Lemma getSingleMarker_UpdateMarker (rows : list MarkerRow)
    (markerId startMs endMs newIndex : Z) (type : string) (final : bool)
    (existing : MarkerRow) :
  getSingleMarker rows markerId = Some existing ->
  getSingleMarker (UpdateMarker rows markerId startMs endMs newIndex type final) markerId
  = Some (mkRow markerId (episode_id existing) newIndex startMs endMs type final).
Proof.
  unfold getSingleMarker, UpdateMarker.
  induction rows as [| x rows IH]; simpl; [discriminate |].
  destruct (id x =? markerId) eqn:Hm; simpl.
  - rewrite Hm. intros [= <-]. apply Z.eqb_eq in Hm. rewrite Hm. reflexivity.
  - rewrite Hm. exact IH.
Qed.

(** A committed edit returns and stores the marker with the requested
    bounds and type, and with the final flag only for credits. *)
Lemma Edit_commit (svc svc' : Service) (markerId startMs endMs : Z) (type : string)
    (final : bool) (updated : MarkerRow) :
  Edit svc markerId startMs endMs type final = (inr updated, svc') ->
  id updated = markerId /\ start updated = startMs /\ end_ updated = endMs /\
  marker_type updated = type /\
  PlexDb.final updated = final && String.eqb type MarkerType.Credits /\
  getSingleMarker (markers svc') markerId = Some updated.
Proof.
  unfold Edit.
  destruct (negb (MarkerType.supportedMarkerType type)); [discriminate |].
  destruct (getSingleMarker (markers svc) markerId) as [existing |] eqn:Hget;
    [| discriminate].
  destruct (GetItem (items svc) (episode_id existing)) as [parent |]; [| discriminate].
  destruct (negb _); [discriminate |].
  cbv zeta.
  destruct (anyTwoIntersect _); [discriminate |].
  intros [= <- <-]. simpl. repeat split.
  match goal with
  | |- getSingleMarker (fold_left ?f ?l ?rows) _ = _ =>
      assert (Hfold : forall l' db,
                 getSingleMarker (fold_left f l' db) markerId =
                 getSingleMarker db markerId)
  end.
  { induction l' as [| x l' IH]; intros db; simpl; [reflexivity |].
    rewrite IH. destruct (id x =? markerId) eqn:Hm; simpl; [reflexivity |].
    destruct (index x =? _); [reflexivity |].
    apply getSingleMarker_updateMarkerIndex. lia. }
  rewrite Hfold. apply getSingleMarker_UpdateMarker. exact Hget.
Qed.

(** C7: an edit that asks for [final = true] with a type other than
    credits is the same edit with [final = false]: it is not rejected for
    the flag, and when that edit commits, the marker returned and stored
    has the requested start, end and type, and is not final. *)
Theorem Edit_final_on_non_credits (svc : Service) (markerId startMs endMs : Z)
    (type : string) :
  type <> MarkerType.Credits ->
  Edit svc markerId startMs endMs type true = Edit svc markerId startMs endMs type false /\
  forall updated svc',
    Edit svc markerId startMs endMs type false = (inr updated, svc') ->
    Edit svc markerId startMs endMs type true = (inr updated, svc') /\
    start updated = startMs /\ end_ updated = endMs /\ marker_type updated = type /\
    final updated = false /\
    getSingleMarker (markers svc') markerId = Some updated.
Proof.
  intros Htype.
  assert (Heqb : String.eqb type MarkerType.Credits = false)
    by (apply String.eqb_neq; exact Htype).
  assert (Hsame : Edit svc markerId startMs endMs type true =
                  Edit svc markerId startMs endMs type false).
  { unfold Edit. rewrite Heqb. reflexivity. }
  split; [exact Hsame |].
  intros updated svc' Hcommit.
  rewrite Hsame. split; [exact Hcommit |].
  apply Edit_commit in Hcommit as (_ & Hs & He & Ht & Hf & Hstored).
  rewrite Heqb in Hf. simpl in Hf. auto.
Qed.

Lemma Edit_final_on_non_credits_witness :
  MarkerType.Intro <> MarkerType.Credits /\
  Edit Scenario.testService 1 14000 46000 MarkerType.Intro true =
    (inr (mkRow 1 4 0 14000 46000 "intro" false),
     mkService Scenario.testItems
               (mkRow 1 4 0 14000 46000 "intro" false :: Scenario.Show3Markers)
               [LogEdit (mkRow 1 4 0 14000 46000 "intro" false) 15000 45000]
               []).
Proof.
  assert (Hne : MarkerType.Intro <> MarkerType.Credits) by discriminate.
  split; [exact Hne |].
  destruct (Edit_final_on_non_credits Scenario.testService 1 14000 46000
              MarkerType.Intro Hne) as [Hsame _].
  rewrite Hsame. reflexivity.
Defined.

End EngineFacts.

(** ** More on the breakdown: totals, regrouping and the marker enum *)

Module BreakdownMore.

Import MarkerBreakdown BreakdownFacts.

Lemma wfold_insert (g : Z -> JS.num -> JS.num) (c : gmap Z JS.num) k v :
  c !! k = None -> weightedTotal g (<[k := v]> c) = JS.add (weightedTotal g c) (g k v).
Proof.
  intros Hk. unfold weightedTotal. rewrite map_fold_insert_L; auto.
  intros. rewrite !add_assoc. f_equal. apply add_comm.
Qed.

Lemma wfold_delete (g : Z -> JS.num -> JS.num) (c : gmap Z JS.num) k v :
  c !! k = Some v -> weightedTotal g c = JS.add (weightedTotal g (delete k c)) (g k v).
Proof.
  intros Hk. rewrite <- (insert_delete_id c k v Hk) at 1.
  apply wfold_insert. apply lookup_delete_eq.
Qed.

Lemma wfold_replace (g : Z -> JS.num -> JS.num) (c : gmap Z JS.num) k v w :
  c !! k = Some v -> weightedTotal g (<[k := w]> c) = JS.add (weightedTotal g (delete k c)) (g k w).
Proof.
  intros Hk. rewrite <- insert_delete_eq.
  apply wfold_insert. apply lookup_delete_eq.
Qed.

Lemma wfold_nullishInit (g : Z -> JS.num -> JS.num) (c : gmap Z JS.num) k :
  g k (JS.Num 0) = JS.Num 0 -> weightedTotal g (nullishInit k c) = weightedTotal g c.
Proof.
  intros Hg. unfold nullishInit. destruct (c !! k) eqn:Hk; auto.
  rewrite wfold_insert by auto. rewrite Hg. apply add_zero_r.
Qed.

(** The entries of the counts after [delta]. *)
Lemma delta_lookups (c : gmap Z JS.num) (oldBucket d : Z) (v : JS.num) :
  c !! oldBucket = Some v -> d <> 0 ->
  delta oldBucket d c !! oldBucket = Some (JS.add v (JS.Num (-1))) /\
  delta oldBucket d c !! (oldBucket + d) =
    Some (JS.add (default (JS.Num 0) (c !! (oldBucket + d))) (JS.Num 1)) /\
  forall k, k <> oldBucket -> k <> oldBucket + d -> delta oldBucket d c !! k = c !! k.
Proof.
  intros Hold Hd. unfold delta, increment, decrement.
  set (k := oldBucket + d).
  assert (Hk : k <> oldBucket) by (unfold k; lia).
  set (c1 := nullishInit k c).
  assert (H1old : c1 !! oldBucket = Some v).
  { unfold c1. rewrite nullishInit_lookup_other by congruence. exact Hold. }
  assert (H1k : c1 !! k = Some (default (JS.Num 0) (c !! k)))
    by apply nullishInit_lookup.
  rewrite H1old. simpl.
  set (c2 := <[oldBucket := JS.add v (JS.Num (-1))]> c1).
  assert (H2k : c2 !! k = Some (default (JS.Num 0) (c !! k))).
  { unfold c2. rewrite lookup_insert_ne by congruence. exact H1k. }
  rewrite H2k. simpl.
  split; [| split].
  - rewrite lookup_insert_ne by congruence. unfold c2. apply lookup_insert_eq.
  - apply lookup_insert_eq.
  - intros j Hj1 Hj2. rewrite lookup_insert_ne by congruence.
    unfold c2. rewrite lookup_insert_ne by congruence.
    unfold c1. apply nullishInit_lookup_other. exact Hj2.
Qed.

Lemma delta_zero (c : gmap Z JS.num) (oldBucket : Z) (v : JS.num) :
  c !! oldBucket = Some v -> delta oldBucket 0 c = c.
Proof.
  intros Hold. unfold delta, increment, decrement.
  replace (oldBucket + 0) with oldBucket by lia.
  unfold nullishInit. rewrite Hold. simpl. rewrite Hold.
  rewrite lookup_insert_eq, insert_insert_eq. simpl.
  rewrite dec_then_inc. apply insert_id. exact Hold.
Qed.

(** A weighted total after [delta]: the weight of the new bucket comes
    in, the weight of the old bucket goes out. *)
Lemma wfold_delta (f : Z -> Z) (c : gmap Z JS.num) (oldBucket d : Z) (v : JS.num) :
  c !! oldBucket = Some v ->
  weightedTotal (weight f) (delta oldBucket d c) =
  JS.add (weightedTotal (weight f) c) (JS.Num (f (oldBucket + d) - f oldBucket)).
Proof.
  intros Hold. destruct (Z.eq_dec d 0) as [-> | Hd].
  - rewrite (delta_zero c oldBucket v Hold).
    replace (oldBucket + 0) with oldBucket by lia.
    replace (f oldBucket - f oldBucket) with 0 by lia.
    symmetry. apply add_zero_r.
  - unfold delta, increment, decrement.
    set (k := oldBucket + d).
    assert (Hk : k <> oldBucket) by (unfold k; lia).
    set (c1 := nullishInit k c).
    assert (H1old : c1 !! oldBucket = Some v).
    { unfold c1. rewrite nullishInit_lookup_other by congruence. exact Hold. }
    assert (H1k : c1 !! k = Some (default (JS.Num 0) (c !! k)))
      by apply nullishInit_lookup.
    rewrite H1old. simpl.
    set (c2 := <[oldBucket := JS.add v (JS.Num (-1))]> c1).
    assert (H2k : c2 !! k = Some (default (JS.Num 0) (c !! k))).
    { unfold c2. rewrite lookup_insert_ne by congruence. exact H1k. }
    rewrite H2k. simpl.
    rewrite (wfold_replace _ c2 k _ _ H2k).
    rewrite <- (wfold_nullishInit (weight f) c k) by (simpl; f_equal; lia).
    fold c1.
    rewrite (wfold_delete _ c1 oldBucket v H1old).
    assert (H2 : weightedTotal (weight f) c2 =
                 JS.add (weightedTotal (weight f) (delete oldBucket c1))
                        ((weight f) oldBucket (JS.add v (JS.Num (-1))))).
    { unfold c2. apply (wfold_replace _ c1 oldBucket v). exact H1old. }
    rewrite (wfold_delete _ c2 k _ H2k) in H2.
    destruct (weightedTotal (weight f) (delete k c2)),
      (weightedTotal (weight f) (delete oldBucket c1)),
      (default (JS.Num 0) (c !! k)), v; simpl in *; try congruence.
    inversion H2. f_equal. lia.
Qed.

(** The delta of [d] credits, as long as it stays in 16 signed bits. *)
Lemma shl_delta (d : Z) :
  - 2 ^ 15 <= d < 2 ^ 15 -> JS.shl d CreditsShift = d * 2 ^ 16.
Proof.
  intros Hd. unfold JS.shl, CreditsShift.
  change (Z.land 16 31) with 16.
  rewrite (ToInt32_small d) by lia.
  rewrite Z.shiftl_mul_pow2 by lia.
  apply ToInt32_small. lia.
Qed.

Lemma key_value (intros credits : Z) :
  0 <= credits < 2 ^ 15 ->
  keyFromMarkerCount intros credits = credits * 2 ^ 16 + intros.
Proof.
  intros Hc. unfold keyFromMarkerCount, deltaFromType. simpl.
  rewrite shl_credits by lia. lia.
Qed.

Lemma key_decode (intros credits : Z) :
  0 <= intros < 2 ^ 16 -> 0 <= credits < 2 ^ 15 ->
  ic (credits * 2 ^ 16 + intros) = intros /\ cc (credits * 2 ^ 16 + intros) = credits.
Proof.
  intros Hi Hc. split.
  - unfold ic. rewrite band_IntroMask by lia.
    rewrite Z.add_comm, Z.mod_add by lia. apply Z.mod_small. lia.
  - unfold cc. rewrite sar_CreditsShift by lia.
    rewrite Z.add_comm, Z.div_add by lia.
    rewrite Z.div_small by lia. lia.
Qed.

(** The key of an item after [d] more intros, or [d] more credits, is
    the key of the new counts ([d] may be negative). *)
Lemma key_plus_delta (intros credits d : Z) :
  0 <= credits < 2 ^ 15 ->
  keyFromMarkerCount intros credits + deltaFromType d MarkerType.Intro =
    keyFromMarkerCount (intros + d) credits /\
  (0 <= credits + d < 2 ^ 15 ->
   keyFromMarkerCount intros credits + deltaFromType d MarkerType.Credits =
     keyFromMarkerCount intros (credits + d)).
Proof.
  intros Hc. split.
  - rewrite !key_value by lia. unfold deltaFromType. simpl. lia.
  - intros Hcd. rewrite !key_value by lia. unfold deltaFromType. simpl.
    rewrite shl_delta by lia. lia.
Qed.

Lemma weightedTotal_ext (g g' : Z -> JS.num -> JS.num) (c : gmap Z JS.num) :
  (forall k v, c !! k = Some v -> g k v = g' k v) ->
  weightedTotal g c = weightedTotal g' c.
Proof.
  induction c as [| k v c Hk IH] using map_ind; intros Hg; [reflexivity |].
  rewrite !wfold_insert by exact Hk.
  rewrite IH, (Hg k v); [reflexivity | apply lookup_insert_eq |].
  intros j w Hj. apply Hg. rewrite lookup_insert_ne by congruence. exact Hj.
Qed.

(** X1: from the key of an item with [intros] intros and [credits]
    credits, the key moved by the delta of [d] intros decodes to
    [intros + d] intros and the same credits, and the key moved by the
    delta of [d] credits decodes to the same intros and [credits + d]
    credits; [d] may be negative. *)
Theorem key_after_delta (intros credits d : Z) :
  0 <= intros < 2 ^ 16 ->
  0 <= credits < 2 ^ 15 ->
  (0 <= intros + d < 2 ^ 16 ->
   ic (keyFromMarkerCount intros credits + deltaFromType d MarkerType.Intro) = intros + d /\
   cc (keyFromMarkerCount intros credits + deltaFromType d MarkerType.Intro) = credits) /\
  (0 <= credits + d < 2 ^ 15 ->
   ic (keyFromMarkerCount intros credits + deltaFromType d MarkerType.Credits) = intros /\
   cc (keyFromMarkerCount intros credits + deltaFromType d MarkerType.Credits)
   = credits + d).
Proof.
  intros Hi Hc. destruct (key_plus_delta intros credits d Hc) as [Hki Hkc].
  split.
  - intros Hid. rewrite Hki, key_value by lia. apply key_decode; lia.
  - intros Hcd. rewrite (Hkc Hcd), key_value by lia. apply key_decode; lia.
Qed.

Lemma key_after_delta_witness :
  ic (keyFromMarkerCount 1 2 + deltaFromType (-1) MarkerType.Intro) = 0 /\
  cc (keyFromMarkerCount 1 2 + deltaFromType (-1) MarkerType.Credits) = 1.
Proof.
  destruct (key_after_delta 1 2 (-1)) as [Hi Hc]; [lia | lia |].
  split; [apply Hi | apply Hc]; lia.
Defined.

(** X2: the total of markers is the total of intros plus the total of
    credits. *)
Theorem totalMarkers_split (c : gmap Z JS.num) :
  totalMarkers c = JS.add (totalIntros c) (totalCredits c).
Proof.
  change (weightedTotal (weight (fun k => cc k + ic k)) c =
          JS.add (weightedTotal (weight ic) c) (weightedTotal (weight cc) c)).
  induction c as [| k v c Hk IH] using map_ind.
  - reflexivity.
  - rewrite !wfold_insert by exact Hk. rewrite IH.
    destruct (weightedTotal (weight ic) c), (weightedTotal (weight cc) c), v;
      simpl; try reflexivity.
    f_equal. lia.
Qed.

(** X3: in counts that have the bucket of [intros] intros and [credits]
    credits, moving one item by the delta of [d] intros adds [d] to the
    total of intros and to the total of markers, and leaves the total of
    credits. *)
Theorem delta_intro_totals (c : gmap Z JS.num) (intros credits d : Z) (v : JS.num) :
  0 <= intros < 2 ^ 16 ->
  0 <= intros + d < 2 ^ 16 ->
  0 <= credits < 2 ^ 15 ->
  c !! keyFromMarkerCount intros credits = Some v ->
  totalIntros (delta (keyFromMarkerCount intros credits)
                     (deltaFromType d MarkerType.Intro) c)
  = JS.add (totalIntros c) (JS.Num d) /\
  totalCredits (delta (keyFromMarkerCount intros credits)
                      (deltaFromType d MarkerType.Intro) c)
  = totalCredits c /\
  totalMarkers (delta (keyFromMarkerCount intros credits)
                      (deltaFromType d MarkerType.Intro) c)
  = JS.add (totalMarkers c) (JS.Num d).
Proof.
  intros Hi Hid Hc Hold.
  destruct (key_plus_delta intros credits d Hc) as [Hkey _].
  destruct (key_decode intros credits Hi Hc) as [Hic Hcc].
  destruct (key_decode (intros + d) credits Hid Hc) as [Hic' Hcc'].
  rewrite <- !key_value in Hic, Hcc, Hic', Hcc' by lia.
  change (totalIntros ?x) with (weightedTotal (weight ic) x).
  change (totalCredits ?x) with (weightedTotal (weight cc) x).
  change (totalMarkers ?x) with (weightedTotal (weight (fun k => cc k + ic k)) x).
  rewrite !(wfold_delta _ c _ _ v Hold).
  rewrite Hkey, Hic, Hcc, Hic', Hcc'.
  replace (intros + d - intros) with d by lia.
  replace (credits - credits) with 0 by lia.
  replace (credits + (intros + d) - (credits + intros)) with d by lia.
  rewrite add_zero_r. auto.
Qed.

Lemma delta_intro_totals_witness :
  totalIntros (delta (keyFromMarkerCount 0 0) (deltaFromType 1 MarkerType.Intro)
                     (initBase initial))
  = JS.add (totalIntros (initBase initial)) (JS.Num 1).
Proof.
  apply (delta_intro_totals (initBase initial) 0 0 1 (JS.Num 1)); try lia.
  reflexivity.
Defined.

(** X4: in counts that have the bucket of [intros] intros and [credits]
    credits, moving one item by the delta of [d] credits adds [d] to the
    total of credits and to the total of markers, and leaves the total of
    intros. *)
Theorem delta_credits_totals (c : gmap Z JS.num) (intros credits d : Z) (v : JS.num) :
  0 <= intros < 2 ^ 16 ->
  0 <= credits < 2 ^ 15 ->
  0 <= credits + d < 2 ^ 15 ->
  c !! keyFromMarkerCount intros credits = Some v ->
  totalCredits (delta (keyFromMarkerCount intros credits)
                      (deltaFromType d MarkerType.Credits) c)
  = JS.add (totalCredits c) (JS.Num d) /\
  totalIntros (delta (keyFromMarkerCount intros credits)
                     (deltaFromType d MarkerType.Credits) c)
  = totalIntros c /\
  totalMarkers (delta (keyFromMarkerCount intros credits)
                      (deltaFromType d MarkerType.Credits) c)
  = JS.add (totalMarkers c) (JS.Num d).
Proof.
  intros Hi Hc Hcd Hold.
  destruct (key_plus_delta intros credits d Hc) as [_ Hkey].
  specialize (Hkey Hcd).
  destruct (key_decode intros credits Hi Hc) as [Hic Hcc].
  destruct (key_decode intros (credits + d) Hi Hcd) as [Hic' Hcc'].
  rewrite <- !key_value in Hic, Hcc, Hic', Hcc' by lia.
  change (totalIntros ?x) with (weightedTotal (weight ic) x).
  change (totalCredits ?x) with (weightedTotal (weight cc) x).
  change (totalMarkers ?x) with (weightedTotal (weight (fun k => cc k + ic k)) x).
  rewrite !(wfold_delta _ c _ _ v Hold).
  rewrite Hkey, Hic, Hcc, Hic', Hcc'.
  replace (credits + d - credits) with d by lia.
  replace (intros - intros) with 0 by lia.
  replace (credits + d + intros - (credits + intros)) with d by lia.
  rewrite add_zero_r. auto.
Qed.

Lemma delta_credits_totals_witness :
  totalCredits (delta (keyFromMarkerCount 0 0) (deltaFromType 1 MarkerType.Credits)
                      (initBase initial))
  = JS.add (totalCredits (initBase initial)) (JS.Num 1).
Proof.
  apply (delta_credits_totals (initBase initial) 0 0 1 (JS.Num 1)); try lia.
  reflexivity.
Defined.

Lemma minify_lookup (c : gmap Z JS.num) (k : Z) :
  minify c !! k = match c !! k with
                  | Some v => if isZero v then None else Some v
                  | None => None
                  end.
Proof.
  unfold minify. destruct (c !! k) as [v |] eqn:Hk.
  - destruct (isZero v) eqn:Hz.
    + apply map_lookup_filter_None. right. intros x Hx Hp.
      simpl in Hp. congruence.
    + apply map_lookup_filter_Some. auto.
  - apply map_lookup_filter_None. auto.
Qed.

Lemma minify_insert (c : gmap Z JS.num) (k : Z) (v : JS.num) :
  c !! k = None ->
  minify (<[k := v]> c) = if isZero v then minify c else <[k := v]> (minify c).
Proof.
  intros Hk. apply map_eq. intros j. rewrite minify_lookup.
  destruct (Z.eq_dec j k) as [-> | Hj].
  - rewrite lookup_insert_eq. destruct (isZero v).
    + rewrite minify_lookup, Hk. reflexivity.
    + rewrite lookup_insert_eq. reflexivity.
  - rewrite lookup_insert_ne by congruence. destruct (isZero v).
    + rewrite minify_lookup. reflexivity.
    + rewrite lookup_insert_ne by congruence. rewrite minify_lookup. reflexivity.
Qed.

Lemma isZero_true (v : JS.num) : isZero v = true -> v = JS.Num 0.
Proof. destruct v as [[| p | p] |]; simpl; congruence. Qed.

Lemma weightedTotal_minify (g : Z -> JS.num -> JS.num) (c : gmap Z JS.num) :
  (forall k, g k (JS.Num 0) = JS.Num 0) ->
  weightedTotal g (minify c) = weightedTotal g c.
Proof.
  intros Hg. induction c as [| k v c Hk IH] using map_ind; [reflexivity |].
  rewrite minify_insert by exact Hk. rewrite (wfold_insert g c) by exact Hk.
  destruct (isZero v) eqn:Hz.
  - apply isZero_true in Hz. subst v. rewrite Hg, add_zero_r. exact IH.
  - rewrite wfold_insert by (rewrite minify_lookup, Hk; reflexivity).
    rewrite IH. reflexivity.
Qed.

Lemma buckets_size (c : gmap Z JS.num) : buckets c = size (minify c).
Proof.
  unfold buckets. induction c as [| k v c Hk IH] using map_ind.
  - rewrite map_to_list_empty. reflexivity.
  - rewrite map_to_list_insert, filter_cons by exact Hk.
    rewrite minify_insert by exact Hk. simpl.
    destruct (isZero v) eqn:Hz.
    + rewrite decide_False by congruence. exact IH.
    + rewrite decide_True by reflexivity. simpl. rewrite IH.
      symmetry. apply map_size_insert_None.
      rewrite minify_lookup, Hk. reflexivity.
Qed.

(** X5: [#minify()] drops exactly the entries whose count is 0 and keeps
    the others; it changes none of the totals; the number of entries it
    leaves is [buckets()]; and a second [#minify()] changes nothing. *)
Theorem minify_keeps_totals (c : gmap Z JS.num) :
  (forall k, minify c !! k = match c !! k with
                             | Some v => if isZero v then None else Some v
                             | None => None
                             end) /\
  totalItems (minify c) = totalItems c /\
  totalIntros (minify c) = totalIntros c /\
  totalCredits (minify c) = totalCredits c /\
  totalMarkers (minify c) = totalMarkers c /\
  size (minify c) = buckets c /\
  minify (minify c) = minify c.
Proof.
  split; [apply minify_lookup |].
  split; [apply (weightedTotal_minify (fun _ v => v)); reflexivity |].
  split; [apply (weightedTotal_minify (weight ic)); intros; simpl; f_equal; lia |].
  split; [apply (weightedTotal_minify (weight cc)); intros; simpl; f_equal; lia |].
  split; [apply (weightedTotal_minify (weight (fun k => cc k + ic k)));
          intros; simpl; f_equal; lia |].
  split; [symmetry; apply buckets_size |].
  apply map_eq. intros k. rewrite !minify_lookup.
  destruct (c !! k) as [v |]; [| reflexivity].
  destruct (isZero v) eqn:Hz; [reflexivity | rewrite Hz; reflexivity].
Qed.

Lemma inc_then_dec v : JS.add (JS.add v (JS.Num 1)) (JS.Num (-1)) = v.
Proof. destruct v; simpl; f_equal; lia. Qed.

(** X6: moving an item from a bucket that the counts have by a delta, and
    then from the new bucket by the opposite delta, gives back the
    counts, up to an entry with count 0 that [#minify()] removes. *)
Theorem delta_round_trip (c : gmap Z JS.num) (oldBucket d : Z) (v : JS.num) :
  c !! oldBucket = Some v ->
  data (delta (oldBucket + d) (- d) (delta oldBucket d c)) = data c /\
  delta (oldBucket + d) (- d) (delta oldBucket d c) !! oldBucket = Some v.
Proof.
  intros Hold. unfold data.
  destruct (Z.eq_dec d 0) as [-> | Hd].
  - replace (oldBucket + 0) with oldBucket by lia. change (- 0) with 0.
    rewrite !(delta_zero c oldBucket v Hold). auto.
  - destruct (delta_lookups c oldBucket d v Hold Hd) as (H1old & H1new & H1other).
    assert (Hnd : - d <> 0) by lia.
    destruct (delta_lookups (delta oldBucket d c) (oldBucket + d) (- d) _ H1new Hnd)
      as (H2new & H2old & H2other).
    replace (oldBucket + d + - d) with oldBucket in * by lia.
    rewrite H1old in H2old. simpl in H2old. rewrite dec_then_inc in H2old.
    rewrite inc_then_dec in H2new.
    split; [| exact H2old].
    apply map_eq. intros j. rewrite !minify_lookup.
    destruct (Z.eq_dec j oldBucket) as [-> | Hj1].
    { rewrite H2old, Hold. reflexivity. }
    destruct (Z.eq_dec j (oldBucket + d)) as [-> | Hj2].
    { rewrite H2new. destruct (c !! (oldBucket + d)); reflexivity. }
    rewrite H2other, H1other by congruence. reflexivity.
Qed.

Lemma delta_round_trip_witness :
  data (delta (0 + 1) (- 1) (delta 0 1 (initBase initial))) = data (initBase initial).
Proof.
  apply (delta_round_trip (initBase initial) 0 1 (JS.Num 1)). reflexivity.
Defined.

Lemma weight_add (h : Z -> Z) (k : Z) (a b : JS.num) :
  weight h k (JS.add a b) = JS.add (weight h k a) (weight h k b).
Proof. destruct a, b; simpl; f_equal; lia. Qed.

Lemma weightedTotal_addTo (h : Z -> Z) (typeKey : Z) (value : JS.num)
    (collapsed : gmap Z JS.num) :
  weightedTotal (weight h) (addTo typeKey value collapsed) =
  JS.add (weightedTotal (weight h) collapsed) (weight h typeKey value).
Proof.
  unfold addTo. rewrite nullishInit_lookup. simpl.
  rewrite (wfold_replace _ _ typeKey _ _ (nullishInit_lookup collapsed typeKey)).
  rewrite <- (wfold_nullishInit (weight h) collapsed typeKey)
    by (simpl; f_equal; lia).
  rewrite (wfold_delete _ _ typeKey _ (nullishInit_lookup collapsed typeKey)).
  rewrite weight_add, add_assoc. reflexivity.
Qed.

(** Regrouping the counts by [keyFunc] keeps every total that reads the
    key through [keyFunc]. *)
Lemma bucketsBy_weighted (h keyFunc : Z -> Z) (c : gmap Z JS.num) :
  weightedTotal (weight h) (bucketsBy keyFunc c) =
  weightedTotal (weight (fun k => h (keyFunc k))) c.
Proof.
  unfold bucketsBy.
  apply (map_fold_weak_ind
           (fun r m => weightedTotal (weight h) r =
                       weightedTotal (weight (fun k => h (keyFunc k))) m)).
  - reflexivity.
  - intros k v m r Hk IH. rewrite (wfold_insert _ m) by exact Hk.
    destruct (isZero v) eqn:Hz.
    + apply isZero_true in Hz. subst v. simpl.
      replace (h (keyFunc k) * 0) with 0 by lia.
      rewrite add_zero_r. exact IH.
    + rewrite weightedTotal_addTo, IH. reflexivity.
Qed.

Lemma totalItems_weight (c : gmap Z JS.num) :
  totalItems c = weightedTotal (weight (fun _ => 1)) c.
Proof.
  change (weightedTotal (fun _ v => v) c = weightedTotal (weight (fun _ => 1)) c).
  apply weightedTotal_ext. intros k [n |] _; simpl; [f_equal; lia | reflexivity].
Qed.

Lemma seen_zero_false (c : gmap Z JS.num) :
  map_fold (fun _ value seen => seen || isZero value) false c = false ->
  forall k v, c !! k = Some v -> isZero v = false.
Proof.
  apply (map_fold_weak_ind
           (fun (b : bool) (m : gmap Z JS.num) =>
              b = false -> forall k v, m !! k = Some v -> isZero v = false)).
  - intros _ k v Hk. rewrite lookup_empty in Hk. discriminate.
  - intros i x m r Hi IH Hor k v Hk.
    apply orb_false_elim in Hor as [Hr Hx].
    destruct (Z.eq_dec k i) as [-> | Hne].
    + rewrite lookup_insert_eq in Hk. congruence.
    + rewrite lookup_insert_ne in Hk by congruence. eapply IH; eauto.
Qed.

(** X7: the regrouped breakdowns account for every item and every marker:
    [introBuckets()], [creditsBuckets()] and [collapsedBuckets()] have the
    total of items of the counts, and the sum of [n * bucket[n]] over
    their entries is the total of intros, of credits and of markers;
    after [collapsedBuckets()] the counts are minified. *)
Theorem regrouped_totals (c : gmap Z JS.num) :
  (totalItems (introBuckets c) = totalItems c /\
   weightedTotal (weight (fun n => n)) (introBuckets c) = totalIntros c) /\
  (totalItems (creditsBuckets c) = totalItems c /\
   weightedTotal (weight (fun n => n)) (creditsBuckets c) = totalCredits c) /\
  (totalItems (fst (collapsedBuckets c)) = totalItems c /\
   weightedTotal (weight (fun n => n)) (fst (collapsedBuckets c)) = totalMarkers c /\
   snd (collapsedBuckets c) = minify c).
Proof.
  unfold introBuckets, creditsBuckets, collapsedBuckets. simpl.
  rewrite !totalItems_weight, !bucketsBy_weighted.
  repeat split; try reflexivity.
  - apply weightedTotal_ext. intros k [n |] _; simpl; [f_equal; lia | reflexivity].
  - destruct (map_fold _ false c) eqn:Hseen; [reflexivity |].
    symmetry. apply map_filter_id. intros k v Hk. simpl.
    eapply seen_zero_false; eauto.
Qed.

Lemma band_low (x m : Z) :
  0 <= m < 2 ^ 31 -> JS.band x m = Z.land x m.
Proof.
  intros Hm. unfold JS.band. rewrite (ToInt32_small m) by lia.
  assert (Hmm : Z.land m (Z.ones 32) = m).
  { rewrite Z.land_ones by lia. apply Z.mod_small. lia. }
  rewrite <- Hmm at 1. rewrite <- Hmm at 2.
  rewrite !(Z.land_comm m), !Z.land_assoc. f_equal.
  rewrite !Z.land_ones by lia. unfold JS.ToInt32.
  rewrite Zminus_mod, Zmod_mod, <- Zminus_mod.
  f_equal. lia.
Qed.

Lemma band_bor (a b m : Z) :
  0 <= m < 2 ^ 31 ->
  (JS.band (JS.bor a b) m =? 0) = (JS.band a m =? 0) && (JS.band b m =? 0).
Proof.
  intros Hm. rewrite (band_low (JS.bor a b)) by exact Hm.
  unfold JS.bor, JS.band. rewrite (ToInt32_small m) by lia.
  rewrite Z.land_lor_distr_l.
  destruct (Z.eqb_spec (Z.lor (Z.land (JS.ToInt32 a) m) (Z.land (JS.ToInt32 b) m)) 0)
    as [Hz | Hz].
  - apply Z.lor_eq_0_iff in Hz as [-> ->]. reflexivity.
  - symmetry. apply andb_false_iff.
    destruct (Z.eqb_spec (Z.land (JS.ToInt32 a) m) 0) as [Ha |]; [| auto].
    destruct (Z.eqb_spec (Z.land (JS.ToInt32 b) m) 0) as [Hb |]; [| auto].
    exfalso. apply Hz. rewrite Ha, Hb. reflexivity.
Qed.

(** X8: [MarkerEnum.typeMatch] distributes over [|] for all enum values,
    and against [MarkerEnum.All] it accepts exactly the supported marker
    types. *)
Theorem typeMatch_or (markerType : string) (a b : Z) :
  MarkerType.typeMatch markerType (JS.bor a b) =
    MarkerType.typeMatch markerType a || MarkerType.typeMatch markerType b /\
  MarkerType.typeMatch markerType MarkerType.EnumAll =
    MarkerType.supportedMarkerType markerType.
Proof.
  split.
  - unfold MarkerType.typeMatch.
    destruct (String.eqb markerType MarkerType.Intro);
      [rewrite band_bor by (unfold MarkerType.EnumIntro; lia);
       apply negb_andb |].
    destruct (String.eqb markerType MarkerType.Credits);
      [rewrite band_bor by (unfold MarkerType.EnumCredits; lia);
       apply negb_andb |].
    destruct (String.eqb markerType MarkerType.Ad);
      [rewrite band_bor by (unfold MarkerType.EnumAd; lia);
       apply negb_andb | reflexivity].
  - unfold MarkerType.typeMatch, MarkerType.supportedMarkerType.
    destruct (String.eqb_spec markerType MarkerType.Intro) as [-> | H1];
      [reflexivity |].
    destruct (String.eqb_spec markerType MarkerType.Credits) as [-> | H2];
      [reflexivity |].
    destruct (String.eqb_spec markerType MarkerType.Ad) as [-> | H3];
      [reflexivity |].
    symmetry. apply bool_decide_eq_false.
    unfold MarkerType._supportedMarkerTypes.
    rewrite !elem_of_cons, elem_of_nil. tauto.
Qed.

End BreakdownMore.

(** ** The commands on errors, and what they leave alone *)

Module CommandFacts.

Import PlexDb CoreCommands SortFacts BoundsFacts.





End CommandFacts.

(** ** A committed edit keeps the invariants of the parent *)

Module EditInvariant.

Import PlexDb CoreCommands SortFacts BoundsFacts.

Lemma lookup_map {A B : Type} (f : A -> B) (l : list A) (j : nat) :
  List.map f l !! j = f <$> (l !! j).
Proof.
  revert j. induction l as [| a l IH]; intros [| j]; simpl; auto.
Qed.

Lemma In_lookup {A : Type} (l : list A) (x : A) :
  In x l -> exists j, l !! j = Some x.
Proof.
  induction l as [| a l IH]; intros Hin; [destruct Hin |].
  destruct Hin as [-> | Hin]; [exists 0%nat; reflexivity |].
  destruct (IH Hin) as [j Hj]. exists (S j). exact Hj.
Qed.

Lemma lookup_In {A : Type} (l : list A) (j : nat) (x : A) :
  l !! j = Some x -> In x l.
Proof.
  revert j. induction l as [| a l IH]; intros [| j] Hj; simpl in *;
    try discriminate.
  - injection Hj as ->. auto.
  - right. eapply IH. exact Hj.
Qed.

Lemma lookup_indices (n j : nat) (z : Z) :
  List.map Z.of_nat (List.seq 0 n) !! j = Some z -> z = Z.of_nat j.
Proof.
  assert (Hgen : forall a, List.map Z.of_nat (List.seq a n) !! j = Some z ->
                           z = Z.of_nat (a + j)).
  { revert j. induction n as [| n IH]; intros j a; [destruct j; discriminate |].
    destruct j as [| j]; simpl.
    - intros [= <-]. f_equal. lia.
    - intros Hj. rewrite (IH j (S a) Hj). f_equal. lia. }
  apply Hgen.
Qed.

(** Two sorted lists with the same elements and distinct keys are equal. *)
Lemma sorted_unique {A : Type} (key : A -> Z) (l1 l2 : list A) :
  StronglySorted (le_key key) l1 -> StronglySorted (le_key key) l2 ->
  Permutation l1 l2 -> List.NoDup (List.map key l1) -> l1 = l2.
Proof.
  revert l2. induction l1 as [| a r1 IH]; intros l2 Hs1 Hs2 Hperm Hnd.
  - apply Permutation_nil in Hperm. auto.
  - destruct l2 as [| b r2].
    { symmetry in Hperm. apply Permutation_nil in Hperm. discriminate. }
    apply StronglySorted_inv in Hs1 as [Hs1 Ha].
    apply StronglySorted_inv in Hs2 as [Hs2 Hb].
    rewrite List.Forall_forall in Ha, Hb.
    assert (Hab : a = b).
    { assert (Ha2 : In a (b :: r2))
        by (eapply Permutation_in; [exact Hperm | left; reflexivity]).
      assert (Hb1 : In b (a :: r1))
        by (eapply Permutation_in; [symmetry; exact Hperm | left; reflexivity]).
      destruct Ha2 as [-> | Ha2]; [reflexivity |].
      destruct Hb1 as [-> | Hb1]; [reflexivity |].
      specialize (Ha b Hb1). specialize (Hb a Ha2). unfold le_key in *.
      apply (DeleteFacts.NoDup_map_eq key (a :: r1)); simpl; auto. lia. }
    subst b. f_equal. apply IH; auto.
    + eapply Permutation_cons_inv. exact Hperm.
    + simpl in Hnd. apply List.NoDup_cons_iff in Hnd. tauto.
Qed.

Lemma sort_by_unique {A : Type} (key : A -> Z) (l l' : list A) :
  Permutation l l' -> List.NoDup (List.map key l) ->
  sort_by key l = sort_by key l'.
Proof.
  intros Hperm Hnd. apply (sorted_unique key); try apply sort_by_sorted.
  - rewrite !sort_by_Permutation. exact Hperm.
  - eapply Permutation.Permutation_NoDup; [| exact Hnd].
    apply Permutation_map. symmetry. apply sort_by_Permutation.
Qed.

Lemma NoDup_pairwise {A : Type} (g : A -> Z) (l : list A) :
  List.NoDup l ->
  (forall x y, In x l -> In y l -> x <> y -> g x <> g y) ->
  List.NoDup (List.map g l).
Proof.
  induction l as [| a l IH]; intros Hnd Hg; simpl; [constructor |].
  apply List.NoDup_cons_iff in Hnd as [Hnotin Hnd].
  apply List.NoDup_cons_iff. split.
  - intros Hin. apply in_map_iff in Hin as (y & Hy & Hin).
    apply (Hg y a); simpl; auto. congruence.
  - apply IH; auto. intros x y Hx Hy. apply Hg; simpl; auto.
Qed.

(** Replacing the marker of the edit in place is a map over the list. *)
Lemma insert_withBounds (markerId startMs endMs : Z) (l : list MarkerRow) (k : nat)
    (m : MarkerRow) :
  List.NoDup (List.map id l) -> l !! k = Some m -> id m = markerId ->
  <[k := setInterval m startMs endMs]> l = List.map (withBounds markerId startMs endMs) l.
Proof.
  intros Hnd Hk Hid. revert k Hk.
  induction l as [| a l IH]; intros k Hk; [discriminate |].
  simpl in Hnd. apply List.NoDup_cons_iff in Hnd as [Hnotin Hnd].
  destruct k as [| k]; simpl in *.
  - injection Hk as ->. unfold withBounds at 1. rewrite Hid, Z.eqb_refl.
    f_equal. symmetry.
    transitivity (List.map (fun x : MarkerRow => x) l); [| apply map_id].
    apply map_ext_in.
    intros x Hx. unfold withBounds.
    destruct (id x =? markerId) eqn:E; [| reflexivity].
    exfalso. apply Hnotin. apply Z.eqb_eq in E. rewrite Hid, <- E.
    apply in_map. exact Hx.
  - rewrite (IH Hnd k Hk). f_equal. unfold withBounds.
    destruct (id a =? markerId) eqn:E; [| reflexivity].
    exfalso. apply Hnotin. apply Z.eqb_eq in E. rewrite E, <- Hid.
    apply in_map. eapply lookup_In. exact Hk.
Qed.

Lemma withBounds_id (markerId startMs endMs : Z) (x : MarkerRow) :
  id (withBounds markerId startMs endMs x) = id x.
Proof. unfold withBounds. destruct (_ =? _); reflexivity. Qed.

Lemma withBounds_episode_id (markerId startMs endMs : Z) (x : MarkerRow) :
  episode_id (withBounds markerId startMs endMs x) = episode_id x.
Proof. unfold withBounds. destruct (_ =? _); reflexivity. Qed.

Lemma withBounds_index (markerId startMs endMs : Z) (x : MarkerRow) :
  index (withBounds markerId startMs endMs x) = index x.
Proof. unfold withBounds. destruct (_ =? _); reflexivity. Qed.

(** What a loop without a throw returns. *)
Lemma checkOverlap_tagged (markerId startMs endMs : Z) (l : list MarkerRow) :
  forall i n newIndex tagged,
    checkOverlap markerId startMs endMs i n l = inr (newIndex, tagged) ->
    tagged = tagFrom i l /\
    (forall x, In x l -> overlapsOther markerId startMs endMs x = false).
Proof.
  induction l as [| a l IH]; intros i n newIndex tagged; simpl.
  - intros [= <- <-]. split; [reflexivity | tauto].
  - destruct (overlapsOther markerId startMs endMs a) eqn:Ha; [discriminate |].
    destruct (checkOverlap _ _ _ _ _ l) as [e | [n' tagged']] eqn:Hrec;
      [discriminate |].
    intros [= <- <-]. destruct (IH _ _ _ _ Hrec) as [-> Hall].
    split; [reflexivity |]. intros x [<- | Hx]; auto.
Qed.

Lemma checkOverlap_newIndex_absent (markerId startMs endMs : Z) (l : list MarkerRow) :
  forall i n newIndex tagged,
    checkOverlap markerId startMs endMs i n l = inr (newIndex, tagged) ->
    (forall x, In x l -> id x <> markerId) -> newIndex = n.
Proof.
  induction l as [| a l IH]; intros i n newIndex tagged; simpl.
  - intros [= <- <-] _. reflexivity.
  - destruct (overlapsOther markerId startMs endMs a); [discriminate |].
    destruct (checkOverlap _ _ _ _ _ l) as [e | [n' tagged']] eqn:Hrec;
      [discriminate |].
    intros [= <- <-] Hall. rewrite (IH _ _ _ _ Hrec) by (intros; apply Hall; simpl; auto).
    destruct (id a =? markerId) eqn:E; [| reflexivity].
    exfalso. apply (Hall a); [left; reflexivity | lia].
Qed.

Lemma checkOverlap_newIndex (markerId startMs endMs : Z) (l : list MarkerRow) :
  forall i n newIndex tagged,
    List.NoDup (List.map id l) ->
    (exists x, In x l /\ id x = markerId) ->
    checkOverlap markerId startMs endMs i n l = inr (newIndex, tagged) ->
    newIndex = i + positionOf markerId l.
Proof.
  induction l as [| a l IH]; intros i n newIndex tagged Hnd (x & Hx & Hid);
    [destruct Hx |].
  simpl in Hnd. apply List.NoDup_cons_iff in Hnd as [Hnotin Hnd].
  simpl. destruct (overlapsOther markerId startMs endMs a); [discriminate |].
  destruct (checkOverlap _ _ _ _ _ l) as [e | [n' tagged']] eqn:Hrec;
    [discriminate |].
  intros [= <- <-].
  destruct (id a =? markerId) eqn:E.
  - rewrite (checkOverlap_newIndex_absent _ _ _ _ _ _ _ _ Hrec); [lia |].
    intros y Hy Hyid. apply Hnotin. apply Z.eqb_eq in E. rewrite E, <- Hyid.
    apply in_map. exact Hy.
  - destruct Hx as [-> | Hx]; [lia |].
    rewrite (IH _ _ _ _ Hnd (ex_intro _ x (conj Hx Hid)) Hrec). lia.
Qed.

(** The second loop is a map over the rows. *)
Lemma adjustIndexes_map (tagged : list (MarkerRow * Z)) (rows : list MarkerRow) :
  adjustIndexes tagged rows = List.map (adjustRow tagged) rows.
Proof.
  unfold adjustIndexes, adjustRow. revert rows.
  induction tagged as [| mk tagged IH]; intros rows; simpl.
  - symmetry. apply map_id.
  - rewrite IH. destruct (index (fst mk) =? snd mk); [reflexivity |].
    unfold updateMarkerIndex. rewrite map_map. reflexivity.
Qed.

Lemma adjustRow_notin (tagged : list (MarkerRow * Z)) (r : MarkerRow) :
  (forall mk, In mk tagged -> id (fst mk) <> id r) -> adjustRow tagged r = r.
Proof.
  unfold adjustRow.
  induction tagged as [| mk tagged IH]; intros Hall; simpl; [reflexivity |].
  destruct (index (fst mk) =? snd mk).
  - apply IH. intros; apply Hall; simpl; auto.
  - destruct (id r =? id (fst mk)) eqn:E.
    + exfalso. apply (Hall mk); [left; reflexivity | lia].
    + apply IH. intros; apply Hall; simpl; auto.
Qed.

Lemma adjustRow_in (tagged : list (MarkerRow * Z)) (r x : MarkerRow) (i : Z) :
  List.NoDup (List.map (fun mk => id (fst mk)) tagged) ->
  In (x, i) tagged -> id x = id r ->
  adjustRow tagged r = if index x =? i then r else setIndex r i.
Proof.
  induction tagged as [| mk tagged IH]; intros Hnd Hin Hid; [destruct Hin |].
  simpl in Hnd. apply List.NoDup_cons_iff in Hnd as [Hnotin Hnd].
  change (adjustRow (mk :: tagged) r)
    with (adjustRow tagged
            (if index (fst mk) =? snd mk then r
             else if id r =? id (fst mk) then setIndex r (snd mk) else r)).
  assert (Hrest : forall r', id r' = id (fst mk) -> adjustRow tagged r' = r').
  { intros r' Hr'. apply adjustRow_notin. intros mk' Hmk' Heq.
    apply Hnotin. rewrite <- Hr', <- Heq.
    apply (in_map (fun mk => id (fst mk))). exact Hmk'. }
  destruct Hin as [-> | Hin]; simpl.
  - rewrite <- Hid, Z.eqb_refl.
    destruct (index x =? i); apply Hrest; simpl; congruence.
  - assert (Hne : id r <> id (fst mk)).
    { intros Heq. apply Hnotin. rewrite <- Heq, <- Hid.
      apply (in_map (fun mk => id (fst mk)) _ (x, i)). exact Hin. }
    apply Z.eqb_neq in Hne. rewrite Hne.
    destruct (index (fst mk) =? snd mk); apply IH; assumption.
Qed.

Lemma tagFrom_ids (i : Z) (l : list MarkerRow) :
  List.map (fun mk => id (fst mk)) (tagFrom i l) = List.map id l.
Proof.
  revert i. induction l as [| a l IH]; intros i; simpl; [reflexivity |].
  rewrite IH. reflexivity.
Qed.

Lemma tagFrom_fst (i : Z) (l : list MarkerRow) (mk : MarkerRow * Z) :
  In mk (tagFrom i l) -> In (fst mk) l.
Proof.
  revert i. induction l as [| a l IH]; intros i; simpl; [tauto |].
  intros [<- | Hin]; [left; reflexivity | right; eapply IH; exact Hin].
Qed.

Lemma tagFrom_position (i : Z) (l : list MarkerRow) (x : MarkerRow) :
  List.NoDup (List.map id l) -> In x l ->
  In (x, i + positionOf (id x) l) (tagFrom i l).
Proof.
  revert i. induction l as [| a l IH]; intros i Hnd Hin; [destruct Hin |].
  simpl in Hnd. apply List.NoDup_cons_iff in Hnd as [Hnotin Hnd].
  simpl. destruct Hin as [-> | Hin].
  - rewrite Z.eqb_refl. left. f_equal. lia.
  - destruct (id a =? id x) eqn:E.
    + exfalso. apply Hnotin. apply Z.eqb_eq in E. rewrite E.
      apply in_map. exact Hin.
    + right. replace (i + (1 + positionOf (id x) l))
        with (i + 1 + positionOf (id x) l) by lia.
      apply IH; assumption.
Qed.

(** With unique ids, the positions of the markers of a list are
    [0, 1, ...]. *)
Lemma positions_seq (l : list MarkerRow) :
  List.NoDup (List.map id l) ->
  List.map (fun x => positionOf (id x) l) l = List.map Z.of_nat (List.seq 0 (length l)).
Proof.
  assert (Hgen : forall (a : nat),
             List.NoDup (List.map id l) ->
             List.map (fun x => Z.of_nat a + positionOf (id x) l) l =
             List.map Z.of_nat (List.seq a (length l))).
  { induction l as [| y l IH]; intros a Hnd; [reflexivity |].
    simpl in Hnd. apply List.NoDup_cons_iff in Hnd as [Hnotin Hnd].
    simpl. rewrite Z.eqb_refl. f_equal; [lia |].
    rewrite <- (IH (S a) Hnd). apply map_ext_in. intros x Hx.
    destruct (id y =? id x) eqn:E; [| lia].
    exfalso. apply Hnotin. apply Z.eqb_eq in E. rewrite E.
    apply in_map. exact Hx. }
  intros Hnd. rewrite <- (Hgen 0%nat Hnd).
  apply map_ext. intros x. lia.
Qed.

Lemma getEpisodeMarkers_ids_NoDup (rows : list MarkerRow) (episodeId : Z) :
  List.NoDup (List.map id rows) ->
  List.NoDup (List.map id (getEpisodeMarkers rows episodeId)).
Proof.
  intros Hnd. unfold getEpisodeMarkers.
  eapply Permutation.Permutation_NoDup.
  - apply Permutation_map. symmetry. apply sort_by_Permutation.
  - apply DeleteFacts.NoDup_map_filter. exact Hnd.
Qed.

Section Edit.

Variables (st : State) (markerId startMs endMs userCreated : Z) (m : MarkerRow) (n : nat).

Let rows := taggings st.
Let parent := episode_id m.
Let siblings := List.filter (fun x => episode_id x =? episode_id m) (taggings st).
Let listing := getEpisodeMarkers (taggings st) (episode_id m).
Let edit := withBounds markerId startMs endMs.
Let sorted := sort_by start (List.map (withBounds markerId startMs endMs)
                                      (getEpisodeMarkers (taggings st) (episode_id m))).
Let finalRow (t : MarkerRow) : MarkerRow :=
  if episode_id t =? episode_id m
  then setIndex (withBounds markerId startMs endMs t)
                (positionOf (id t)
                   (sort_by start (List.map (withBounds markerId startMs endMs)
                                            (getEpisodeMarkers (taggings st)
                                                               (episode_id m)))))
  else t.

Hypothesis Hnd : List.NoDup (List.map id (taggings st)).
Hypothesis Hget : getSingleMarker (taggings st) markerId = Some m.
Hypothesis Hbounds : 0 <= startMs < endMs.
Hypothesis Hidx :
  List.map index (getEpisodeMarkers (taggings st) (episode_id m)) =
  List.map Z.of_nat (List.seq 0 n).
Hypothesis Hvalid :
  forall x, In x (taggings st) -> episode_id x = episode_id m -> start x < end_ x.
Hypothesis Hdisj :
  forall x y, In x (taggings st) -> In y (taggings st) ->
              episode_id x = episode_id m -> episode_id y = episode_id m ->
              id x <> id y -> end_ x <= start y \/ end_ y <= start x.
Hypothesis Hno :
  isOverlap (fst (editMarker st markerId startMs endMs userCreated)) = false.

Lemma edited_in_table : In m rows /\ id m = markerId.
Proof. apply getSingleMarker_Some. exact Hget. Qed.

Lemma same_id_same_row (x y : MarkerRow) :
  In x rows -> In y rows -> id x = id y -> x = y.
Proof. apply (DeleteFacts.NoDup_map_eq id rows). exact Hnd. Qed.

Lemma listing_ids : List.NoDup (List.map id listing).
Proof. apply getEpisodeMarkers_ids_NoDup. exact Hnd. Qed.

Lemma listing_length : length listing = n.
Proof.
  unfold listing. rewrite <- (List.length_map index), Hidx.
  rewrite List.length_map. apply List.length_seq.
Qed.

Lemma edited_position :
  exists k, listing !! k = Some m /\ index m = Z.of_nat k.
Proof.
  destruct edited_in_table as [Hm _].
  assert (Hin : In m listing) by (apply getEpisodeMarkers_In; auto).
  destruct (In_lookup _ _ Hin) as [k Hk]. exists k. split; [exact Hk |].
  apply (lookup_indices n k). fold listing in Hidx.
  rewrite <- Hidx, lookup_map, Hk. reflexivity.
Qed.

Lemma sorted_In (x : MarkerRow) :
  In x sorted <-> exists t, In t rows /\ episode_id t = parent /\ x = edit t.
Proof.
  unfold sorted. rewrite sort_by_In, in_map_iff. split.
  - intros (t & <- & Ht). apply getEpisodeMarkers_In in Ht. exists t. tauto.
  - intros (t & Ht & Hep & ->). exists t. split; [reflexivity |].
    apply getEpisodeMarkers_In. auto.
Qed.

Lemma sorted_ids : List.NoDup (List.map id sorted).
Proof.
  unfold sorted. eapply Permutation.Permutation_NoDup.
  - apply Permutation_map. symmetry. apply sort_by_Permutation.
  - rewrite map_map. erewrite map_ext; [apply listing_ids |].
    intros x. apply withBounds_id.
Qed.

Lemma sorted_length : length sorted = n.
Proof.
  unfold sorted. rewrite sort_by_length, List.length_map. apply listing_length.
Qed.

(** How the command runs when nothing overlaps. *)
Lemma edit_runs :
  editMarker st markerId startMs endMs userCreated =
  (inr (setInterval m startMs endMs),
   mkState (adjustIndexes (tagFrom 0 sorted)
              (editMarkerRow rows markerId (positionOf markerId sorted) startMs endMs))
           (cacheCalls st)
           (actions st ++ [RecordEdit (setInterval m startMs endMs)
                                      (start m) (end_ m)])) /\
  (forall x, In x sorted -> overlapsOther markerId startMs endMs x = false).
Proof.
  destruct edited_in_table as [Hm Hid].
  destruct edited_position as (k & Hk & Hik).
  assert (Hb : checkMarkerBounds startMs endMs = inr tt)
    by (apply checkMarkerBounds_ok; exact Hbounds).
  assert (Hassign : assignBounds listing (index m) startMs endMs =
                    Some (List.map edit listing)).
  { unfold assignBounds. destruct (index m <? 0) eqn:Hneg; [lia |].
    rewrite Hik, Nat2Z.id, Hk. f_equal.
    apply insert_withBounds; auto. apply listing_ids. }
  revert Hno. unfold editMarker. rewrite Hb, Hget. cbv zeta.
  fold listing. rewrite Hassign.
  change (sort_by start (List.map edit listing)) with sorted.
  destruct (checkOverlap markerId startMs endMs 0 0 sorted)
    as [e | [newIndex tagged]] eqn:Hchk.
  - intros Hov. apply EditFacts.checkOverlap_error in Hchk.
    simpl in Hov, Hchk. congruence.
  - intros _. destruct (checkOverlap_tagged _ _ _ _ _ _ _ _ Hchk) as [-> Hall].
    split; [| exact Hall].
    rewrite (checkOverlap_newIndex _ _ _ _ _ _ _ _ sorted_ids
               (ex_intro _ (edit m)
                  (conj (proj2 (sorted_In (edit m))
                               (ex_intro _ m (conj Hm (conj eq_refl eq_refl))))
                        (eq_trans (withBounds_id _ _ _ m) Hid)))
               Hchk).
    reflexivity.
Qed.

Lemma sibling_clear (y : MarkerRow) :
  In y rows -> episode_id y = parent -> id y <> markerId ->
  ~ (end_ y >= startMs /\ start y <= endMs).
Proof.
  intros Hy Hep Hne [H1 H2].
  destruct edit_runs as [_ Hall].
  assert (Hin : In y sorted).
  { apply sorted_In. exists y. repeat split; auto.
    unfold edit, withBounds. apply Z.eqb_neq in Hne. rewrite Hne. reflexivity. }
  specialize (Hall y Hin). unfold overlapsOther in Hall.
  apply Z.eqb_neq in Hne. rewrite Hne in Hall. simpl in Hall.
  rewrite andb_true_r in Hall. apply andb_false_iff in Hall. lia.
Qed.

(** Two rows of the parent, after the edit, do not overlap. *)
Lemma edited_disjoint (x y : MarkerRow) :
  In x rows -> In y rows -> episode_id x = parent -> episode_id y = parent ->
  id x <> id y ->
  end_ (edit x) <= start (edit y) \/ end_ (edit y) <= start (edit x).
Proof.
  intros Hx Hy Hxe Hye Hne. unfold edit, withBounds.
  destruct (Z.eqb_spec (id x) markerId) as [Hxm | Hxm];
    destruct (Z.eqb_spec (id y) markerId) as [Hym | Hym]; simpl.
  - congruence.
  - pose proof (sibling_clear y Hy Hye Hym). lia.
  - pose proof (sibling_clear x Hx Hxe Hxm). lia.
  - apply Hdisj; auto.
Qed.

Lemma edited_valid (x : MarkerRow) :
  In x rows -> episode_id x = parent -> start (edit x) < end_ (edit x).
Proof.
  intros Hx Hxe. unfold edit, withBounds.
  destruct (id x =? markerId); simpl; [lia | apply Hvalid; auto].
Qed.

Lemma edited_starts : List.NoDup (List.map start (List.map edit siblings)).
Proof.
  rewrite map_map. apply NoDup_pairwise.
  - apply (NoDup_map_inv id). apply DeleteFacts.NoDup_map_filter. exact Hnd.
  - intros x y Hx Hy Hxy.
    apply filter_In in Hx as [Hx Hxe]. apply filter_In in Hy as [Hy Hye].
    apply Z.eqb_eq in Hxe, Hye.
    assert (Hne : id x <> id y)
      by (intros Heq; apply Hxy; apply same_id_same_row; auto).
    pose proof (edited_disjoint x y Hx Hy Hxe Hye Hne).
    pose proof (edited_valid x Hx Hxe). pose proof (edited_valid y Hy Hye).
    fold edit. lia.
Qed.

Lemma finalRow_id (t : MarkerRow) : id (finalRow t) = id t.
Proof.
  unfold finalRow. destruct (_ =? _); [| reflexivity].
  simpl. apply withBounds_id.
Qed.

Lemma finalRow_episode_id (t : MarkerRow) : episode_id (finalRow t) = episode_id t.
Proof.
  unfold finalRow. destruct (_ =? _); [| reflexivity].
  simpl. apply withBounds_episode_id.
Qed.

(** The rows after the edit. *)
Lemma edit_rows :
  taggings (snd (editMarker st markerId startMs endMs userCreated)) =
  List.map finalRow rows.
Proof.
  destruct edit_runs as [-> _]. simpl.
  rewrite adjustIndexes_map. unfold editMarkerRow. rewrite map_map.
  apply map_ext_in. intros t Ht.
  destruct edited_in_table as [Hm Hid].
  unfold finalRow. fold sorted.
  destruct (Z.eqb_spec (episode_id t) (episode_id m)) as [Hep | Hep].
  - assert (Hin : In (edit t) sorted) by (apply sorted_In; exists t; auto).
    pose proof (tagFrom_position 0 sorted (edit t) sorted_ids Hin) as Htag.
    unfold edit in Htag at 2. rewrite withBounds_id in Htag. simpl in Htag.
    fold edit.
    destruct (Z.eqb_spec (id t) markerId) as [Htm | Htm].
    + assert (t = m) by (apply same_id_same_row; auto; congruence). subst t.
      rewrite (adjustRow_in _ _ (edit m) (positionOf (id m) sorted));
        [| rewrite tagFrom_ids; apply sorted_ids | exact Htag
         | unfold edit; rewrite withBounds_id; reflexivity].
      unfold edit, withBounds. rewrite Hid, Z.eqb_refl.
      destruct (_ =? _); reflexivity.
    + rewrite (adjustRow_in _ _ (edit t) (positionOf (id t) sorted));
        [| rewrite tagFrom_ids; apply sorted_ids | exact Htag
         | unfold edit; rewrite withBounds_id; reflexivity].
      unfold edit, withBounds. apply Z.eqb_neq in Htm. rewrite Htm.
      destruct (Z.eqb_spec (index t) (positionOf (id t) sorted)) as [Hi |];
        [| reflexivity].
      rewrite <- Hi. symmetry. apply DeleteFacts.setIndex_same.
  - assert (Htm : id t <> markerId).
    { intros Heq. apply Hep. f_equal. apply same_id_same_row; auto. congruence. }
    apply Z.eqb_neq in Htm. rewrite Htm.
    apply adjustRow_notin. intros mk Hmk Heq.
    apply tagFrom_fst in Hmk. apply sorted_In in Hmk as (t' & Ht' & Hep' & Hmk).
    rewrite Hmk in Heq. unfold edit in Heq. rewrite withBounds_id in Heq.
    apply Hep. rewrite <- (same_id_same_row t' t Ht' Ht Heq). exact Hep'.
Qed.

(** The listing of the parent after the edit: the sorted markers, each
    with its position as index. *)
Lemma edit_listing :
  getEpisodeMarkers (List.map finalRow rows) parent =
  List.map (fun x => setIndex x (positionOf (id x) sorted)) sorted.
Proof.
  unfold getEpisodeMarkers at 1.
  rewrite (DeleteFacts.filter_map_comm finalRow)
    by (intros x; rewrite finalRow_episode_id; reflexivity).
  change (List.filter (fun x => episode_id x =? parent) rows) with siblings.
  assert (Hmap : List.map finalRow siblings =
                 List.map (fun x => setIndex x (positionOf (id x) sorted))
                          (List.map edit siblings)).
  { rewrite map_map. apply map_ext_in. intros t Ht.
    apply filter_In in Ht as [_ Hep]. unfold finalRow. rewrite Hep.
    fold sorted. fold edit. unfold edit at 3. rewrite withBounds_id. reflexivity. }
  rewrite Hmap, sort_by_map by reflexivity.
  f_equal. unfold sorted.
  apply sort_by_unique; [| apply edited_starts].
  apply Permutation_map. unfold getEpisodeMarkers.
  symmetry. apply sort_by_Permutation.
Qed.

(** X11: on a table with unique marker ids whose parent satisfies I1, I2
    and [start < end] for its markers, an edit with valid bounds that is
    not rejected for an overlap commits; the row of the marker has the new
    bounds; the indices of the parent, in the order of [start], are again
    [0..n-1]; no two markers of the parent overlap and each has
    [start < end]; the rows of other parents are as they were; and the
    ids are still unique. *)
Theorem editMarker_keeps_invariants :
  fst (editMarker st markerId startMs endMs userCreated)
  = inr (setInterval m startMs endMs) /\
  (exists i, getSingleMarker
               (taggings (snd (editMarker st markerId startMs endMs userCreated)))
               markerId
             = Some (setIndex (setInterval m startMs endMs) i)) /\
  List.map index
    (getEpisodeMarkers
       (taggings (snd (editMarker st markerId startMs endMs userCreated)))
       (episode_id m))
  = List.map Z.of_nat (List.seq 0 n) /\
  (forall x y,
     In x (taggings (snd (editMarker st markerId startMs endMs userCreated))) ->
     In y (taggings (snd (editMarker st markerId startMs endMs userCreated))) ->
     episode_id x = episode_id m -> episode_id y = episode_id m ->
     (start x < end_ x) /\
     (id x <> id y -> end_ x <= start y \/ end_ y <= start x)) /\
  (forall x, In x (taggings st) -> episode_id x <> episode_id m ->
     getSingleMarker
       (taggings (snd (editMarker st markerId startMs endMs userCreated))) (id x)
     = Some x) /\
  List.NoDup
    (List.map id (taggings (snd (editMarker st markerId startMs endMs userCreated)))).
Proof.
  rewrite edit_rows.
  destruct edited_in_table as [Hm Hid].
  split; [| split; [| split; [| split; [| split]]]].
  - destruct edit_runs as [-> _]. reflexivity.
  - exists (positionOf markerId sorted).
    rewrite <- Hid at 1.
    rewrite (DeleteFacts.find_map_unique finalRow rows m finalRow_id Hnd Hm).
    f_equal. unfold finalRow. rewrite Z.eqb_refl. fold sorted.
    unfold withBounds. rewrite Hid, Z.eqb_refl. reflexivity.
  - fold parent. rewrite edit_listing, map_map. simpl.
    rewrite (positions_seq sorted sorted_ids), sorted_length. reflexivity.
  - intros x y Hx Hy Hxe Hye.
    apply in_map_iff in Hx as (x0 & <- & Hx0).
    apply in_map_iff in Hy as (y0 & <- & Hy0).
    rewrite finalRow_episode_id in Hxe, Hye. rewrite !finalRow_id.
    unfold finalRow. apply Z.eqb_eq in Hxe, Hye. rewrite Hxe, Hye. simpl.
    apply Z.eqb_eq in Hxe, Hye.
    split; [apply edited_valid; auto | apply edited_disjoint; auto].
  - intros x Hx Hep.
    rewrite (DeleteFacts.find_map_unique finalRow rows x finalRow_id Hnd Hx).
    f_equal. unfold finalRow. apply Z.eqb_neq in Hep. rewrite Hep. reflexivity.
  - rewrite map_map. erewrite map_ext; [exact Hnd |]. apply finalRow_id.
Qed.

End Edit.

Lemma editMarker_keeps_invariants_witness :
  List.map index
    (getEpisodeMarkers
       (taggings (snd (editMarker Scenario.threeMarkers 3 350000 355000 0))) 14)
  = [0; 1; 2] /\
  getSingleMarker (taggings (snd (editMarker Scenario.threeMarkers 3 350000 355000 0))) 3
  = Some (mkRow 3 14 1 350000 355000 "intro" false).
Proof.
  assert (Hnd : List.NoDup (List.map id (taggings Scenario.threeMarkers))).
  { simpl. repeat constructor; simpl; intuition lia. }
  destruct (editMarker_keeps_invariants Scenario.threeMarkers 3 350000 355000 0
              (mkRow 3 14 0 15000 45000 "intro" false) 3 Hnd eq_refl)
    as (_ & _ & Hindices & _); try reflexivity; try lia.
  - simpl. intros x [<- | [<- | [<- | []]]] _; simpl; lia.
  - simpl. intros x y [<- | [<- | [<- | []]]] [<- | [<- | [<- | []]]] _ _;
      simpl; lia.
  - split; [exact Hindices | reflexivity].
Defined.

End EditInvariant.

(** ** The marker breakdown cache of the older server *)

Module LegacyFacts.

Import MarkerBreakdown LegacyCache BreakdownFacts BreakdownMore.

(** With a bucket for the old count the older code and
    [MarkerBreakdown.delta] compute the same buckets. *)
Lemma updateBuckets_delta (c : gmap Z JS.num) (oldMarkerCount d : Z) (v : JS.num) :
  c !! oldMarkerCount = Some v ->
  updateBuckets oldMarkerCount d c = delta oldMarkerCount d c.
Proof.
  intros Hold. unfold updateBuckets, delta. rewrite Hold.
  destruct (decide (d = 0)) as [-> | Hd].
  - rewrite Z.add_0_r. unfold nullishInit. rewrite Hold.
    unfold decrement at 1. rewrite lookup_insert_eq. reflexivity.
  - assert (Hne : oldMarkerCount <> oldMarkerCount + d) by lia.
    f_equal. unfold decrement at 1 2. rewrite lookup_insert_ne by exact Hne.
    unfold nullishInit.
    destruct (c !! (oldMarkerCount + d)) eqn:Hnew; [reflexivity |].
    unfold decrement. rewrite lookup_insert_ne by lia.
    apply insert_insert_ne. lia.
Qed.

(** Without a bucket for the old count the older code goes on as if the
    bucket had held one item. *)
Lemma updateBuckets_missing (c : gmap Z JS.num) (oldMarkerCount d : Z) :
  c !! oldMarkerCount = None ->
  updateBuckets oldMarkerCount d c =
  updateBuckets oldMarkerCount d (<[oldMarkerCount := JS.Num 1]> c).
Proof.
  intros Hold. unfold updateBuckets. rewrite Hold, lookup_insert_eq. reflexivity.
Qed.

Lemma totalItems_delta (c : gmap Z JS.num) (oldBucket d : Z) (v : JS.num) :
  c !! oldBucket = Some v -> totalItems (delta oldBucket d c) = totalItems c.
Proof.
  intros Hold. rewrite !totalItems_weight.
  rewrite (wfold_delta (fun _ => 1) c oldBucket d v Hold).
  apply add_zero_r.
Qed.

(** X12: when the section is cached and has a bucket for the old marker
    count, the cache update of the older server moves one item from the
    old bucket to the new one: the buckets are those of
    [MarkerBreakdown.delta], the number of items stays, the number of
    markers changes by [delta], and the other sections are not touched. *)
Theorem legacy_update_moves_item (cache : gmap Z (gmap Z JS.num))
    (section oldMarkerCount d : Z) (buckets : gmap Z JS.num) (v : JS.num) :
  cache !! section = Some buckets ->
  buckets !! oldMarkerCount = Some v ->
  updateMarkerBreakdownCache cache section oldMarkerCount d !! section
  = Some (delta oldMarkerCount d buckets) /\
  totalItems (updateBuckets oldMarkerCount d buckets) = totalItems buckets /\
  weightedTotal (weight (fun count => count)) (updateBuckets oldMarkerCount d buckets)
  = JS.add (weightedTotal (weight (fun count => count)) buckets) (JS.Num d) /\
  (forall other, other <> section ->
     updateMarkerBreakdownCache cache section oldMarkerCount d !! other
     = cache !! other).
Proof.
  intros Hsec Hold. unfold updateMarkerBreakdownCache. rewrite Hsec.
  rewrite (updateBuckets_delta _ _ _ _ Hold).
  split; [apply lookup_insert_eq |].
  split; [apply (totalItems_delta _ _ _ _ Hold) |].
  split.
  - rewrite (wfold_delta (fun count => count) buckets oldMarkerCount d v Hold).
    do 2 f_equal. lia.
  - intros other Hne. apply lookup_insert_ne. congruence.
Qed.

Lemma legacy_update_moves_item_witness :
  updateMarkerBreakdownCache {[ 1 := {[ 0 := JS.Num 3; 1 := JS.Num 2 ]} ]} 1 0 1 !! 1
  = Some (delta 0 1 {[ 0 := JS.Num 3; 1 := JS.Num 2 ]}).
Proof.
  apply (legacy_update_moves_item
           {[ 1 := {[ 0 := JS.Num 3; 1 := JS.Num 2 ]} ]} 1 0 1
           {[ 0 := JS.Num 3; 1 := JS.Num 2 ]} (JS.Num 3));
    reflexivity.
Defined.

(** X13: when the section has no bucket for the old marker count, the
    older code sets that bucket to 1 before it takes one away, so the
    cached number of items grows by one; the bucket of the old count ends
    at 0 when [delta] is not 0.  A section that is not cached is left
    alone. *)
Theorem legacy_update_missing_bucket (cache : gmap Z (gmap Z JS.num))
    (section oldMarkerCount d : Z) (buckets : gmap Z JS.num) :
  buckets !! oldMarkerCount = None ->
  totalItems (updateBuckets oldMarkerCount d buckets)
  = JS.add (totalItems buckets) (JS.Num 1) /\
  (d <> 0 -> updateBuckets oldMarkerCount d buckets !! oldMarkerCount = Some (JS.Num 0)) /\
  (cache !! section = None ->
   updateMarkerBreakdownCache cache section oldMarkerCount d = cache).
Proof.
  intros Hold. split; [| split].
  - rewrite (updateBuckets_missing _ _ _ Hold).
    rewrite (updateBuckets_delta _ _ _ (JS.Num 1)) by apply lookup_insert_eq.
    rewrite (totalItems_delta _ _ _ (JS.Num 1)) by apply lookup_insert_eq.
    apply totalItems_insert. exact Hold.
  - intros Hd. rewrite (updateBuckets_missing _ _ _ Hold).
    rewrite (updateBuckets_delta _ _ _ (JS.Num 1)) by apply lookup_insert_eq.
    destruct (delta_lookups (<[oldMarkerCount := JS.Num 1]> buckets)
                            oldMarkerCount d (JS.Num 1)) as [-> _];
      [apply lookup_insert_eq | exact Hd | reflexivity].
  - intros Hsec. unfold updateMarkerBreakdownCache. rewrite Hsec. reflexivity.
Qed.

Lemma legacy_update_missing_bucket_witness :
  totalItems (updateBuckets 2 (-1) {[ 0 := JS.Num 3 ]})
  = JS.add (totalItems ({[ 0 := JS.Num 3 ]} : gmap Z JS.num)) (JS.Num 1).
Proof.
  apply (legacy_update_missing_bucket ∅ 0 2 (-1) {[ 0 := JS.Num 3 ]}).
  reflexivity.
Defined.

End LegacyFacts.

(** ** The rows of a movie search *)

Module SearchFacts.

Import SearchResults.

Section Search.

Context {Movie : Type}.
Variable shouldFilter : Movie -> bool.

Local Abbreviation keep := (fun movie : Movie => negb (shouldFilter movie)).

(** The loop stops after some prefix of the results: its rows are the
    results of the prefix that are not filtered, and it stops early only
    when the limit is reached. *)
Lemma searchLoop_prefix (limit : Z) (l : list Movie) :
  forall st,
    nonFiltered st < limit ->
    exists c : nat,
      (c <= length l)%nat /\
      nextFilterIndex (searchLoop shouldFilter limit l st)
      = nextFilterIndex st + Z.of_nat c /\
      filteredResults (searchLoop shouldFilter limit l st)
      = filteredResults st ++ List.filter keep (firstn c l) /\
      nonFiltered (searchLoop shouldFilter limit l st)
      = nonFiltered st + Z.of_nat (length (List.filter keep (firstn c l))) /\
      nonFiltered (searchLoop shouldFilter limit l st) <= limit /\
      ((c < length l)%nat ->
       nonFiltered (searchLoop shouldFilter limit l st) = limit).
Proof.
  induction l as [| movie rest IH]; intros st Hlt.
  - exists 0%nat. simpl. rewrite app_nil_r. repeat split; lia.
  - destruct (shouldFilter movie) eqn:Hf.
    + assert (Hstep : searchLoop shouldFilter limit (movie :: rest) st =
                      searchLoop shouldFilter limit rest
                                 (mkLoop (filteredResults st) (nonFiltered st)
                                         (nextFilterIndex st + 1))).
      { simpl. rewrite Hf. simpl.
        destruct (Z.eqb_spec (nonFiltered st) limit); [lia | reflexivity]. }
      rewrite Hstep.
      destruct (IH (mkLoop (filteredResults st) (nonFiltered st)
                           (nextFilterIndex st + 1)) Hlt)
        as (c & Hc & Hi & Hr & Hn & Hle & Hstop).
      exists (S c). simpl firstn. simpl List.filter. rewrite Hf. simpl negb.
      cbv iota. simpl in *. repeat split; try lia; auto.
    + destruct (Z.eqb_spec (nonFiltered st + 1) limit) as [Heq | Hne].
      * assert (Hstep : searchLoop shouldFilter limit (movie :: rest) st =
                        mkLoop (filteredResults st ++ [movie]) (nonFiltered st + 1)
                               (nextFilterIndex st + 1)).
        { simpl. rewrite Hf. simpl.
          destruct (Z.eqb_spec (nonFiltered st + 1) limit); [reflexivity | lia]. }
        rewrite Hstep.
        exists 1%nat. simpl. rewrite Hf. simpl. repeat split; lia.
      * assert (Hstep : searchLoop shouldFilter limit (movie :: rest) st =
                        searchLoop shouldFilter limit rest
                                   (mkLoop (filteredResults st ++ [movie])
                                           (nonFiltered st + 1)
                                           (nextFilterIndex st + 1))).
        { simpl. rewrite Hf. simpl.
          destruct (Z.eqb_spec (nonFiltered st + 1) limit); [lia | reflexivity]. }
        rewrite Hstep.
        destruct (IH (mkLoop (filteredResults st ++ [movie]) (nonFiltered st + 1)
                             (nextFilterIndex st + 1)))
          as (c & Hc & Hi & Hr & Hn & Hle & Hstop); [simpl; lia |].
        exists (S c). simpl firstn. simpl List.filter. rewrite Hf. simpl negb.
        cbv iota. simpl in *. rewrite <- app_assoc in Hr. simpl in Hr.
        repeat split; try lia; auto.
Qed.

(** X14: a movie search shows the first 250 results that pass the
    filter, in the order of the results; a click on the "load more" row
    appends the rest, so that every result that passes the filter has
    one row; without that row nothing is missing; and the "no results"
    row is shown exactly when the first pass made no row. *)
Theorem searchMovies_rows (searchResults : list Movie) (view : SearchView) :
  searchMovies shouldFilter searchResults = Some view ->
  rows view = firstn 250 (List.filter keep searchResults) /\
  (length (rows view) <= 250)%nat /\
  rows view ++ default [] (loadMore view) = List.filter keep searchResults /\
  (loadMore view = None -> rows view = List.filter keep searchResults) /\
  (noResultsBecauseOfFilter view = true <-> rows view = []).
Proof.
  unfold searchMovies. destruct searchResults as [| m0 l0] eqn:El; [discriminate |].
  rewrite <- El. clear El m0 l0.
  destruct (searchLoop_prefix rowsLimit searchResults (mkLoop [] 0 0))
    as (c & Hc & Hi & Hr & Hn & Hle & Hstop); [simpl; unfold rowsLimit; lia |].
  rewrite Hn in Hle, Hstop. simpl in Hi, Hr, Hn, Hle, Hstop.
  rewrite Z.add_0_l in Hi, Hn, Hle, Hstop.
  intros [= <-]. simpl. rewrite Hi, Hr, Hn.
  set (A := List.filter keep (firstn c searchResults)) in *.
  assert (Hsplit : List.filter keep searchResults =
                   A ++ List.filter keep (drop c searchResults)).
  { unfold A. rewrite <- List.filter_app. f_equal. symmetry. apply firstn_skipn. }
  assert (HlenA : (length A <= 250)%nat) by (unfold rowsLimit in Hle; lia).
  assert (Hall : ~ (c < length searchResults)%nat ->
                 List.filter keep (drop c searchResults) = []).
  { intros Hge. replace (drop c searchResults) with (@nil Movie); [reflexivity |].
    symmetry. apply skipn_all2. lia. }
  split; [| split; [exact HlenA | split; [| split]]].
  - rewrite Hsplit.
    destruct (Nat.lt_ge_cases c (length searchResults)) as [Hlt | Hge].
    + specialize (Hstop Hlt). unfold rowsLimit in Hstop.
      rewrite List.firstn_app.
      replace (250 - length A)%nat with 0%nat by lia.
      rewrite firstn_all2 by lia. simpl. rewrite app_nil_r. reflexivity.
    + rewrite Hall by lia. rewrite app_nil_r. rewrite firstn_all2 by lia. reflexivity.
  - unfold loadTheRest. rewrite Hsplit.
    destruct (Z.gtb_spec (Z.of_nat (length searchResults)) (Z.of_nat c)) as [Hgt | Hle'];
      simpl.
    + rewrite Nat2Z.id. reflexivity.
    + rewrite Hall by lia. reflexivity.
  - destruct (Z.gtb_spec (Z.of_nat (length searchResults)) (Z.of_nat c)) as [Hgt | Hle'];
      [discriminate |].
    intros _. rewrite Hsplit, Hall by lia. rewrite app_nil_r. reflexivity.
  - rewrite Z.eqb_eq. split.
    + intros H0. destruct A; [reflexivity | simpl in H0; lia].
    + intros ->. reflexivity.
Qed.

End Search.

Lemma searchMovies_rows_witness :
  rows (mkView [1; 3] false None) = firstn 250 (List.filter (fun z => negb (Z.even z)) [1; 2; 3]).
Proof.
  destruct (searchMovies_rows Z.even [1; 2; 3] (mkView [1; 3] false None) eq_refl)
    as [Hrows _].
  exact Hrows.
Defined.

End SearchFacts.

(** ** The customize table of the bulk shift overlay *)

Module ClassFacts.

Import ShiftTable ShiftTable.BulkShiftClasses.

Lemma contains_add (node : classList) (a b : string) :
  classContains (classAdd node a) b = String.eqb b a || classContains node b.
Proof.
  unfold classAdd. destruct (classContains node a) eqn:Ha.
  - destruct (String.eqb_spec b a) as [-> |]; [rewrite Ha |]; reflexivity.
  - unfold classContains. rewrite existsb_app. simpl.
    rewrite orb_false_r. apply orb_comm.
Qed.

Lemma contains_remove (node : classList) (a b : string) :
  classContains (classRemove node a) b = negb (String.eqb b a) && classContains node b.
Proof.
  unfold classRemove, classContains.
  induction node as [| t node IH]; simpl; [rewrite andb_false_r; reflexivity |].
  destruct (String.eqb_spec t a) as [-> | Hta]; simpl; rewrite IH.
  - destruct (String.eqb_spec b a); reflexivity.
  - destruct (String.eqb_spec b t) as [-> | Hbt]; simpl.
    + destruct (String.eqb_spec t a); [contradiction | reflexivity].
    + reflexivity.
Qed.

Ltac class_simpl :=
  repeat (rewrite contains_add || rewrite contains_remove);
  unfold nameAt, Reset; simpl.

(** Whatever is on the node, [set] with one of the three types leaves
    the class of the type on it. *)
Lemma set_contains (node : classList) (idx : Z) (active : bool) :
  0 <= idx <= 2 -> classContains (set node idx active) (nameAt idx) = true.
Proof.
  intros Hidx.
  assert (Hcases : idx = 0 \/ idx = 1 \/ idx = 2) by lia.
  unfold set, nameAt. destruct Hcases as [-> | [-> | ->]]; simpl;
    match goal with
    | |- classContains (if ?c then _ else _) _ = true =>
        destruct c eqn:Hc; [exact Hc |]
    end;
    class_simpl; reflexivity.
Qed.

(** X15: on a cell that carries at most one of the three state classes,
    [BulkShiftClasses.set] with a type 0, 1 or 2 leaves exactly the class
    of that type; the class [bulkActionInactive] is on the cell exactly
    when [active] is false; every other class is as before.  With the
    type -1 none of the three state classes is left. *)
Theorem set_exclusive (node : classList) (idx : Z) (active : bool) :
  0 <= idx <= 2 ->
  classContains node "bulkActionOn" && classContains node "bulkActionOff" = false ->
  classContains node "bulkActionOn" && classContains node "bulkActionSemi" = false ->
  classContains node "bulkActionOff" && classContains node "bulkActionSemi" = false ->
  (forall i, 0 <= i <= 2 ->
     classContains (set node idx active) (nameAt i) = (i =? idx)) /\
  classContains (set node idx active) "bulkActionInactive" = negb active /\
  (forall name,
     name <> "bulkActionOn" -> name <> "bulkActionOff" ->
     name <> "bulkActionSemi" -> name <> "bulkActionInactive" ->
     classContains (set node idx active) name = classContains node name) /\
  (forall i, 0 <= i <= 2 ->
     classContains (set node Reset active) (nameAt i) = false).
Proof.
  intros Hidx H1 H2 H3.
  assert (Hcases : idx = 0 \/ idx = 1 \/ idx = 2) by lia.
  assert (Hnames : forall i, 0 <= i <= 2 -> i = 0 \/ i = 1 \/ i = 2) by (intros; lia).
  split; [| split; [| split]].
  - intros i Hi. destruct (Hnames i Hi) as [-> | [-> | ->]];
      destruct Hcases as [-> | [-> | ->]]; unfold set, nameAt, Reset; simpl;
      match goal with
      | |- classContains (if ?c then _ else _) _ = _ =>
          destruct c eqn:Hc; revert Hc
      end;
      destruct active; class_simpl;
      destruct (classContains node "bulkActionOn"),
               (classContains node "bulkActionOff"),
               (classContains node "bulkActionSemi");
      simpl in *; congruence.
  - destruct Hcases as [-> | [-> | ->]]; unfold set, nameAt, Reset; simpl;
      match goal with
      | |- classContains (if ?c then _ else _) _ = _ => destruct c
      end;
      destruct active; class_simpl; reflexivity.
  - intros name N1 N2 N3 N4.
    apply String.eqb_neq in N1, N2, N3, N4.
    destruct Hcases as [-> | [-> | ->]]; unfold set, nameAt, Reset; simpl;
      match goal with
      | |- classContains (if ?c then _ else _) _ = _ => destruct c
      end;
      destruct active; class_simpl; rewrite ?N1, ?N2, ?N3, ?N4; reflexivity.
  - intros i Hi. destruct (Hnames i Hi) as [-> | [-> | ->]];
      unfold set, nameAt, Reset; simpl; class_simpl; reflexivity.
Qed.

Lemma set_exclusive_witness :
  classContains (set ["bulkActionSemi"; "bulkActionInactive"] On true) "bulkActionInactive"
  = false.
Proof.
  assert (Hidx : 0 <= On <= 2) by (unfold On; lia).
  exact (proj1 (proj2 (set_exclusive ["bulkActionSemi"; "bulkActionInactive"] On true
                                     Hidx eq_refl eq_refl eq_refl))).
Defined.

End ClassFacts.

Module ShiftApplyFacts.

Import ShiftTable ClassFacts.

Section Lists.

Context {A B : Type}.

Lemma map_insert (f : A -> B) (l : list A) (k : nat) (x : A) :
  List.map f (<[k := x]> l) = <[k := f x]> (List.map f l).
Proof. exact (list_fmap_insert f l k x). Qed.

Lemma alter_insert (f : A -> A) (l : list A) (k : nat) (x : A) :
  l !! k = Some x -> alter f k l = <[k := f x]> l.
Proof.
  intros Hk. apply list_eq. intros j.
  destruct (decide (k = j)) as [<- | Hne].
  - rewrite list_lookup_alter_eq, Hk.
    rewrite list_lookup_insert_eq by (eapply lookup_lt_Some; exact Hk). reflexivity.
  - rewrite list_lookup_alter_ne, list_lookup_insert_ne by exact Hne. reflexivity.
Qed.

Lemma alter_absent (f : A -> A) (l : list A) (k : nat) :
  l !! k = None -> alter f k l = l.
Proof.
  intros Hk. apply list_eq. intros j.
  destruct (decide (k = j)) as [<- | Hne].
  - rewrite list_lookup_alter_eq, Hk. reflexivity.
  - apply list_lookup_alter_ne. exact Hne.
Qed.

Lemma In_insert (l : list A) (k : nat) (x y : A) :
  In y (<[k := x]> l) -> y = x \/ In y l.
Proof.
  revert k. induction l as [| a l IH]; intros [| k]; simpl; try tauto.
  - intros [<- | H]; auto.
  - intros [<- | H]; auto. destruct (IH k H); auto.
Qed.

Lemma existsb_false_filter (p : A -> bool) (l : list A) :
  existsb p l = false -> List.filter p l = [].
Proof.
  induction l as [| a l IH]; simpl; [reflexivity |].
  destruct (p a); simpl; [discriminate | exact IH].
Qed.

(** Altering every position once is a map. *)
Lemma fold_alter_lookup (f : A -> A) (ks : list nat) :
  List.NoDup ks ->
  forall (l : list A) (j : nat),
    fold_left (fun l k => alter f k l) ks l !! j =
    if in_dec Nat.eq_dec j ks then f <$> l !! j else l !! j.
Proof.
  induction ks as [| k ks IH]; intros Hnd l j; [reflexivity |].
  apply List.NoDup_cons_iff in Hnd as [Hnotin Hnd].
  simpl fold_left. rewrite (IH Hnd).
  destruct (in_dec Nat.eq_dec j (k :: ks)) as [Hin | Hout];
    destruct (in_dec Nat.eq_dec j ks) as [Hin' | Hout'].
  - assert (k <> j) by (intros ->; contradiction).
    rewrite list_lookup_alter_ne by assumption. reflexivity.
  - destruct Hin as [-> | Hin]; [| contradiction].
    apply list_lookup_alter_eq.
  - exfalso. apply Hout. right. exact Hin'.
  - apply list_lookup_alter_ne. intros ->. apply Hout. left. reflexivity.
Qed.

Lemma fold_alter_all (f : A -> A) (l : list A) :
  fold_left (fun l k => alter f k l) (List.seq 0 (length l)) l = List.map f l.
Proof.
  apply list_eq. intros j.
  rewrite (fold_alter_lookup f _ (List.seq_NoDup _ _)).
  rewrite EditInvariant.lookup_map.
  destruct (in_dec Nat.eq_dec j (List.seq 0 (length l))) as [Hin | Hout];
    [reflexivity |].
  rewrite in_seq in Hout.
  rewrite (lookup_ge_None_2 l j) by lia. reflexivity.
Qed.

End Lists.

Section Update.

Variables shiftStart shiftEnd : JS.num.

Local Abbreviation upd := (update shiftStart shiftEnd).

(** [update()] of a row changes the flags and times of that row alone,
    to those of [BulkShift.update]. *)
Lemma update_shiftRows (k : nat) (rows : list TableRow) :
  List.map shiftRow (upd k rows) =
  alter (BulkShift.updateRow shiftStart shiftEnd) k (List.map shiftRow rows).
Proof.
  unfold update. destruct (rows !! k) as [this |] eqn:Hk.
  - rewrite (alter_insert _ _ _ (shiftRow this))
      by (rewrite EditInvariant.lookup_map, Hk; reflexivity).
    cbv zeta.
    destruct (isError _); [| destruct (negb _)].
    + apply (map_insert shiftRow).
    + rewrite list_insert_insert_eq. apply (map_insert shiftRow).
    + rewrite map_map.
      change (BulkShift.updateRow shiftStart shiftEnd (shiftRow this))
        with (shiftRow (mkTableRow (BulkShift.updateRow shiftStart shiftEnd
                                                         (shiftRow this))
                                    (linked this) (episodeCell this))).
      rewrite <- (map_insert shiftRow).
      apply map_ext. intros x. destruct (_ =? _); reflexivity.
  - symmetry. apply alter_absent. rewrite EditInvariant.lookup_map, Hk. reflexivity.
Qed.

Lemma update_linked (k : nat) (rows : list TableRow) :
  List.map linked (upd k rows) = List.map linked rows.
Proof.
  unfold update. destruct (rows !! k) as [this |] eqn:Hk; [| reflexivity].
  cbv zeta.
  assert (Hid : <[k := linked this]> (List.map linked rows) = List.map linked rows)
    by (apply list_insert_id; rewrite EditInvariant.lookup_map, Hk; reflexivity).
  destruct (isError _); [| destruct (negb _)].
  - rewrite map_insert. exact Hid.
  - rewrite list_insert_insert_eq, map_insert. exact Hid.
  - rewrite map_map.
    transitivity (List.map linked
                    (<[k := mkTableRow (BulkShift.updateRow shiftStart shiftEnd
                                                            (shiftRow this))
                                       (linked this) (episodeCell this)]> rows)).
    + apply map_ext. intros x. destruct (_ =? _); reflexivity.
    + rewrite map_insert. exact Hid.
Qed.

Lemma update_ident (k : nat) (rows : list TableRow) :
  List.map (fun r => (episodeId r, enabled r)) (upd k rows) =
  List.map (fun r => (episodeId r, enabled r)) rows.
Proof.
  transitivity
    (List.map (fun x => (BulkShift.parentId (BulkShift.marker x), BulkShift.enabled x))
              (List.map shiftRow (upd k rows)));
    [rewrite map_map; reflexivity |].
  rewrite update_shiftRows.
  apply list_eq. intros j. rewrite !EditInvariant.lookup_map.
  destruct (decide (k = j)) as [<- | Hne].
  - rewrite list_lookup_alter_eq, EditInvariant.lookup_map.
    destruct (rows !! k); reflexivity.
  - rewrite list_lookup_alter_ne, EditInvariant.lookup_map by exact Hne.
    destruct (rows !! j); reflexivity.
Qed.

(** After [#adjustNewTimes] every row has the flags and times that
    [BulkShift.update] computes for the current shift. *)
Lemma adjust_shiftRows (rows : list TableRow) :
  List.map shiftRow (adjustNewTimes shiftStart shiftEnd rows) =
  List.map (BulkShift.updateRow shiftStart shiftEnd) (List.map shiftRow rows).
Proof.
  unfold adjustNewTimes.
  rewrite <- (fold_alter_all (BulkShift.updateRow shiftStart shiftEnd)).
  rewrite List.length_map.
  generalize (List.seq 0 (length rows)) as ks. intros ks. revert rows.
  induction ks as [| k ks IH]; intros rows; [reflexivity |].
  simpl. rewrite IH, update_shiftRows. reflexivity.
Qed.

Lemma adjust_fold_ident (ks : list nat) (rows : list TableRow) :
  List.map (fun r => (episodeId r, enabled r, linked r))
           (fold_left (fun rows this => upd this rows) ks rows) =
  List.map (fun r => (episodeId r, enabled r, linked r)) rows.
Proof.
  revert rows. induction ks as [| k ks IH]; intros rows; [reflexivity |].
  simpl. rewrite IH.
  apply list_eq. intros j. rewrite !EditInvariant.lookup_map.
  pose proof (f_equal (fun l => l !! j) (update_ident k rows)) as H1.
  pose proof (f_equal (fun l => l !! j) (update_linked k rows)) as H2.
  cbv beta in H1, H2.
  rewrite !EditInvariant.lookup_map in H1. rewrite !EditInvariant.lookup_map in H2.
  destruct (upd k rows !! j), (rows !! j); simpl in *; congruence.
Qed.

End Update.

Section Unresolved.

Variables shiftStart shiftEnd : JS.num.

Local Abbreviation upd := (update shiftStart shiftEnd).

Local Abbreviation quiet ep rows :=
  (forall other : TableRow, In other rows -> episodeId other = ep -> enabled other = false).

Lemma quiet_update (ep : Z) (k : nat) (rows : list TableRow) :
  quiet ep rows -> quiet ep (upd k rows).
Proof.
  intros Hq other Hin Hep.
  assert (Hid : In (episodeId other, enabled other)
                   (List.map (fun r => (episodeId r, enabled r)) rows)).
  { rewrite <- (update_ident shiftStart shiftEnd k rows).
    apply in_map_iff. exists other. auto. }
  apply in_map_iff in Hid as (r & [= Hr1 Hr2] & Hr).
  rewrite <- Hr2. apply Hq; [exact Hr | congruence].
Qed.

(** One [update()], seen from a linked row of an episode in which no
    row is checked: the row stays linked, and it is unresolved when the
    update was its own or when it was unresolved before. *)
Lemma update_quiet (k j : nat) (rows : list TableRow) (r : TableRow) :
  rows !! j = Some r -> linked r = true -> quiet (episodeId r) rows ->
  exists r',
    upd k rows !! j = Some r' /\ linked r' = true /\ episodeId r' = episodeId r /\
    (k = j \/ isUnresolved r = true -> isUnresolved r' = true).
Proof.
  intros Hj Hl Hq. unfold update.
  destruct (rows !! k) as [this |] eqn:Hk.
  2: { exists r. repeat split; auto. intros [-> | H]; [congruence | exact H]. }
  cbv zeta.
  set (row := mkTableRow (BulkShift.updateRow shiftStart shiftEnd (shiftRow this))
                         (linked this) (episodeCell this)).
  assert (Hjlt : (j < length rows)%nat) by (eapply lookup_lt_Some; exact Hj).
  assert (Hr : In r rows) by (eapply EditInvariant.lookup_In; exact Hj).
  assert (Hthis : In this rows) by (eapply EditInvariant.lookup_In; exact Hk).
  assert (Hoff : enabled r = false) by (apply Hq; auto).
  destruct (decide (k = j)) as [-> | Hne].
  - (* the update of the row itself *)
    assert (this = r) by congruence. subst this.
    assert (Hnoerr : isError row = false).
    { unfold isError, row. simpl. unfold BulkShift.update.
      unfold enabled in Hoff. rewrite Hoff. reflexivity. }
    rewrite Hnoerr.
    assert (Hlinked : negb (linked row) = false) by (simpl; rewrite Hl; reflexivity).
    rewrite Hlinked.
    rewrite EditInvariant.lookup_map, list_lookup_insert_eq by exact Hjlt.
    simpl. rewrite Z.eqb_refl.
    eexists. split; [reflexivity |]. simpl.
    split; [exact Hl | split; [reflexivity |]]. intros _.
    assert (Hany : enabled row ||
                   existsb (fun other => (episodeId other =? episodeId row)
                                         && enabled other)
                           (<[j := row]> rows) = false).
    { apply orb_false_intro; [exact Hoff |].
      apply not_true_is_false. intros Hex.
      apply existsb_exists in Hex as (other & Hin & Hc).
      apply andb_prop in Hc as [Hep Hen]. apply Z.eqb_eq in Hep.
      apply In_insert in Hin as [-> | Hin]; [unfold enabled in *; simpl in *; congruence |].
      rewrite (Hq other Hin Hep) in Hen. discriminate. }
    rewrite Hany. unfold isUnresolved. simpl.
    apply (set_contains (episodeCell r) 2 true). lia.
  - (* the update of another row *)
    assert (Hlook : <[k := row]> rows !! j = Some r)
      by (rewrite list_lookup_insert_ne by exact Hne; exact Hj).
    destruct (isError row); [| destruct (negb (linked row))].
    + exists r. repeat split; auto. intros [-> | H]; [contradiction | exact H].
    + rewrite list_lookup_insert_ne by exact Hne.
      exists r. repeat split; auto. intros [-> | H]; [contradiction | exact H].
    + rewrite EditInvariant.lookup_map, Hlook. simpl.
      destruct (Z.eqb_spec (episodeId r) (episodeId row)) as [Hep | Hep].
      * assert (Hany : enabled row ||
                       existsb (fun other => (episodeId other =? episodeId row)
                                             && enabled other)
                               (<[k := row]> rows) = false).
        { assert (Hrow : enabled row = false)
            by (apply (Hq this Hthis); symmetry; exact Hep).
          apply orb_false_intro; [exact Hrow |].
          apply not_true_is_false. intros Hex.
          apply existsb_exists in Hex as (other & Hin & Hc).
          apply andb_prop in Hc as [Hep' Hen]. apply Z.eqb_eq in Hep'.
          apply In_insert in Hin as [-> | Hin]; [congruence |].
          rewrite (Hq other Hin) in Hen by congruence. discriminate. }
        rewrite Hany. eexists. split; [reflexivity |]. simpl.
        split; [exact Hl | split; [reflexivity |]]. intros _.
        unfold isUnresolved. simpl.
        apply (set_contains (episodeCell r) 2 true). lia.
      * exists r. repeat split; auto. intros [-> | H]; [contradiction | exact H].
Qed.

Lemma fold_quiet (ks : list nat) :
  forall (rows : list TableRow) (j : nat) (r : TableRow),
    rows !! j = Some r -> linked r = true -> quiet (episodeId r) rows ->
    In j ks \/ isUnresolved r = true ->
    exists r',
      fold_left (fun rows this => upd this rows) ks rows !! j = Some r' /\
      isUnresolved r' = true.
Proof.
  induction ks as [| k ks IH]; intros rows j r Hj Hl Hq Hor.
  - exists r. split; [exact Hj |]. destruct Hor as [[] | H]. exact H.
  - simpl fold_left.
    destruct (update_quiet k j rows r Hj Hl Hq) as (r1 & Hj1 & Hl1 & Hep1 & Hu1).
    apply (IH (upd k rows) j r1 Hj1 Hl1).
    + rewrite Hep1. apply quiet_update. exact Hq.
    + destruct Hor as [[-> | Hin] | Hu]; auto.
Qed.

(** After [#adjustNewTimes], a linked row of an episode in which no row
    is checked is unresolved. *)
Lemma adjust_unresolved (rows : list TableRow) (r : TableRow) :
  In r rows -> linked r = true -> quiet (episodeId r) rows ->
  existsb isUnresolved (adjustNewTimes shiftStart shiftEnd rows) = true.
Proof.
  intros Hin Hl Hq.
  destruct (EditInvariant.In_lookup _ _ Hin) as [j Hj].
  destruct (fold_quiet (List.seq 0 (length rows)) rows j r Hj Hl Hq) as (r' & Hj' & Hu).
  { left. apply in_seq. apply lookup_lt_Some in Hj. lia. }
  apply existsb_exists. exists r'. split; [| exact Hu].
  eapply EditInvariant.lookup_In. exact Hj'.
Qed.

End Unresolved.

(** X20: [#adjustNewTimes] gives every row the flags and the new times
    that [update()] computes from the row's own marker, episode and
    checkbox for the current shift; it changes neither which rows are
    linked nor the order of the rows; and it leaves every linked row of an
    episode in which no row is checked unresolved. *)
Theorem adjustNewTimes_rows (shiftStart shiftEnd : JS.num) (rows : list TableRow) :
  List.map shiftRow (adjustNewTimes shiftStart shiftEnd rows)
  = List.map (BulkShift.updateRow shiftStart shiftEnd) (List.map shiftRow rows) /\
  List.map linked (adjustNewTimes shiftStart shiftEnd rows) = List.map linked rows /\
  (forall (j : nat) (r : TableRow),
     rows !! j = Some r -> linked r = true ->
     (forall other, In other rows -> episodeId other = episodeId r ->
                    enabled other = false) ->
     exists r', adjustNewTimes shiftStart shiftEnd rows !! j = Some r' /\
                isUnresolved r' = true).
Proof.
  split; [apply adjust_shiftRows | split].
  - pose proof (adjust_fold_ident shiftStart shiftEnd
                  (List.seq 0 (length rows)) rows) as H.
    apply (f_equal (List.map snd)) in H. rewrite !map_map in H. exact H.
  - intros j r Hj Hl Hq.
    apply (fold_quiet shiftStart shiftEnd (List.seq 0 (length rows)) rows j r Hj Hl Hq).
    left. apply in_seq. apply lookup_lt_Some in Hj. lia.
Qed.

Section Apply.

Variable tableIgnored : list TableRow -> list Z.

(** X16: when [#tryApply] sends the shift to the server, on a table
    whose rows were updated for the current shift: both shift values are
    numbers and not both 0, the shift is not forced, every checked row
    has its shifted marker inside the episode ([0 <= start' < end' <=
    duration]), every linked row has a checked row in its episode, and the
    ignored list is that of the table followed by the markers without a
    row. *)
Theorem tryApply_sends (o : Overlay) (rows : list TableRow)
    (metadataId : Z) (startShift endShift : JS.num) (force : bool) (ids : list Z) :
  table o = Some (adjustNewTimes (shiftStartValue o) (shiftEndValue o) rows) ->
  tryApply tableIgnored o = ServerShift metadataId startShift endShift force ids ->
  (exists s e : Z,
     shiftStartValue o = JS.Num s /\ shiftEndValue o = JS.Num e /\
     startShift = JS.Num s /\ endShift = JS.Num e /\ (s <> 0 \/ e <> 0) /\
     forall row, In row rows -> enabled row = true ->
       0 <= BulkShift.start (BulkShift.marker (shiftRow row)) + s /\
       BulkShift.start (BulkShift.marker (shiftRow row)) + s
       < BulkShift.end_ (BulkShift.marker (shiftRow row)) + e /\
       BulkShift.end_ (BulkShift.marker (shiftRow row)) + e
       <= BulkShift.duration (BulkShift.episode (shiftRow row))) /\
  force = false /\ metadataId = mediaItem o /\
  ids = tableIgnored (adjustNewTimes (shiftStartValue o) (shiftEndValue o) rows)
        ++ markersWithoutRows o /\
  (forall row, In row rows -> linked row = true ->
     exists other, In other rows /\ episodeId other = episodeId row /\
                   enabled other = true).
Proof.
  intros Htable. unfold tryApply, getIgnored. rewrite Htable. cbv zeta.
  set (adjusted := adjustNewTimes (shiftStartValue o) (shiftEndValue o) rows).
  destruct (isNaN (shiftStartValue o) || isNaN (shiftEndValue o) ||
            isFalsy (shiftStartValue o) && isFalsy (shiftEndValue o)) eqn:Hbad;
    [discriminate |].
  simpl.
  destruct (existsb isUnresolved adjusted) eqn:Hunres; [discriminate |].
  destruct (existsb (fun row => BulkShift.isWarn (BulkShift.status row))
                    (List.map shiftRow adjusted)) eqn:Hcut; [discriminate |].
  destruct (existsb (fun row => BulkShift.isError (BulkShift.status row))
                    (List.map shiftRow adjusted)) eqn:Herr; [discriminate |].
  intros [= <- <- <- <- <-].
  rewrite (existsb_false_filter _ _ Herr). simpl.
  apply orb_false_elim in Hbad as [Hnan Hzero].
  apply orb_false_elim in Hnan as [Hn1 Hn2].
  destruct (shiftStartValue o) as [s |] eqn:Hs; [| discriminate].
  destruct (shiftEndValue o) as [e |] eqn:He; [| discriminate].
  split; [| split; [reflexivity | split; [reflexivity | split; [reflexivity |]]]].
  - exists s, e.
    split; [reflexivity | split; [reflexivity |
      split; [reflexivity | split; [reflexivity | split]]]].
    + simpl in Hzero. apply andb_false_iff in Hzero.
      destruct Hzero as [H | H]; apply Z.eqb_neq in H; auto.
    + intros row Hin Hen.
      assert (Hst : List.map shiftRow adjusted =
                    List.map (BulkShift.updateRow (JS.Num s) (JS.Num e))
                             (List.map shiftRow rows))
        by apply adjust_shiftRows.
      rewrite Hst in Hcut, Herr.
      assert (Hrow : In (BulkShift.updateRow (JS.Num s) (JS.Num e) (shiftRow row))
                        (List.map (BulkShift.updateRow (JS.Num s) (JS.Num e))
                                  (List.map shiftRow rows)))
        by (apply in_map, in_map; assumption).
      assert (Hw : BulkShift.isWarn (BulkShift.status
                     (BulkShift.updateRow (JS.Num s) (JS.Num e) (shiftRow row))) = false).
      { apply not_true_is_false. intros Hc.
        assert (existsb (fun row => BulkShift.isWarn (BulkShift.status row))
                        (List.map (BulkShift.updateRow (JS.Num s) (JS.Num e))
                                  (List.map shiftRow rows)) = true)
          by (apply existsb_exists; eauto).
        congruence. }
      assert (Hx : BulkShift.isError (BulkShift.status
                     (BulkShift.updateRow (JS.Num s) (JS.Num e) (shiftRow row))) = false).
      { apply not_true_is_false. intros Hc.
        assert (existsb (fun row => BulkShift.isError (BulkShift.status row))
                        (List.map (BulkShift.updateRow (JS.Num s) (JS.Num e))
                                  (List.map shiftRow rows)) = true)
          by (apply existsb_exists; eauto).
        congruence. }
      unfold enabled in *. revert Hw Hx.
      unfold BulkShift.updateRow, BulkShift.update. simpl.
      match goal with H : BulkShift.enabled _ = true |- _ => rewrite H end.
      destruct (_ || _ || _) eqn:Hc; simpl; [discriminate |].
      intros Hw _.
      apply orb_false_elim in Hc as [Hc H3]. apply orb_false_elim in Hc as [H1 H2].
      apply orb_false_elim in Hw as [H4 H5]. lia.
  - intros row Hin Hl.
    destruct (existsb (fun other => (episodeId other =? episodeId row) && enabled other)
                      rows) eqn:Hex.
    + apply existsb_exists in Hex as (other & Hother & Hc).
      apply andb_prop in Hc as [Hep Hen]. apply Z.eqb_eq in Hep.
      exists other. auto.
    + exfalso.
      assert (Hu : existsb isUnresolved adjusted = true).
      { apply (adjust_unresolved _ _ rows row Hin Hl).
        intros other Hother Hep. apply not_true_is_false. intros Hen.
        assert (existsb (fun other => (episodeId other =? episodeId row)
                                      && enabled other) rows = true).
        { apply existsb_exists. exists other. split; [exact Hother |].
          rewrite Hen, andb_true_r. apply Z.eqb_eq. exact Hep. }
        congruence. }
      congruence.
Qed.

End Apply.

Lemma tryApply_sends_witness :
  tryApply (fun _ => [])
           (mkOverlay 7 (JS.Num 1000) JS.NaN false
              (Some (adjustNewTimes (JS.Num 1000) (JS.Num 1000)
                       [mkTableRow
                          (BulkShift.mkShiftRow (BulkShift.mkMarker 1 4 15000 45000)
                                                (BulkShift.mkEpisode 4 600000) true
                                                (BulkShift.mkStatus false false 0 0))
                          false ["bulkActionOn"]]))
              [])
  = ServerShift 7 (JS.Num 1000) (JS.Num 1000) false [] /\
  7 = 7.
Proof.
  split; [reflexivity |].
  exact (proj1 (proj2 (proj2
           (tryApply_sends (fun _ => [])
              (mkOverlay 7 (JS.Num 1000) JS.NaN false
                 (Some (adjustNewTimes (JS.Num 1000) (JS.Num 1000)
                          [mkTableRow
                             (BulkShift.mkShiftRow (BulkShift.mkMarker 1 4 15000 45000)
                                                   (BulkShift.mkEpisode 4 600000) true
                                                   (BulkShift.mkStatus false false 0 0))
                             false ["bulkActionOn"]]))
                 [])
              [mkTableRow
                 (BulkShift.mkShiftRow (BulkShift.mkMarker 1 4 15000 45000)
                                       (BulkShift.mkEpisode 4 600000) true
                                       (BulkShift.mkStatus false false 0 0))
                 false ["bulkActionOn"]]
              7 (JS.Num 1000) (JS.Num 1000) false [] eq_refl eq_refl)))).
Defined.

End ShiftApplyFacts.

Module TableBuildFacts.

Import ShiftTable.

Section Build.

Variable markerTypeSelected : string.
Variable episodeData : gmap Z BulkShift.SerializedEpisodeData.

Local Abbreviation sel := (isSelected markerTypeSelected).
Local Abbreviation unsel := (fun marker => negb (isSelected markerTypeSelected marker)).
Local Abbreviation idOf := (fun marker => BulkShift.id (markerData marker)).
Local Abbreviation parentOf := (fun marker => BulkShift.parentId (markerData marker)).

(** The outer loop hands the rest of the list to the [while]. *)
Lemma tableLoop_cons (marker : ShiftMarker) (rest : list ShiftMarker)
    (built : TableBuild) :
  tableLoop markerTypeSelected episodeData (marker :: rest) built =
  whileLinked markerTypeSelected episodeData (episodeData !! parentOf marker)
              (newRows built) rest
              (fst (consider markerTypeSelected marker [] (withoutRows built)))
              (snd (consider markerTypeSelected marker [] (withoutRows built))).
Proof.
  simpl.
  generalize (fst (consider markerTypeSelected marker [] (withoutRows built))) as g.
  generalize (snd (consider markerTypeSelected marker [] (withoutRows built))) as w.
  induction rest as [| next rest IH]; intros w g; [reflexivity |].
  simpl. destruct (episodeData !! parentOf marker) as [e |]; [| reflexivity].
  destruct (_ =? _); [apply IH | reflexivity].
Qed.

Lemma consider_fst (marker : ShiftMarker) (g : list ShiftMarker) (w : list Z) :
  fst (consider markerTypeSelected marker g w) = g ++ List.filter sel [marker].
Proof.
  unfold consider. simpl. destruct (isSelected _ _); simpl;
    [reflexivity | symmetry; apply app_nil_r].
Qed.

Lemma consider_snd (marker : ShiftMarker) (g : list ShiftMarker) (w : list Z) :
  snd (consider markerTypeSelected marker g w) =
  w ++ List.map idOf (List.filter unsel [marker]).
Proof.
  unfold consider. simpl. destruct (isSelected _ _); simpl;
    [symmetry; apply app_nil_r | reflexivity].
Qed.

(** What a table under construction has to satisfy: each row has the
    episode that [episodeData] holds for its marker, and a linked row is
    one of at least two rows of its episode. *)
Let rowsOk (rows : list NewRow) : Prop :=
  (forall row, In row rows ->
     episodeData !! parentOf (rowMarker row) = Some (rowEpisode row) /\
     (rowLinked row = true ->
      (2 <= length (List.filter
                      (fun other => (BulkShift.metadataId (rowEpisode other)
                                     =? BulkShift.metadataId (rowEpisode row))%Z)
                      rows))%nat)).

Lemma rowsOk_app (rows : list NewRow) (e : BulkShift.SerializedEpisodeData)
    (g : list ShiftMarker) :
  rowsOk rows ->
  (forall marker, In marker g -> episodeData !! parentOf marker = Some e) ->
  rowsOk (rows ++ List.map (fun marker => mkNewRow marker e (1 <? length g)%nat) g).
Proof.
  intros Hok Hg row Hin. apply in_app_or in Hin as [Hin | Hin].
  - destruct (Hok row Hin) as [Hep Hl]. split; [exact Hep |].
    intros Hlinked. specialize (Hl Hlinked).
    rewrite List.filter_app, length_app. lia.
  - apply in_map_iff in Hin as (marker & <- & Hm). simpl.
    split; [apply Hg; exact Hm |].
    intros Hlinked. apply Nat.ltb_lt in Hlinked.
    rewrite List.filter_app, length_app.
    assert (Hall : List.filter
                     (fun other => (BulkShift.metadataId (rowEpisode other)
                                    =? BulkShift.metadataId e)%Z)
                     (List.map (fun marker => mkNewRow marker e (1 <? length g)%nat) g)
                   = List.map (fun marker => mkNewRow marker e (1 <? length g)%nat) g).
    { clear. generalize (1 <? length g)%nat as b. intros b.
      induction g as [| a g IH]; simpl; [reflexivity |].
      rewrite Z.eqb_refl, IH. reflexivity. }
    rewrite Hall, List.length_map. lia.
Qed.

Hypothesis Hkeys :
  forall k e, episodeData !! k = Some e -> BulkShift.metadataId e = k.

Lemma addRows_ok (e : BulkShift.SerializedEpisodeData) (g : list ShiftMarker)
    (rows : list NewRow) (w : list Z) :
  rowsOk rows ->
  (forall marker, In marker g -> episodeData !! parentOf marker = Some e) ->
  exists built,
    addRows (Some e) g rows w = Some built /\
    List.map rowMarker (newRows built) = List.map rowMarker rows ++ g /\
    withoutRows built = w /\
    rowsOk (newRows built).
Proof.
  intros Hok Hg. unfold addRows. destruct g as [| m g'] eqn:Eg.
  - eexists. split; [reflexivity |]. simpl. rewrite app_nil_r. auto.
  - rewrite <- Eg in *. eexists. split; [reflexivity |]. simpl.
    rewrite List.map_app, map_map. simpl. rewrite map_id.
    split; [reflexivity | split; [reflexivity |]].
    apply rowsOk_app; assumption.
Qed.

(** The two loops together, by induction on the markers that are left. *)
Lemma loops_ok (l : list ShiftMarker) :
  (forall marker, In marker l -> is_Some (episodeData !! parentOf marker)) ->
  (forall built,
     rowsOk (newRows built) ->
     exists built',
       tableLoop markerTypeSelected episodeData l built = Some built' /\
       List.map rowMarker (newRows built') =
         List.map rowMarker (newRows built) ++ List.filter sel l /\
       withoutRows built' =
         withoutRows built ++ List.map idOf (List.filter unsel l) /\
       rowsOk (newRows built')) /\
  (forall e rows g w,
     episodeData !! BulkShift.metadataId e = Some e ->
     rowsOk rows ->
     (forall marker, In marker g -> episodeData !! parentOf marker = Some e) ->
     exists built',
       whileLinked markerTypeSelected episodeData (Some e) rows l g w = Some built' /\
       List.map rowMarker (newRows built') =
         List.map rowMarker rows ++ g ++ List.filter sel l /\
       withoutRows built' = w ++ List.map idOf (List.filter unsel l) /\
       rowsOk (newRows built')).
Proof.
  induction l as [| marker rest IH]; intros Hall.
  - split.
    + intros built Hok. exists built. simpl. rewrite !app_nil_r. auto.
    + intros e rows g w He Hok Hg. simpl.
      destruct (addRows_ok e g rows w Hok Hg) as (built & -> & Hm & Hw & Hok').
      exists built. rewrite !app_nil_r. auto.
  - destruct IH as [IHloop IHwhile]; [intros m Hm; apply Hall; right; exact Hm |].
    assert (Hloop :
              forall built,
                rowsOk (newRows built) ->
                exists built',
                  tableLoop markerTypeSelected episodeData (marker :: rest) built
                  = Some built' /\
                  List.map rowMarker (newRows built') =
                    List.map rowMarker (newRows built)
                    ++ List.filter sel (marker :: rest) /\
                  withoutRows built' =
                    withoutRows built
                    ++ List.map idOf (List.filter unsel (marker :: rest)) /\
                  rowsOk (newRows built')).
    { intros built Hok. rewrite tableLoop_cons.
      destruct (Hall marker (or_introl eq_refl)) as [e He]. rewrite He.
      assert (Hself : episodeData !! BulkShift.metadataId e = Some e)
        by (rewrite (Hkeys _ _ He); exact He).
      destruct (IHwhile e (newRows built)
                        (fst (consider markerTypeSelected marker [] (withoutRows built)))
                        (snd (consider markerTypeSelected marker [] (withoutRows built)))
                        Hself Hok)
        as (built' & Hrun & Hm & Hw & Hok').
      { rewrite consider_fst. simpl. intros m Hm.
        destruct (isSelected markerTypeSelected marker); [| destruct Hm].
        destruct Hm as [<- | []]. exact He. }
      exists built'. split; [exact Hrun |].
      rewrite Hm, Hw, consider_fst, consider_snd. simpl.
      destruct (isSelected markerTypeSelected marker); simpl;
        rewrite <- ?app_assoc; auto. }
    split; [exact Hloop |].
    intros e rows g w He Hok Hg. simpl.
    destruct (Z.eqb_spec (parentOf marker) (BulkShift.metadataId e)) as [Hsame | Hother].
    + destruct (IHwhile e rows
                        (fst (consider markerTypeSelected marker g w))
                        (snd (consider markerTypeSelected marker g w)) He Hok)
        as (built' & Hrun & Hm & Hw & Hok').
      { rewrite consider_fst. simpl. intros m Hm.
        apply in_app_or in Hm as [Hm | Hm]; [apply Hg; exact Hm |].
        destruct (isSelected markerTypeSelected marker); [| destruct Hm].
        destruct Hm as [<- | []]. rewrite Hsame. exact He. }
      exists built'. split; [exact Hrun |].
      rewrite Hm, Hw, consider_fst, consider_snd. simpl.
      destruct (isSelected markerTypeSelected marker); simpl;
        rewrite <- ?app_assoc; auto.
    + destruct (addRows_ok e g rows w Hok Hg) as (built1 & -> & Hm1 & Hw1 & Hok1).
      destruct (Hloop built1 Hok1) as (built' & Hrun & Hm & Hw & Hok').
      exists built'. split; [exact Hrun |].
      rewrite Hm, Hw, Hm1, Hw1, <- app_assoc. auto.
Qed.

(** X17: when [episodeData] is keyed by the id of the episode and holds
    the episode of every marker, [#showCustomizeTable] builds the table
    without an error; the rows are the markers of the selected type, in
    the order of the sorted list, and the ids of the other markers make
    up [#markersWithoutRows], so that every marker has a row or is on
    that list; with "both" selected every marker has a row.  Each row
    has the episode of its marker, and a row is linked only if the table
    has another row of the same episode. *)
Theorem showCustomizeTable_partition (sortedMarkers : list ShiftMarker) :
  (forall marker, In marker sortedMarkers ->
     is_Some (episodeData !! BulkShift.parentId (markerData marker))) ->
  exists built,
    showCustomizeTable markerTypeSelected episodeData sortedMarkers = Some built /\
    List.map rowMarker (newRows built)
    = List.filter (isSelected markerTypeSelected) sortedMarkers /\
    withoutRows built
    = List.map (fun marker => BulkShift.id (markerData marker))
               (List.filter (fun marker => negb (isSelected markerTypeSelected marker))
                            sortedMarkers) /\
    (markerTypeSelected = "both" ->
     List.map rowMarker (newRows built) = sortedMarkers /\ withoutRows built = []) /\
    (forall row, In row (newRows built) ->
       episodeData !! BulkShift.parentId (markerData (rowMarker row))
       = Some (rowEpisode row) /\
       (rowLinked row = true ->
        (2 <= length (List.filter
                        (fun other => (BulkShift.metadataId (rowEpisode other)
                                       =? BulkShift.metadataId (rowEpisode row))%Z)
                        (newRows built)))%nat)).
Proof.
  intros Hall. unfold showCustomizeTable.
  destruct (loops_ok sortedMarkers Hall) as [Hloop _].
  destruct (Hloop (mkBuild [] [])) as (built & Hrun & Hm & Hw & Hok);
    [intros row [] |].
  exists built. simpl in Hm, Hw.
  split; [exact Hrun | split; [exact Hm | split; [exact Hw | split; [| exact Hok]]]].
  intros ->. rewrite Hm, Hw.
  clear. split.
  - induction sortedMarkers as [| a l IH]; [reflexivity |].
    simpl. f_equal. exact IH.
  - induction sortedMarkers as [| a l IH]; [reflexivity |].
    simpl. exact IH.
Qed.

End Build.

Lemma showCustomizeTable_partition_witness :
  exists built,
    showCustomizeTable "intro" {[ 4 := BulkShift.mkEpisode 4 600000 ]}
      [mkShiftMarker (BulkShift.mkMarker 1 4 15000 45000) "intro";
       mkShiftMarker (BulkShift.mkMarker 2 4 500000 550000) "credits"]
    = Some built /\
    List.map rowMarker (newRows built)
    = [mkShiftMarker (BulkShift.mkMarker 1 4 15000 45000) "intro"] /\
    withoutRows built = [2].
Proof.
  destruct (showCustomizeTable_partition "intro" {[ 4 := BulkShift.mkEpisode 4 600000 ]})
    with (sortedMarkers :=
            [mkShiftMarker (BulkShift.mkMarker 1 4 15000 45000) "intro";
             mkShiftMarker (BulkShift.mkMarker 2 4 500000 550000) "credits"])
    as (built & Hrun & Hrows & Hwithout & _).
  - intros k e Hke. apply lookup_singleton_Some in Hke as [<- <-]. reflexivity.
  - intros marker [<- | [<- | []]]; simpl; eexists; reflexivity.
  - exists built. split; [exact Hrun | split; [exact Hrows | exact Hwithout]].
Defined.

End TableBuildFacts.

(** ** The items that have markers *)

Module ItemsFacts.

Import MarkerBreakdown BreakdownFacts BreakdownMore.

(** A delta on a sum whose term is additive in the count. *)
Lemma wfold_delta_additive (g : Z -> JS.num -> JS.num) (c : gmap Z JS.num)
    (oldBucket d : Z) (v : JS.num) :
  (forall k a b, g k (JS.add a b) = JS.add (g k a) (g k b)) ->
  (forall k, g k (JS.Num 0) = JS.Num 0) ->
  c !! oldBucket = Some v ->
  weightedTotal g (delta oldBucket d c) =
  JS.add (JS.add (weightedTotal g c) (g oldBucket (JS.Num (-1))))
         (g (oldBucket + d) (JS.Num 1)).
Proof.
  intros Hadd Hzero Hold. destruct (Z.eq_dec d 0) as [-> | Hd].
  - rewrite (delta_zero c oldBucket v Hold), Z.add_0_r.
    rewrite add_assoc, <- Hadd. simpl. rewrite Hzero.
    symmetry. apply add_zero_r.
  - unfold delta, increment, decrement.
    set (k := oldBucket + d).
    assert (Hk : k <> oldBucket) by (unfold k; lia).
    set (c1 := nullishInit k c).
    assert (H1old : c1 !! oldBucket = Some v).
    { unfold c1. rewrite nullishInit_lookup_other by congruence. exact Hold. }
    assert (H1k : c1 !! k = Some (default (JS.Num 0) (c !! k)))
      by apply nullishInit_lookup.
    rewrite H1old. simpl.
    set (c2 := <[oldBucket := JS.add v (JS.Num (-1))]> c1).
    assert (H2k : c2 !! k = Some (default (JS.Num 0) (c !! k))).
    { unfold c2. rewrite lookup_insert_ne by congruence. exact H1k. }
    rewrite H2k. simpl.
    rewrite (wfold_replace _ c2 k _ _ H2k), Hadd, <- add_assoc.
    rewrite <- (wfold_delete _ c2 k _ H2k).
    unfold c2. rewrite (wfold_replace _ c1 oldBucket v _ H1old), Hadd, <- add_assoc.
    rewrite <- (wfold_delete _ c1 oldBucket v H1old).
    unfold c1. rewrite (wfold_nullishInit g c k (Hzero k)). reflexivity.
Qed.

Lemma countIf_add (cond : Z -> bool) (k : Z) (a b : JS.num) :
  countIf cond k (JS.add a b) = JS.add (countIf cond k a) (countIf cond k b).
Proof. unfold countIf. destruct (cond k); reflexivity. Qed.

Lemma countIf_zero (cond : Z -> bool) (k : Z) : countIf cond k (JS.Num 0) = JS.Num 0.
Proof. unfold countIf. destruct (cond k); reflexivity. Qed.

Lemma countIf_delta (cond : Z -> bool) (c : gmap Z JS.num) (oldBucket d : Z)
    (v : JS.num) :
  c !! oldBucket = Some v ->
  weightedTotal (countIf cond) (delta oldBucket d c) =
  JS.add (weightedTotal (countIf cond) c)
         (JS.Num ((if cond (oldBucket + d) then 1 else 0)
                  - (if cond oldBucket then 1 else 0))).
Proof.
  intros Hold.
  rewrite (wfold_delta_additive _ c oldBucket d v
             (countIf_add cond) (countIf_zero cond) Hold).
  rewrite add_assoc. f_equal. unfold countIf.
  destruct (cond oldBucket), (cond (oldBucket + d)); reflexivity.
Qed.

(** X18: with no negative key, every item is in the bucket of key 0 or
    is an item with markers: [totalItems] is [itemsWithMarkers] plus the
    count of the bucket 0. *)
Theorem items_with_or_without (c : gmap Z JS.num) :
  (forall k v, c !! k = Some v -> 0 <= k) ->
  totalItems c = JS.add (itemsWithMarkers c) (default (JS.Num 0) (c !! 0)).
Proof.
  unfold itemsWithMarkers, totalItems.
  change (map_fold (fun (_ : Z) v acc => JS.add acc v) (JS.Num 0) c)
    with (weightedTotal (fun _ v => v) c).
  induction c as [| k v c Hk IH] using map_ind; intros Hkeys; [reflexivity |].
  rewrite !wfold_insert by exact Hk.
  rewrite IH
    by (intros k' v' Hk'; apply (Hkeys k' v');
        rewrite lookup_insert_ne by congruence; exact Hk').
  assert (H0 : 0 <= k) by (apply (Hkeys k v), lookup_insert_eq).
  unfold countIf. destruct (Z.gtb_spec k 0) as [Hpos | Hzero].
  - rewrite lookup_insert_ne by lia.
    rewrite !add_assoc. f_equal. apply add_comm.
  - assert (k = 0) by lia. subst k. rewrite lookup_insert_eq, Hk. simpl.
    rewrite !add_zero_r. reflexivity.
Qed.

Lemma items_with_or_without_witness :
  totalItems (delta 0 1 (initBase initial))
  = JS.add (itemsWithMarkers (delta 0 1 (initBase initial)))
           (default (JS.Num 0) (delta 0 1 (initBase initial) !! 0)).
Proof.
  apply (items_with_or_without (delta 0 1 (initBase initial))).
  apply (@bool_decide_unpack
           (map_Forall (fun (k : Z) (_ : JS.num) => 0 <= k)
                       (delta 0 1 (initBase initial))) _).
  vm_compute. exact I.
Defined.

(** X19: an intro delta on an item with [intros] intro and [credits]
    credits markers changes [itemsWithIntros] by one exactly when the
    item gets its first intro marker or loses its last one, changes
    [itemsWithMarkers] likewise when the item has no credits marker, and
    leaves [itemsWithCredits] as it is. *)
Theorem delta_intro_items (c : gmap Z JS.num) (intros credits d : Z) (v : JS.num) :
  0 <= intros < 2 ^ 16 ->
  0 <= intros + d < 2 ^ 16 ->
  0 <= credits < 2 ^ 15 ->
  c !! keyFromMarkerCount intros credits = Some v ->
  itemsWithIntros (delta (keyFromMarkerCount intros credits)
                         (deltaFromType d MarkerType.Intro) c)
  = JS.add (itemsWithIntros c)
           (JS.Num ((if intros + d >? 0 then 1 else 0) - (if intros >? 0 then 1 else 0))) /\
  itemsWithCredits (delta (keyFromMarkerCount intros credits)
                          (deltaFromType d MarkerType.Intro) c)
  = itemsWithCredits c /\
  itemsWithMarkers (delta (keyFromMarkerCount intros credits)
                          (deltaFromType d MarkerType.Intro) c)
  = JS.add (itemsWithMarkers c)
           (JS.Num (if credits >? 0 then 0
                    else (if intros + d >? 0 then 1 else 0)
                         - (if intros >? 0 then 1 else 0))).
Proof.
  intros Hi Hid Hc Hold.
  destruct (key_plus_delta intros credits d Hc) as [Hkey _].
  destruct (key_decode intros credits Hi Hc) as [Hic Hcc].
  destruct (key_decode (intros + d) credits Hid Hc) as [Hic' Hcc'].
  pose proof (key_value intros credits Hc) as Hv.
  pose proof (key_value (intros + d) credits Hc) as Hv'.
  unfold itemsWithIntros, itemsWithCredits, itemsWithMarkers.
  rewrite !(countIf_delta _ c _ _ v Hold), Hkey.
  rewrite Hv, Hv', Hic, Hcc, Hic', Hcc'.
  split; [reflexivity | split].
  - replace ((if credits >? 0 then 1 else 0) - (if credits >? 0 then 1 else 0))
      with 0 by lia.
    apply add_zero_r.
  - f_equal. f_equal.
    destruct (Z.gtb_spec credits 0), (Z.gtb_spec (intros + d) 0),
      (Z.gtb_spec intros 0),
      (Z.gtb_spec (credits * 2 ^ 16 + (intros + d)) 0),
      (Z.gtb_spec (credits * 2 ^ 16 + intros) 0); lia.
Qed.

Lemma delta_intro_items_witness :
  itemsWithIntros (delta (keyFromMarkerCount 0 0) (deltaFromType 1 MarkerType.Intro)
                         (initBase initial))
  = JS.add (itemsWithIntros (initBase initial)) (JS.Num 1).
Proof.
  apply (delta_intro_items (initBase initial) 0 0 1 (JS.Num 1)); try lia.
  reflexivity.
Defined.

End ItemsFacts.

(** ** The ignored list of a shift *)

Module IgnoredFacts.

Import BulkShift.

(** X21: after [update()] of the rows for a shift, a marker id is on
    the ignored list that goes to the server exactly when the table
    reports it as unchecked, or it is the marker of a checked row whose
    shifted marker ends before 0, starts after the duration or is empty,
    or it is a marker without a row; and [hasError] tells whether there is
    such a checked row. *)
Theorem ignored_iff (tableIgnored : list Z) (rows : list BulkShiftRow)
    (markersWithoutRows : list Z) (shiftStart shiftEnd : JS.num) (markerId : Z) :
  (In markerId
      (ignored (getIgnored tableIgnored
                           (List.map (updateRow shiftStart shiftEnd) rows)
                           markersWithoutRows))
   <->
   In markerId tableIgnored \/
   (exists row, In row rows /\ id (marker row) = markerId /\ enabled row = true /\
                (end_ (marker row) + orZero shiftEnd < 0 \/
                 start (marker row) + orZero shiftStart > duration (episode row) \/
                 end_ (marker row) + orZero shiftEnd
                 <= start (marker row) + orZero shiftStart)) \/
   In markerId markersWithoutRows) /\
  (hasError (getIgnored tableIgnored
                        (List.map (updateRow shiftStart shiftEnd) rows)
                        markersWithoutRows) = true
   <->
   exists row, In row rows /\ enabled row = true /\
               (end_ (marker row) + orZero shiftEnd < 0 \/
                start (marker row) + orZero shiftStart > duration (episode row) \/
                end_ (marker row) + orZero shiftEnd
                <= start (marker row) + orZero shiftStart)).
Proof.
  assert (Herr : forall row,
             isError (status (updateRow shiftStart shiftEnd row)) = true <->
             enabled row = true /\
             (end_ (marker row) + orZero shiftEnd < 0 \/
              start (marker row) + orZero shiftStart > duration (episode row) \/
              end_ (marker row) + orZero shiftEnd
              <= start (marker row) + orZero shiftStart)).
  { intros row. unfold updateRow. simpl. destruct (enabled row).
    - rewrite BulkShiftFacts.update_isError. tauto.
    - simpl. split; [discriminate | intros [H _]; discriminate]. }
  unfold getIgnored. simpl. split.
  - rewrite !in_app_iff, in_map_iff. split.
    + intros [H | [(row' & Hid & Hin) | H]]; auto.
      apply filter_In in Hin as [Hin Hflag].
      apply in_map_iff in Hin as (row & <- & Hin).
      apply Herr in Hflag as [Hen Hbad].
      right. left. exists row. simpl in Hid. auto.
    + intros [H | [(row & Hin & Hid & Hen & Hbad) | H]]; auto.
      right. left. exists (updateRow shiftStart shiftEnd row).
      split; [exact Hid |]. apply filter_In. split; [apply in_map; exact Hin |].
      apply Herr. auto.
  - rewrite existsb_exists. split.
    + intros (row' & Hin & Hflag).
      apply in_map_iff in Hin as (row & <- & Hin).
      apply Herr in Hflag as [Hen Hbad]. exists row. auto.
    + intros (row & Hin & Hen & Hbad).
      exists (updateRow shiftStart shiftEnd row).
      split; [apply in_map; exact Hin | apply Herr; auto].
Qed.

End IgnoredFacts.

(** ** The warning about unresolved markers *)

Module WarnFacts.

Import ShiftTable.

(** X22: [#warnAboutUnresolvedMarkers] flashes the button exactly when
    the message "unresolvedAgain" is showing and no row is cut off, and
    shows the first message "unresolved", without a force button, exactly
    when no message is showing; every other message comes with the force
    button.  [hasError] plays no role.  From no message and without a
    cutoff, three clicks give "unresolved", "unresolvedAgain" and the
    flash; with a cutoff the message after a click is never the one
    before it, so the flash is never reached. *)
Theorem warn_cases (existingMessage : option string) (ignoreInfo : IgnoreInfo) :
  (warnAboutUnresolvedMarkers existingMessage ignoreInfo = FlashButton <->
   existingMessage = Some "unresolvedAgain" /\ hasCutoff ignoreInfo = false) /\
  (warnAboutUnresolvedMarkers existingMessage ignoreInfo = WarnMessage "unresolved" false
   <-> isTruthy existingMessage = false) /\
  (forall messageType force,
     warnAboutUnresolvedMarkers existingMessage ignoreInfo
     = WarnMessage messageType force ->
     force = negb (String.eqb messageType "unresolved")) /\
  (forall flag,
     warnAboutUnresolvedMarkers existingMessage
       (mkIgnoreInfo (ignored ignoreInfo) (tableVisible ignoreInfo)
                     (hasUnresolved ignoreInfo) (hasCutoff ignoreInfo) flag)
     = warnAboutUnresolvedMarkers existingMessage ignoreInfo) /\
  (hasCutoff ignoreInfo = false ->
   messageAfter
     (messageAfter (messageAfter None (warnAboutUnresolvedMarkers None ignoreInfo))
        (warnAboutUnresolvedMarkers
           (messageAfter None (warnAboutUnresolvedMarkers None ignoreInfo))
           ignoreInfo))
     (warnAboutUnresolvedMarkers (Some "unresolvedAgain") ignoreInfo)
   = Some "unresolvedAgain" /\
   warnAboutUnresolvedMarkers (Some "unresolvedAgain") ignoreInfo = FlashButton) /\
  (hasCutoff ignoreInfo = true ->
   isTruthy existingMessage = true ->
   messageAfter existingMessage (warnAboutUnresolvedMarkers existingMessage ignoreInfo)
   <> existingMessage).
Proof.
  unfold warnAboutUnresolvedMarkers, messageAfter, isTruthy, messageIs.
  split; [| split; [| split; [| split; [| split]]]].
  all: destruct (hasCutoff ignoreInfo) eqn:Hcut; simpl; rewrite ?Hcut; simpl.
  all: try (destruct existingMessage as [m |]; simpl;
            [destruct (String.eqb_spec m ""), (String.eqb_spec m "unresolvedPlus"),
               (String.eqb_spec m "unresolvedAgain"); subst; simpl |]).
  all: try solve [intuition (try discriminate; try congruence)].
  all: try solve [intros messageType force [= <- <-]; reflexivity].
Qed.

End WarnFacts.

(** ** The markers of the requested ids *)

Module QueryFacts.

Import PlexDb LegacyQueries.

Lemma emptyLists_lookup (keys : list Z) (k : Z) :
  emptyLists keys !! k = if existsb (Z.eqb k) keys then Some [] else None.
Proof.
  unfold emptyLists.
  assert (Hgen : forall (m : gmap Z (list MarkerRow)),
             fold_left (fun markers key => <[key := []]> markers) keys m !! k =
             if existsb (Z.eqb k) keys then Some [] else m !! k).
  { induction keys as [| key keys IH]; intros m; [reflexivity |].
    simpl. rewrite IH.
    destruct (existsb (Z.eqb k) keys); [rewrite orb_true_r; reflexivity |].
    rewrite orb_false_r.
    destruct (Z.eqb_spec k key) as [-> | Hne].
    - apply lookup_insert_eq.
    - apply lookup_insert_ne. congruence. }
  rewrite Hgen. rewrite lookup_empty. reflexivity.
Qed.

Lemma pushRow_None (rows : list MarkerRow) : fold_left pushRow rows None = None.
Proof. induction rows as [| r rows IH]; [reflexivity | exact IH]. Qed.

Lemma push_all (rows : list MarkerRow) :
  forall markers : gmap Z (list MarkerRow),
    (forall row, In row rows -> is_Some (markers !! episode_id row)) ->
    exists markers',
      fold_left pushRow rows (Some markers) = Some markers' /\
      forall k,
        markers' !! k =
        (fun list => list ++ List.filter (fun row => episode_id row =? k) rows)
          <$> markers !! k.
Proof.
  induction rows as [| r rows IH]; intros markers Hall.
  - exists markers. split; [reflexivity |]. intros k.
    destruct (markers !! k); simpl; [rewrite app_nil_r |]; reflexivity.
  - destruct (Hall r (or_introl eq_refl)) as [list Hlist].
    assert (Hstep : fold_left pushRow (r :: rows) (Some markers) =
                    fold_left pushRow rows
                              (Some (<[episode_id r := list ++ [r]]> markers)))
      by (simpl; rewrite Hlist; reflexivity).
    rewrite Hstep.
    destruct (IH (<[episode_id r := list ++ [r]]> markers)) as (markers' & Hrun & Hk).
    { intros row Hrow.
      destruct (Z.eq_dec (episode_id row) (episode_id r)) as [-> | Hne].
      - rewrite lookup_insert_eq. eauto.
      - rewrite lookup_insert_ne by congruence. apply Hall. right. exact Hrow. }
    exists markers'. split; [exact Hrun |]. intros k. rewrite Hk. simpl.
    destruct (Z.eqb_spec (episode_id r) k) as [<- | Hne].
    + rewrite lookup_insert_eq, Hlist. simpl. rewrite <- app_assoc. reflexivity.
    + rewrite lookup_insert_ne by exact Hne. reflexivity.
Qed.

Lemma push_throws (rows : list MarkerRow) :
  forall markers : gmap Z (list MarkerRow),
    (exists row, In row rows /\ markers !! episode_id row = None) ->
    fold_left pushRow rows (Some markers) = None.
Proof.
  induction rows as [| r rows IH]; intros markers (row & Hin & Hnone);
    [destruct Hin |].
  simpl.
  destruct (markers !! episode_id r) as [list |] eqn:Hr; [| apply pushRow_None].
  destruct Hin as [-> | Hin]; [congruence |].
  apply IH. exists row. split; [exact Hin |].
  rewrite lookup_insert_ne by congruence. exact Hnone.
Qed.

(** X23: [queryIds] answers with one list per requested id, holding the
    rows of that episode in the order of the query, and with nothing for
    other ids, when every row belongs to a requested id; it throws
    exactly when some row belongs to an id that was not requested. *)
Theorem queryIds_groups (keys : list Z) (rows : list MarkerRow) :
  ((forall row, In row rows -> In (episode_id row) keys) ->
   exists markers,
     queryIds keys rows = Some markers /\
     (forall k, In k keys ->
        markers !! k = Some (List.filter (fun row => episode_id row =? k) rows)) /\
     (forall k, ~ In k keys -> markers !! k = None)) /\
  (queryIds keys rows = None <->
   exists row, In row rows /\ ~ In (episode_id row) keys).
Proof.
  assert (Hin : forall k, In k keys <-> existsb (Z.eqb k) keys = true).
  { intros k. rewrite existsb_exists. split.
    - intros H. exists k. split; [exact H | apply Z.eqb_refl].
    - intros (x & Hx & Heq). apply Z.eqb_eq in Heq. subst. exact Hx. }
  assert (Hrequested :
            (forall row, In row rows -> In (episode_id row) keys) ->
            exists markers,
              queryIds keys rows = Some markers /\
              (forall k, In k keys ->
                 markers !! k
                 = Some (List.filter (fun row => episode_id row =? k) rows)) /\
              (forall k, ~ In k keys -> markers !! k = None)).
  { intros Hall. unfold queryIds.
    destruct (push_all rows (emptyLists keys)) as (markers & Hrun & Hk).
    { intros row Hrow. rewrite emptyLists_lookup.
      rewrite (proj1 (Hin _) (Hall row Hrow)). eauto. }
    exists markers. split; [exact Hrun |]. split.
    - intros k Hkin. rewrite Hk, emptyLists_lookup, (proj1 (Hin k) Hkin). reflexivity.
    - intros k Hkout. rewrite Hk, emptyLists_lookup.
      destruct (existsb (Z.eqb k) keys) eqn:He; [| reflexivity].
      exfalso. apply Hkout, Hin. exact He. }
  split; [exact Hrequested |]. split.
  - intros Hnone.
    destruct (existsb (fun row => negb (existsb (Z.eqb (episode_id row)) keys)) rows)
      eqn:Hex.
    + apply existsb_exists in Hex as (row & Hrow & Hout).
      exists row. split; [exact Hrow |]. intros Hkin.
      apply Hin in Hkin. rewrite Hkin in Hout. discriminate.
    + exfalso. destruct Hrequested as (markers & Hrun & _); [| congruence].
      intros row Hrow. apply Hin.
      destruct (existsb (Z.eqb (episode_id row)) keys) eqn:He; [reflexivity |].
      assert (existsb (fun row => negb (existsb (Z.eqb (episode_id row)) keys)) rows
              = true) by (apply existsb_exists; exists row; rewrite He; auto).
      congruence.
  - intros (row & Hrow & Hout). unfold queryIds. apply push_throws.
    exists row. split; [exact Hrow |]. rewrite emptyLists_lookup.
    destruct (existsb (Z.eqb (episode_id row)) keys) eqn:He; [| reflexivity].
    exfalso. apply Hout, Hin. exact He.
Qed.

End QueryFacts.

(** ** Add with the query manager of the specification, and the markers
    that a committed shift stores *)

Module EngineMore.

Import PlexDb CoreCommands Engine SortFacts BoundsFacts.

Lemma kindOfCode_kindCode (k : ErrorKind) : kindOfCode (kindCode k) = k.
Proof. destruct k; reflexivity. Qed.




(** A shift that answers [applied = true] went through the commit. *)
Lemma Shift_applied (svc : Service) (rootId dStart dEnd : Z) (force : bool)
    (ignoreIds : list Z) (result : ShiftResult) :
  fst (Shift svc rootId dStart dEnd force ignoreIds) = inr result ->
  applied result = true ->
  markers (snd (Shift svc rootId dStart dEnd force ignoreIds)) =
    reindex
      (List.map
         (fun m =>
            if existsb (fun s => id s =? id m)
                 (List.filter
                    (fun m => negb (isErrorClass (classifyMarker (items svc) dStart dEnd m)))
                    (retained svc rootId ignoreIds))
            then shiftMarker (items svc) dStart dEnd m
            else m)
         (markers svc)) /\
  allMarkers result =
    List.filter
      (fun m =>
         existsb (fun s => id s =? id m)
           (List.filter
              (fun m => negb (isErrorClass (classifyMarker (items svc) dStart dEnd m)))
              (retained svc rootId ignoreIds)))
      (markers (snd (Shift svc rootId dStart dEnd force ignoreIds))) /\
  log (snd (Shift svc rootId dStart dEnd force ignoreIds)) =
    log svc ++
    List.map (fun m => LogEdit (shiftMarker (items svc) dStart dEnd m) (start m) (end_ m))
             (List.filter
                (fun m => negb (isErrorClass (classifyMarker (items svc) dStart dEnd m)))
                (retained svc rootId ignoreIds)).
Proof.
  unfold Shift.
  destruct ((dStart =? 0) && (dEnd =? 0)); [discriminate |].
  cbv zeta.
  destruct (linkedConflict _ && negb force);
    [simpl; intros [= <-]; discriminate |].
  destruct (existsb _ _ && negb force);
    [simpl; intros [= <-]; discriminate |].
  simpl. intros [= <-] _. simpl. auto.
Qed.

(** C4: in a shift that commits, a retained marker that is a Cutoff
    (post-shift [start' < 0] or [end' > duration], and not an Error), on a
    table with unique ids and with the marker within its parent before
    the shift, is stored as [max(0, start'), min(duration, end')]; the
    stored marker satisfies I3, is among the markers the shift answers
    with, and its edit is logged with the old bounds. *)
Theorem Shift_clamps_cutoff (svc : Service) (rootId dStart dEnd : Z) (force : bool)
    (ignoreIds : list Z) (result : ShiftResult) (m : MarkerRow) :
  List.NoDup (List.map id (markers svc)) ->
  fst (Shift svc rootId dStart dEnd force ignoreIds) = inr result ->
  applied result = true ->
  In m (retained svc rootId ignoreIds) ->
  classifyMarker (items svc) dStart dEnd m = Cutoff ->
  0 <= start m < end_ m ->
  end_ m <= durationOf (items svc) (episode_id m) ->
  exists stored,
    getSingleMarker (markers (snd (Shift svc rootId dStart dEnd force ignoreIds))) (id m)
    = Some stored /\
    episode_id stored = episode_id m /\
    start stored = Z.max 0 (start m + dStart) /\
    end_ stored = Z.min (durationOf (items svc) (episode_id m)) (end_ m + dEnd) /\
    0 <= start stored < end_ stored /\
    end_ stored <= durationOf (items svc) (episode_id m) /\
    In stored (allMarkers result) /\
    In (LogEdit (setInterval m (Z.max 0 (start m + dStart))
                             (Z.min (durationOf (items svc) (episode_id m))
                                    (end_ m + dEnd)))
                (start m) (end_ m))
       (log (snd (Shift svc rootId dStart dEnd force ignoreIds))).
Proof.
  intros Hnd Hres Happ Hkept Hclass Hvalid Hdur.
  destruct (Shift_applied svc rootId dStart dEnd force ignoreIds result Hres Happ)
    as (Hrows & Hall & Hlog).
  set (toShift :=
         List.filter
           (fun m => negb (isErrorClass (classifyMarker (items svc) dStart dEnd m)))
           (retained svc rootId ignoreIds)) in *.
  assert (Hin : In m toShift).
  { apply filter_In. split; [exact Hkept |]. rewrite Hclass. reflexivity. }
  assert (Hsel : existsb (fun s => id s =? id m) toShift = true).
  { apply existsb_exists. exists m. split; [exact Hin | apply Z.eqb_refl]. }
  assert (Hm : In m (markers svc)).
  { unfold retained, ListMarkersForSubtree in Hkept.
    apply filter_In in Hkept as [Hkept _]. apply filter_In in Hkept as [Hkept _].
    exact Hkept. }
  set (moved m := if existsb (fun s => id s =? id m) toShift
                  then shiftMarker (items svc) dStart dEnd m else m) in *.
  assert (Hmoved_id : forall x, id (moved x) = id x).
  { intros x. unfold moved.
    destruct (existsb (fun s => id s =? id x) toShift); reflexivity. }
  set (rows := List.map moved (markers svc)) in *.
  set (stored := setIndex (moved m)
                          (rankOf (id (moved m))
                                  (getEpisodeMarkers rows (episode_id (moved m))))).
  assert (Hstored : getSingleMarker
                      (markers (snd (Shift svc rootId dStart dEnd force ignoreIds)))
                      (id m) = Some stored).
  { rewrite Hrows. unfold reindex, rows. rewrite map_map.
    apply (DeleteFacts.find_map_unique
             (fun x => setIndex (moved x)
                                (rankOf (id (moved x))
                                        (getEpisodeMarkers (List.map moved (markers svc))
                                                           (episode_id (moved x)))))
             (markers svc) m); [| exact Hnd | exact Hm].
    intros x. simpl. apply Hmoved_id. }
  assert (Hbounds : start (moved m) = Z.max 0 (start m + dStart) /\
                    end_ (moved m)
                    = Z.min (durationOf (items svc) (episode_id m)) (end_ m + dEnd) /\
                    episode_id (moved m) = episode_id m).
  { unfold moved. rewrite Hsel. repeat split. }
  destruct Hbounds as (Hs & He & Hp).
  assert (Hcut : 0 < end_ m + dEnd /\
                 start m + dStart < durationOf (items svc) (episode_id m) /\
                 start m + dStart < end_ m + dEnd).
  { unfold classifyMarker, classify in Hclass.
    destruct ((end_ m + dEnd <=? 0)
              || (start m + dStart >=? durationOf (items svc) (episode_id m))
              || (end_ m + dEnd <=? start m + dStart)) eqn:Herr; [discriminate |].
    apply orb_false_elim in Herr as [Herr H3].
    apply orb_false_elim in Herr as [H1 H2]. lia. }
  assert (Hfacts : episode_id stored = episode_id m /\
                   start stored = Z.max 0 (start m + dStart) /\
                   end_ stored
                   = Z.min (durationOf (items svc) (episode_id m)) (end_ m + dEnd) /\
                   id stored = id m)
    by (unfold stored; simpl; auto).
  destruct Hfacts as (Hp' & Hs' & He' & Hid').
  assert (Hinrows : In stored
                       (markers (snd (Shift svc rootId dStart dEnd force ignoreIds))))
    by (apply (getSingleMarker_Some _ _ _ Hstored)).
  exists stored. rewrite Hs', He'.
  split; [exact Hstored | split; [exact Hp' |]].
  split; [reflexivity | split; [reflexivity |]].
  split; [lia | split; [lia | split]].
  - rewrite Hall. apply filter_In. split; [exact Hinrows |].
    rewrite Hid'. exact Hsel.
  - rewrite Hlog. apply in_or_app. right.
    apply in_map_iff. exists m. split; [reflexivity | exact Hin].
Qed.

Lemma Shift_clamps_cutoff_witness :
  exists stored,
    getSingleMarker
      (markers (snd (Shift Scenario.testService 4 (-16000) (-16000) false []))) 1
    = Some stored /\
    start stored = 0 /\ end_ stored = 29000 /\
    0 <= start stored < end_ stored /\ end_ stored <= 600000.
Proof.
  assert (Hnd : List.NoDup (List.map id (markers Scenario.testService))).
  { simpl. repeat constructor; simpl; intuition lia. }
  destruct (Shift_clamps_cutoff Scenario.testService 4 (-16000) (-16000) false []
              (mkShiftResult true false false [mkRow 1 4 0 0 29000 "intro" false])
              Scenario.Marker1 Hnd eq_refl eq_refl)
    as (stored & Hget & _ & Hs & He & Hvalid & Hdur & _).
  - left. reflexivity.
  - reflexivity.
  - simpl. lia.
  - vm_compute. discriminate.
  - exists stored. split; [exact Hget |].
    split; [exact Hs | split; [exact He | split; [exact Hvalid | exact Hdur]]].
Defined.

End EngineMore.
